(** * MuleShield synthetic transaction generator: a shallow embedding

    This development embeds [src/data/generate_data.py] and settles the
    claims made about it by the specification.

    Modelling conventions.
    - Python integers are [Z]; Python strings are [string].
    - Python floats are modelled by exact rationals [Q]: the binary64
      rounding error of every float operation is abstracted away.  The
      facts established about amounts are facts about which rounding
      operation the program applies, not about floating-point error.
    - The two pseudo-random generators ([random] and [numpy.random]) are
      libraries outside the repository.  Each is modelled as a stream of
      raw draws with a cursor; the library functions are defined on top of
      the stream so that their documented ranges hold by construction.
      A process starts with generators in a state of its own; seeding
      replaces that state by the stream of the seed.
    - Exceptions are explicit: every effectful function returns either a
      value with the next state or the exception it raises.
    - [pandas] is outside the repository as well; its [sort_values] and
      [to_csv] are taken through an interface carrying the documented
      contract.
    - The progress and summary lines the script prints are not part of
      the data set and are left out; the figures of the summary are
      defined with the properties of the sizes.
    - [add_txn] takes one more argument than in the script: a ghost label
      naming its call site, kept in a log beside [transactions]. *)

From Stdlib Require Import ZArith QArith Qround Bool List String Ascii Lia Lqa.
From Stdlib Require Import DecimalString DecimalZ Permutation Sorted.
Import ListNotations.

Local Open Scope string_scope.
Local Open Scope list_scope.
Local Open Scope Z_scope.

(* ===================================================================== *)
(** ** Python builtins *)
(* ===================================================================== *)

Module Py.

(** [str(i)] for an integer. *)
Definition str (i : Z) : string := NilZero.string_of_int (Z.to_int i).

Fixpoint zeros (n : nat) : string :=
  match n with
  | O => EmptyString
  | S n' => String "0" (zeros n')
  end.

(** [s.zfill(width)] for a string without sign prefix. *)
Definition zfill (width : nat) (s : string) : string :=
  (zeros (width - String.length s) ++ s)%string.

(** [range(a, b)] as a list. *)
Definition range (a b : Z) : list Z :=
  map (fun k => a + Z.of_nat k) (seq 0 (Z.to_nat (b - a))).

(** [l[a:b]] for [0 <= a <= b]. *)
Definition slice {A} (a b : nat) (l : list A) : list A :=
  firstn (b - a) (skipn a l).

(** [round(x)]: nearest integer, ties to even. *)
Definition round (x : Q) : Z :=
  let f := Qfloor x in
  let d := (x - inject_Z f)%Q in
  match (d ?= 1 # 2)%Q with
  | Lt => f
  | Gt => f + 1
  | Eq => if Z.even f then f else f + 1
  end.

(** [round(x, 2)]. *)
Definition round2 (x : Q) : Q := (inject_Z (round (x * 100)) / 100)%Q.

End Py.

(* ===================================================================== *)
(** ** The [datetime] module *)
(* ===================================================================== *)

Module Datetime.

Record datetime := mk_datetime {
  year : Z; month : Z; day : Z; hour : Z; minute : Z; second : Z
}.

(** A normalised [timedelta]: whole days and seconds within the day. *)
Record timedelta := mk_timedelta { td_days : Z; td_seconds : Z }.

Definition timedelta_of (days hours minutes seconds : Z) : timedelta :=
  let total := days * 86400 + hours * 3600 + minutes * 60 + seconds in
  mk_timedelta (total / 86400) (total mod 86400).

Definition is_leap (y : Z) : bool :=
  (y mod 4 =? 0) && (negb (y mod 100 =? 0) || (y mod 400 =? 0)).

Definition DAYS_IN_MONTH : list Z :=
  [-1; 31; 28; 31; 30; 31; 30; 31; 31; 30; 31; 30; 31].

Definition DAYS_BEFORE_MONTH : list Z :=
  [-1; 0; 31; 59; 90; 120; 151; 181; 212; 243; 273; 304; 334].

Definition days_before_year (y : Z) : Z :=
  let y1 := y - 1 in y1 * 365 + y1 / 4 - y1 / 100 + y1 / 400.

Definition days_in_month (y m : Z) : Z :=
nth (Z.to_nat m) DAYS_IN_MONTH 0
+ (if (m =? 2) && is_leap y then 1 else 0).

Definition days_before_month (y m : Z) : Z :=
  nth (Z.to_nat m) DAYS_BEFORE_MONTH 0
  + (if (2 <? m) && is_leap y then 1 else 0).

Definition ymd2ord (y m d : Z) : Z :=
  days_before_year y + days_before_month y m + d.

Definition ord2ymd (n0 : Z) : Z * Z * Z :=
  let n := n0 - 1 in
  let n400 := n / 146097 in
  let n := n mod 146097 in
  let y := n400 * 400 + 1 in
  let n100 := n / 36524 in
  let n := n mod 36524 in
  let n4 := n / 1461 in
  let n := n mod 1461 in
  let n1 := n / 365 in
  let n := n mod 365 in
  let y := y + n100 * 100 + n4 * 4 + n1 in
  if (n1 =? 4) || (n100 =? 4) then (y - 1, 12, 31)
  else
    let leapyear := (n1 =? 3) && (negb (n4 =? 24) || (n100 =? 3)) in
    let m := Z.shiftr (n + 50) 5 in
    let preceding :=
      nth (Z.to_nat m) DAYS_BEFORE_MONTH 0
      + (if (2 <? m) && leapyear then 1 else 0) in
    if n <? preceding then
      let m' := m - 1 in
      let preceding' :=
        preceding - (nth (Z.to_nat m') DAYS_IN_MONTH 0
                     + (if (m' =? 2) && leapyear then 1 else 0)) in
      (y, m', n - preceding' + 1)
    else (y, m, n - preceding + 1).

Definition toordinal (dt : datetime) : Z :=
  ymd2ord (year dt) (month dt) (day dt).

(** [dt + td]; [None] stands for [OverflowError]. *)
Definition add (dt : datetime) (td : timedelta) : option datetime :=
  let total :=
    hour dt * 3600 + minute dt * 60 + second dt + td_seconds td in
  let days := toordinal dt + td_days td + total / 86400 in
  let secs := total mod 86400 in
  if (0 <? days) && (days <=? 3652059) then
    let '(y, m, d) := ord2ymd days in
    Some (mk_datetime y m d (secs / 3600) ((secs mod 3600) / 60)
                      (secs mod 60))
  else None.

(** [(a - b).days] *)
Definition sub_days (a b : datetime) : Z :=
  let sa := toordinal a * 86400 + hour a * 3600 + minute a * 60 + second a in
  let sb := toordinal b * 86400 + hour b * 3600 + minute b * 60 + second b in
  (sa - sb) / 86400.

(** [dt.strftime("%Y-%m-%d %H:%M:%S")] *)
Definition strftime (dt : datetime) : string :=
  (Py.zfill 4 (Py.str (year dt)) ++ "-" ++
   Py.zfill 2 (Py.str (month dt)) ++ "-" ++
   Py.zfill 2 (Py.str (day dt)) ++ " " ++
   Py.zfill 2 (Py.str (hour dt)) ++ ":" ++
   Py.zfill 2 (Py.str (minute dt)) ++ ":" ++
   Py.zfill 2 (Py.str (second dt)))%string.

(** Chronological order, as [datetime.__le__]. *)
Definition seconds_of (dt : datetime) : Z :=
  toordinal dt * 86400 + hour dt * 3600 + minute dt * 60 + second dt.

Definition le (a b : datetime) : Prop := seconds_of a <= seconds_of b.

End Datetime.
Import Datetime.

(* ===================================================================== *)
(** ** Transaction records and the generator state *)
(* ===================================================================== *)

(** One row of the output, with the keys of the dictionary built by
    [add_txn]. *)
Record txn := mk_txn {
  txn_id : string;
  timestamp : string;
  account_id : string;
  txn_type : string;
  amount : Q;
  channel : string;
  counterparty : string;
  is_mule : Z;
  mule_type : string
}.

(** Ghost label: the call site of [add_txn] that emitted a row.  It is not
    part of the program's data; it records which synthesis rule produced
    each row so that statements about provenance can be made. *)
Inductive rule :=
| NormalActivity
| ComplicitCredit
| ComplicitDebit
| RecruitedPhase1
| RecruitedCredit
| RecruitedDebit
| ExploitedPhase1
| ExploitedPhase2.

Inductive exn := ValueError | IndexError | NameError | OverflowError.

(** Module-level mutable state of the script, the two generator streams
    and the ghost provenance log. *)
Record state := mk_state {
  transactions : list txn;
  txn_counter : Z;
  var_amount : option Q;        (* the module-level variable [amount] *)
  py_draws : N -> Z;            (* stream of the [random] module *)
  py_pos : N;
  np_draws : N -> Q;            (* stream of [numpy.random] *)
  np_pos : N;
  origins : list rule           (* ghost *)
}.

Inductive outcome (A : Type) :=
| Returns (a : A) (s : state)
| Raises (e : exn).
Arguments Returns {A} a s.
Arguments Raises {A} e.

Definition M (A : Type) := state -> outcome A.

Definition ret {A} (a : A) : M A := fun s => Returns a s.

Definition bind {A B} (m : M A) (f : A -> M B) : M B :=
  fun s => match m s with
           | Returns a s' => f a s'
           | Raises e => Raises e
           end.

Definition raise {A} (e : exn) : M A := fun _ => Raises e.

Declare Scope monad_scope.
Delimit Scope monad_scope with monad.
Notation "x <- m ;; k" := (bind m (fun x => k))
  (at level 61, m at next level, right associativity) : monad_scope.
Notation "m ;;; k" := (bind m (fun _ => k))
  (at level 61, right associativity) : monad_scope.
Local Open Scope monad_scope.

(** [for _ in range(n): body] *)
Fixpoint for_range (n : nat) (body : M unit) : M unit :=
  match n with
  | O => ret tt
  | S n' => body ;;; for_range n' body
  end.

(** [for x in l: body x] *)
Fixpoint for_each {A} (l : list A) (body : A -> M unit) : M unit :=
  match l with
  | [] => ret tt
  | x :: l' => body x ;;; for_each l' body
  end.

(* ===================================================================== *)
(** ** The [random] and [numpy.random] modules *)
(* ===================================================================== *)

Module Random.

Definition next_raw : M Z := fun s =>
  Returns (py_draws s (py_pos s))
          (mk_state (transactions s) (txn_counter s) (var_amount s)
                    (py_draws s) (N.succ (py_pos s))
                    (np_draws s) (np_pos s) (origins s)).

(** An integer in [[0, n)]. *)
Definition randbelow (n : Z) : M Z :=
  if n <=? 0 then raise ValueError
  else (r <- next_raw ;; ret (r mod n)).

(** [random.randint(a, b)]: an integer in [[a, b]]. *)
Definition randint (a b : Z) : M Z :=
  k <- randbelow (b - a + 1) ;; ret (a + k).

(** [random.random()]: a multiple of [2^-53] in [[0, 1)]. *)
Definition random : M Q :=
  r <- next_raw ;; ret (Qmake (r mod 2 ^ 53) (2 ^ 53)).

(** [random.uniform(a, b)] is [a + (b - a) * random()]. *)
Definition uniform (a b : Q) : M Q :=
  r <- random ;; ret (a + (b - a) * r)%Q.

(** [random.choice(seq)] *)
Definition choice {A} (l : list A) : M A :=
  match l with
  | [] => raise IndexError
  | x :: _ =>
      i <- randbelow (Z.of_nat (List.length l)) ;; ret (nth (Z.to_nat i) l x)
  end.

Fixpoint set_nth {A} (i : nat) (x : A) (l : list A) : list A :=
  match l, i with
  | [], _ => []
  | _ :: l', O => x :: l'
  | y :: l', S i' => y :: set_nth i' x l'
  end.

(** The selection loop of [random.sample]: draw a position of the pool,
    take its element and move the last element of the pool into the
    hole.  (For a large population the library selects by rejection
    instead; both select [k] elements at distinct positions, which is all
    the script relies on.) *)
Fixpoint sample_loop {A} (k : nat) (pool : list A) : M (list A) :=
  match k with
  | O => ret []
  | S k' =>
      match pool with
      | [] => raise ValueError
      | x :: _ =>
          j <- randbelow (Z.of_nat (List.length pool)) ;;
          let picked := nth (Z.to_nat j) pool x in
          let pool' :=
            removelast (set_nth (Z.to_nat j) (last pool x) pool) in
          rest <- sample_loop k' pool' ;;
          ret (picked :: rest)
      end
  end.

(** [random.sample(population, k)]: [k] elements at distinct positions. *)
Definition sample {A} (population : list A) (k : Z) : M (list A) :=
  if (k <? 0) || (Z.of_nat (List.length population) <? k) then raise ValueError
  else sample_loop (Z.to_nat k) population.

(** [numpy.random.lognormal(mean, sigma)]: the next draw of the numpy
    stream stands for the sampled value. *)
Definition lognormal (mean sigma : Q) : M Q := fun s =>
  Returns (np_draws s (np_pos s))
          (mk_state (transactions s) (txn_counter s) (var_amount s)
                    (py_draws s) (py_pos s)
                    (np_draws s) (N.succ (np_pos s)) (origins s)).

End Random.

(* ===================================================================== *)
(** ** The script *)
(* ===================================================================== *)

Definition Qltb (x y : Q) : bool := negb (Qle_bool y x).

Definition CHANNELS : list string :=
  ["UPI"; "NEFT"; "IMPS"; "ATM"; "RTGS"; "Mobile Banking"; "Net Banking"].
Definition START_DATE : datetime := mk_datetime 2024 1 1 0 0 0.
Definition END_DATE : datetime := mk_datetime 2024 6 30 0 0 0.
Definition TOTAL_DAYS : Z := sub_days END_DATE START_DATE.

Definition N_NORMAL : Z := 300.
Definition N_MULE : Z := 30.
Definition N_EXTERNAL : Z := 50.

Definition make_id (prefix : string) (i : Z) : string :=
  (prefix ++ Py.zfill 5 (Py.str i))%string.

Definition NORMAL_IDS : list string :=
  map (make_id "ACC") (Py.range 1 (N_NORMAL + 1)).
Definition MULE_IDS : list string :=
  map (make_id "MUL") (Py.range 1 (N_MULE + 1)).
Definition EXTERNAL_IDS : list string :=
  map (make_id "EXT") (Py.range 1 (N_EXTERNAL + 1)).
Definition ALL_ACCOUNT_IDS : list string := NORMAL_IDS ++ MULE_IDS.

Definition COMPLICIT_MULES : list string := Py.slice 0 10 MULE_IDS.
Definition RECRUITED_MULES : list string := Py.slice 10 20 MULE_IDS.
Definition EXPLOITED_MULES : list string := Py.slice 20 30 MULE_IDS.

Definition rand_ts (start_day : Z) (end_day : option Z) (night_bias : bool)
  : M datetime :=
  let end_day := match end_day with None => TOTAL_DAYS | Some e => e end in
  day <- Random.randint start_day end_day ;;
  hour <- (if night_bias then
             r <- Random.random ;;
             if Qltb r (70 # 100)
             then Random.choice (Py.range 23 24 ++ Py.range 0 5)
             else Random.randint 8 22
           else Random.randint 8 22) ;;
  minute <- Random.randint 0 59 ;;
  second <- Random.randint 0 59 ;;
  match Datetime.add START_DATE (timedelta_of day hour minute second) with
  | Some ts => ret ts
  | None => raise OverflowError
  end.

Definition round_amount (amount : Q) : M Q :=
  r <- Random.random ;;
  if Qltb r (25 # 100)
  then ret (inject_Z (Py.round (amount / 1000) * 1000))
  else ret (Py.round2 amount).

Definition txn_id_of (counter : Z) : string :=
  ("TXN" ++ Py.zfill 8 (Py.str counter))%string.

Definition add_txn (site : rule) (account_id txn_type : string) (amount : Q)
    (channel counterparty : string) (ts : datetime) (is_mule : Z)
    (mule_type : string) : M unit := fun s =>
  Returns tt
    (mk_state
       (transactions s ++
          [mk_txn (txn_id_of (txn_counter s)) (strftime ts) account_id
                  txn_type amount channel counterparty is_mule mule_type])
       (txn_counter s + 1) (var_amount s)
       (py_draws s) (py_pos s) (np_draws s) (np_pos s)
       (origins s ++ [site])).

(** Assignment to, and read of, the module-level variable [amount]. *)
Definition assign_amount (a : Q) : M Q := fun s =>
  Returns a
    (mk_state (transactions s) (txn_counter s) (Some a)
              (py_draws s) (py_pos s) (np_draws s) (np_pos s) (origins s)).

Definition read_amount : M Q := fun s =>
  match var_amount s with
  | Some a => Returns a s
  | None => Raises NameError
  end.

(** *** Normal accounts *)

Definition normal_txn (acc : string) : M unit :=
  ts <- rand_ts 0 None false ;;
  txn_type <- Random.choice ["credit"; "debit"] ;;
  counterparty <-
    Random.choice
      (filter (fun a => negb (String.eqb a acc)) ALL_ACCOUNT_IDS) ;;
  x <- Random.lognormal (95 # 10) 1 ;;
  amount <- assign_amount (Py.round2 x) ;;
  channel <- Random.choice CHANNELS ;;
  add_txn NormalActivity acc txn_type amount channel counterparty ts 0 "none".

Definition normal_account (acc : string) : M unit :=
  n_txns <- Random.randint 200 600 ;;
  for_range (Z.to_nat n_txns) (normal_txn acc).

(** *** Complicit mules *)

Definition complicit_credit (acc sender : string) (start_day : Z) : M unit :=
  ts <- rand_ts start_day None true ;;
  u <- Random.uniform 20000 200000 ;;
  a <- round_amount u ;;
  amount <- assign_amount a ;;
  ch <- Random.choice ["UPI"; "NEFT"; "IMPS"] ;;
  add_txn ComplicitCredit acc "credit" amount ch sender ts 1 "complicit".

Definition complicit_debit (acc : string) (criminal_receivers : list string)
    (start_day : Z) : M unit :=
  ts_forward <- rand_ts start_day None true ;;
  amount <- read_amount ;;
  f <- Random.uniform (92 # 100) (99 # 100) ;;
  amount_out <- round_amount (amount * f) ;;
  receiver <- Random.choice criminal_receivers ;;
  out_channel <- Random.choice ["NEFT"; "RTGS"; "Net Banking"] ;;
  add_txn ComplicitDebit acc "debit" amount_out out_channel receiver
          ts_forward 1 "complicit".

Definition complicit_sender (acc : string) (criminal_receivers : list string)
    (start_day : Z) (sender : string) : M unit :=
  n_credits <- Random.randint 3 8 ;;
  for_range (Z.to_nat n_credits) (complicit_credit acc sender start_day) ;;;
  for_range (Z.to_nat n_credits)
            (complicit_debit acc criminal_receivers start_day).

Definition complicit_mule (acc : string) : M unit :=
  k <- Random.randint 1 2 ;;
  criminal_receivers <- Random.sample (Py.slice 0 20 EXTERNAL_IDS) k ;;
  k' <- Random.randint 8 20 ;;
  victim_senders <- Random.sample NORMAL_IDS k' ;;
  let start_day := TOTAL_DAYS - 60 in
  for_each victim_senders (complicit_sender acc criminal_receivers start_day).

(** *** Recruited mules *)

Definition recruited_phase1 (acc : string) : M unit :=
  ts <- rand_ts 0 (Some 60) false ;;
  txn_type <- Random.choice ["credit"; "debit"] ;;
  counterparty <- Random.choice NORMAL_IDS ;;
  x <- Random.lognormal 9 (8 # 10) ;;
  amount <- assign_amount (Py.round2 x) ;;
  ch <- Random.choice CHANNELS ;;
  add_txn RecruitedPhase1 acc txn_type amount ch counterparty ts 0 "recruited".

Definition recruited_phase2 (acc : string) (criminal_handlers : list string)
  : M unit :=
  ts <- rand_ts 61 None true ;;
  u <- Random.uniform 15000 150000 ;;
  a <- round_amount u ;;
  amount <- assign_amount a ;;
  r <- Random.random ;;
  if Qltb r (55 # 100) then
    sender <- Random.choice criminal_handlers ;;
    ch <- Random.choice ["UPI"; "IMPS"] ;;
    add_txn RecruitedCredit acc "credit" amount ch sender ts 1 "recruited"
  else
    receiver <- Random.choice (MULE_IDS ++ Py.slice 0 15 EXTERNAL_IDS) ;;
    f <- Random.uniform (88 # 100) (98 # 100) ;;
    ch <- Random.choice ["NEFT"; "ATM"; "Net Banking"] ;;
    add_txn RecruitedDebit acc "debit" (amount * f) ch receiver ts 1
            "recruited".

Definition recruited_mule (acc : string) : M unit :=
  k <- Random.randint 1 3 ;;
  criminal_handlers <- Random.sample (Py.slice 20 35 EXTERNAL_IDS) k ;;
  n1 <- Random.randint 50 120 ;;
  for_range (Z.to_nat n1) (recruited_phase1 acc) ;;;
  n2 <- Random.randint 80 200 ;;
  for_range (Z.to_nat n2) (recruited_phase2 acc criminal_handlers).

(** *** Exploited mules *)

Definition exploited_phase1 (acc : string) : M unit :=
  ts <- rand_ts 0 (Some 90) false ;;
  txn_type <- Random.choice ["credit"; "debit"] ;;
  counterparty <- Random.choice NORMAL_IDS ;;
  x <- Random.lognormal (85 # 10) (7 # 10) ;;
  amount <- assign_amount (Py.round2 x) ;;
  ch <- Random.choice ["UPI"; "Mobile Banking"] ;;
  add_txn ExploitedPhase1 acc txn_type amount ch counterparty ts 0 "exploited".

Definition exploited_phase2 (acc : string)
    (attacker_destinations : list string) (takeover_day : Z) : M unit :=
  ts <- rand_ts takeover_day (Some (takeover_day + 3)) true ;;
  u <- Random.uniform 50000 500000 ;;
  a <- round_amount u ;;
  amount <- assign_amount a ;;
  dest <- Random.choice attacker_destinations ;;
  ch <- Random.choice ["RTGS"; "Net Banking"; "NEFT"] ;;
  add_txn ExploitedPhase2 acc "debit" amount ch dest ts 1 "exploited".

Definition exploited_mule (acc : string) : M unit :=
  k <- Random.randint 2 4 ;;
  attacker_destinations <-
    Random.sample (skipn 35 EXTERNAL_IDS) k ;;
  n1 <- Random.randint 100 250 ;;
  for_range (Z.to_nat n1) (exploited_phase1 acc) ;;;
  takeover_day <- Random.randint 91 120 ;;
  n2 <- Random.randint 10 30 ;;
  for_range (Z.to_nat n2)
            (exploited_phase2 acc attacker_destinations takeover_day).

(** *** The whole generation, up to the data frame *)

Definition generate : M unit :=
  for_each NORMAL_IDS normal_account ;;;
  for_each COMPLICIT_MULES complicit_mule ;;;
  for_each RECRUITED_MULES recruited_mule ;;;
  for_each EXPLOITED_MULES exploited_mule.

(** The state after [random.seed] and [np.random.seed]: the streams fixed
    by the seeds, an empty [transactions] list and [txn_counter = 1]. *)
Definition initial (py : N -> Z) (np : N -> Q) : state :=
  mk_state [] 1 None py 0%N np 0%N [].

Definition run (py : N -> Z) (np : N -> Q) : outcome unit :=
  generate (initial py np).

(* ===================================================================== *)
(** ** The data frame and the file *)
(* ===================================================================== *)

(** The part of [pandas] the script relies on.  [sort_values] is called
    with its default [kind]; what the library documents for it is that the
    result holds the same rows in ascending order of the key.  [float_repr]
    is the rendering of a float cell in [to_csv]. *)
Class Pandas := {
  sort_values : (txn -> string) -> list txn -> list txn;
  sort_values_perm : forall key l, Permutation l (sort_values key l);
  sort_values_sorted : forall key l,
      Sorted (fun a b => String.leb (key a) (key b) = true)
             (sort_values key l);
  float_repr : Q -> string
}.

Definition newline : string := String (ascii_of_nat 10) EmptyString.

Definition csv_header : string :=
  ("txn_id,timestamp,account_id,txn_type,amount,channel,counterparty,"
   ++ "is_mule,mule_type" ++ newline)%string.

Definition csv_row `{Pandas} (r : txn) : string :=
  (txn_id r ++ "," ++ timestamp r ++ "," ++ account_id r ++ ","
   ++ txn_type r ++ "," ++ float_repr (amount r) ++ "," ++ channel r ++ ","
   ++ counterparty r ++ "," ++ Py.str (is_mule r) ++ "," ++ mule_type r
   ++ newline)%string.

(** [df.to_csv(path, index=False)]: the content written. *)
Definition to_csv `{Pandas} (df : list txn) : string :=
  (csv_header ++ String.concat "" (map csv_row df))%string.

(** [pd.DataFrame(transactions).sort_values("timestamp")
      .reset_index(drop=True)] *)
Definition dataframe `{Pandas} (s : state) : list txn :=
  sort_values timestamp (transactions s).

(** The script from the seeded streams to the content of
    [transactions.csv]. *)
Definition main `{Pandas} (py : N -> Z) (np : N -> Q) : exn + string :=
  match run py np with
  | Returns _ s => inr (to_csv (dataframe s))
  | Raises e => inl e
  end.

(* ===================================================================== *)
(** ** Total-correctness reasoning for the monad *)
(* ===================================================================== *)

(** [wp m Q s]: from [s], [m] returns (raises nothing) and its result
    satisfies [Q]. *)
Definition wp {A} (m : M A) (Q : A -> state -> Prop) (s : state) : Prop :=
  match m s with
  | Returns a s' => Q a s'
  | Raises _ => False
  end.

Lemma wp_ret {A} (a : A) Q s : Q a s -> wp (ret a) Q s.
Proof. exact (fun H => H). Qed.

Lemma wp_bind {A B} (m : M A) (f : A -> M B) Q s :
  wp m (fun a s' => wp (f a) Q s') s -> wp (bind m f) Q s.
Proof.
  unfold wp, bind. destruct (m s); auto.
Qed.

Lemma wp_mono {A} (m : M A) (Q Q' : A -> state -> Prop) s :
  wp m Q s -> (forall a s', Q a s' -> Q' a s') -> wp m Q' s.
Proof.
  unfold wp. destruct (m s); auto.
Qed.

Lemma wp_returns {A} (m : M A) Q s :
  wp m Q s -> exists a s', m s = Returns a s' /\ Q a s'.
Proof.
  unfold wp. destruct (m s) as [a s'|e]; [eauto | tauto].
Qed.

Lemma returns_wp {A} (m : M A) (Q : A -> state -> Prop) s a s' :
  m s = Returns a s' -> Q a s' -> wp m Q s.
Proof. unfold wp. intros ->. auto. Qed.

(** A row together with the ghost label of the rule that emitted it. *)
Abbreviation entry := (rule * txn)%type.

(** The rows [l] carry the consecutive identifiers starting at [c]. *)
Fixpoint ids_from (c : Z) (l : list entry) : Prop :=
  match l with
  | [] => True
  | e :: l' => txn_id (snd e) = txn_id_of c /\ ids_from (c + 1) l'
  end.

(** [extends s s' l]: going from [s] to [s'] appended exactly the rows [l]
    (with their labels), advanced the counter accordingly and left the two
    draw streams as they were. *)
Record extends (s s' : state) (l : list entry) : Prop := mk_extends {
  ext_txns : transactions s' = transactions s ++ map snd l;
  ext_origins : origins s' = origins s ++ map fst l;
  ext_counter : txn_counter s' = txn_counter s + Z.of_nat (List.length l);
  ext_ids : ids_from (txn_counter s) l;
  ext_py : py_draws s' = py_draws s;
  ext_np : np_draws s' = np_draws s
}.

Lemma extends_refl s : extends s s [].
Proof.
  constructor; simpl; rewrite ?app_nil_r; auto; lia.
Qed.

Lemma ids_from_app c l1 l2 :
  ids_from c l1 -> ids_from (c + Z.of_nat (List.length l1)) l2 ->
  ids_from c (l1 ++ l2).
Proof.
  revert c. induction l1 as [|e l1 IH]; simpl; intros c H1 H2.
  - now replace (c + 0) with c in H2 by lia.
  - destruct H1 as [He H1]. split; [exact He|].
    apply IH; [exact H1|].
    now replace (c + 1 + Z.of_nat (List.length l1))
      with (c + Z.pos (Pos.of_succ_nat (List.length l1))) by lia.
Qed.

Lemma extends_trans s1 s2 s3 l1 l2 :
  extends s1 s2 l1 -> extends s2 s3 l2 -> extends s1 s3 (l1 ++ l2).
Proof.
  intros [T1 O1 C1 I1 P1 N1] [T2 O2 C2 I2 P2 N2].
  constructor.
  - rewrite T2, T1, map_app. now rewrite app_assoc.
  - rewrite O2, O1, map_app. now rewrite app_assoc.
  - rewrite C2, C1, length_app. lia.
  - apply ids_from_app; [exact I1|]. now rewrite <- C1.
  - congruence.
  - congruence.
Qed.

(** Steps that emit nothing and leave [amount] alone. *)
Definition silent (s s' : state) : Prop :=
  extends s s' [] /\ var_amount s' = var_amount s.

Lemma silent_refl s : silent s s.
Proof. split; [apply extends_refl | reflexivity]. Qed.

Lemma silent_trans s1 s2 s3 : silent s1 s2 -> silent s2 s3 -> silent s1 s3.
Proof.
  intros [E1 A1] [E2 A2]. split.
  - exact (extends_trans _ _ _ [] [] E1 E2).
  - congruence.
Qed.

Lemma silent_extends s1 s2 s3 l :
  silent s1 s2 -> extends s2 s3 l -> extends s1 s3 l.
Proof.
  intros [E1 _] E2. exact (extends_trans _ _ _ [] l E1 E2).
Qed.

Lemma extends_silent s1 s2 s3 l :
  extends s1 s2 l -> silent s2 s3 -> extends s1 s3 l.
Proof.
  intros E1 [E2 _]. rewrite <- (app_nil_r l).
  exact (extends_trans _ _ _ l [] E1 E2).
Qed.

(** *** The library functions *)

(** The raw draws a state can deliver, and the values the library
    functions make of a raw draw. *)
Definition raws_of (py : N -> Z) (z : Z) : Prop := exists p, z = py p.
Definition raws (s : state) (z : Z) : Prop := raws_of (py_draws s) z.

Definition unit_draw (z : Z) : Q := Qmake (z mod 2 ^ 53) (2 ^ 53).

Lemma raws_silent s s' z : silent s s' -> raws s' z -> raws s z.
Proof.
  intros [E _] H. unfold raws in *. now rewrite (ext_py _ _ _ E) in H.
Qed.

Lemma raws_extends s s' l z : extends s s' l -> raws s' z -> raws s z.
Proof.
  intros E H. unfold raws in *. now rewrite (ext_py _ _ _ E) in H.
Qed.

Section RandomSpecs.
Import Random.

Lemma next_raw_silent s :
  wp next_raw (fun z s' => raws s z /\ silent s s') s.
Proof.
  unfold wp, next_raw. split; [now exists (py_pos s)|].
  split; [|reflexivity].
  constructor; simpl; rewrite ?app_nil_r; auto; lia.
Qed.

Lemma wp_randbelow n Q s :
  0 < n ->
  (forall z v s', raws s z -> v = z mod n -> 0 <= v < n ->
                  silent s s' -> Q v s') ->
  wp (randbelow n) Q s.
Proof.
  intros Hn HQ. unfold randbelow.
  destruct (Z.leb_spec n 0); [lia|].
  apply wp_bind. eapply wp_mono; [apply next_raw_silent|].
  intros r s' [Hr Hs]. apply wp_ret.
  apply (HQ r); [exact Hr | reflexivity | | exact Hs].
  apply Z.mod_pos_bound. lia.
Qed.

Lemma wp_randint a b Q s :
  a <= b ->
  (forall z v s', raws s z -> v = a + z mod (b - a + 1) -> a <= v <= b ->
                  silent s s' -> Q v s') ->
  wp (randint a b) Q s.
Proof.
  intros Hab HQ. unfold randint. apply wp_bind.
  apply wp_randbelow; [lia|]. intros z v s' Hz Ev Hv Hs.
  apply wp_ret. apply (HQ z); [exact Hz | now rewrite Ev | lia | exact Hs].
Qed.

Lemma wp_random Q s :
  (forall z r s', raws s z -> r = unit_draw z -> (0 <= r)%Q -> (r < 1)%Q ->
                  silent s s' -> Q r s') ->
  wp random Q s.
Proof.
  intros HQ. unfold random. apply wp_bind.
  eapply wp_mono; [apply next_raw_silent|].
  intros r s' [Hr Hs]. apply wp_ret.
  assert (Hm : 0 <= r mod 2 ^ 53 < 2 ^ 53)
    by (apply Z.mod_pos_bound; reflexivity).
  apply (HQ r); [exact Hr | reflexivity | | | exact Hs];
    unfold Qle, Qlt; simpl; lia.
Qed.

Lemma wp_uniform a b Q s :
  (a <= b)%Q ->
  (forall z f s', raws s z -> f = (a + (b - a) * unit_draw z)%Q ->
                  (a <= f)%Q -> (f <= b)%Q -> silent s s' -> Q f s') ->
  wp (uniform a b) Q s.
Proof.
  intros Hab HQ. unfold uniform. apply wp_bind.
  apply wp_random. intros z r s' Hz Er H0 H1 Hs. apply wp_ret.
  apply (HQ z); [exact Hz | now rewrite Er | | | exact Hs].
  - rewrite <- (Qplus_0_r a) at 1. apply Qplus_le_r.
    apply Qmult_le_0_compat; [|exact H0].
    now apply -> Qle_minus_iff in Hab.
  - assert (Hd : (0 <= b - a)%Q) by now apply -> Qle_minus_iff in Hab.
    assert (Hr : (r * (b - a) <= 1 * (b - a))%Q)
      by (apply Qmult_le_compat_r; [apply Qlt_le_weak, H1 | exact Hd]).
    apply Qle_trans with (a + 1 * (b - a))%Q.
    + apply Qplus_le_r. now rewrite (Qmult_comm (b - a) r).
    + apply Qle_lteq. right. ring.
Qed.

Lemma wp_choice {A} (l : list A) Q s :
  l <> [] ->
  (forall z x s',
      raws s z ->
      nth_error l (Z.to_nat (z mod Z.of_nat (List.length l))) = Some x ->
      In x l -> silent s s' -> Q x s') ->
  wp (choice l) Q s.
Proof.
  intros Hl HQ. unfold choice. destruct l as [|x l']; [congruence|].
  apply wp_bind. apply wp_randbelow; [simpl; lia|].
  intros z v s' Hz Ev Hv Hs. apply wp_ret.
  assert (Hlt : (Z.to_nat v < List.length (x :: l'))%nat) by lia.
  apply (HQ z); [exact Hz | | | exact Hs].
  - rewrite <- Ev. now apply nth_error_nth'.
  - now apply nth_In.
Qed.

Lemma wp_lognormal mean sigma Q s :
  (forall x s', silent s s' -> Q x s') ->
  wp (lognormal mean sigma) Q s.
Proof.
  intros HQ. unfold wp, lognormal. apply HQ. split; [|reflexivity].
  constructor; simpl; rewrite ?app_nil_r; auto; lia.
Qed.

End RandomSpecs.

Section SampleSpec.
Import Random.
Context {A : Type}.

Lemma set_nth_length (i : nat) (x : A) l :
  List.length (set_nth i x l) = List.length l.
Proof.
  revert i. induction l as [|y l IH]; intros [|i]; simpl; auto.
Qed.

Lemma set_nth_In (i : nat) (x y : A) l :
  In y (set_nth i x l) -> y = x \/ In y l.
Proof.
  revert i. induction l as [|z l IH]; intros [|i]; simpl; try tauto.
  - intros [H|H]; auto.
  - intros [H|H]; auto. destruct (IH _ H); auto.
Qed.

Lemma removelast_In (y : A) l : In y (removelast l) -> In y l.
Proof.
  induction l as [|z l IH]; simpl; [tauto|].
  destruct l as [|z' l']; [simpl; tauto|].
  intros [H|H]; [auto | right; apply IH, H].
Qed.

Lemma removelast_length (l : list A) :
  List.length (removelast l) = pred (List.length l).
Proof.
  induction l as [|z l IH]; simpl; [reflexivity|].
  destruct l as [|z' l']; [reflexivity|].
  simpl in *. now rewrite IH.
Qed.

Lemma last_In (x : A) l : l <> [] -> In (last l x) l.
Proof.
  induction l as [|z l IH]; [congruence|]. intros _.
  destruct l as [|z' l']; [simpl; auto|].
  right. apply IH. congruence.
Qed.

Lemma wp_sample_loop (k : nat) (pool : list A) Q s :
  (k <= List.length pool)%nat ->
  (forall l s', List.length l = k -> incl l pool -> silent s s' -> Q l s') ->
  wp (sample_loop k pool) Q s.
Proof.
  revert pool Q s. induction k as [|k IH]; intros pool Q s Hk HQ.
  - apply wp_ret. apply HQ; [reflexivity | intros ? [] | apply silent_refl].
  - destruct pool as [|x pool']; [simpl in Hk; lia|].
    cbn [sample_loop]. set (pool := x :: pool') in *.
    apply wp_bind. apply wp_randbelow; [subst pool; simpl; lia|].
    intros z j s1 _ _ Hj Hs1. apply wp_bind.
    apply IH.
    + rewrite removelast_length, set_nth_length. lia.
    + intros l s2 Hl Hincl Hs2. apply wp_ret. apply HQ.
      * simpl. now rewrite Hl.
      * intros y [<-|Hy].
        -- apply nth_In. lia.
        -- apply Hincl, removelast_In, set_nth_In in Hy.
           destruct Hy as [->|Hy]; [|exact Hy].
           apply last_In. subst pool. congruence.
      * eapply silent_trans; eassumption.
Qed.

Lemma wp_sample (population : list A) (k : Z) Q s :
  0 <= k <= Z.of_nat (List.length population) ->
  (forall l s', Z.of_nat (List.length l) = k -> incl l population ->
                silent s s' -> Q l s') ->
  wp (sample population k) Q s.
Proof.
  intros Hk HQ. unfold sample.
  destruct (Z.ltb_spec k 0); [lia|].
  destruct (Z.ltb_spec (Z.of_nat (List.length population)) k); [lia|].
  simpl. apply wp_sample_loop; [lia|].
  intros l s' Hl Hincl Hs. apply HQ; auto. lia.
Qed.

End SampleSpec.

(* ===================================================================== *)
(** ** Timestamps of the window *)
(* ===================================================================== *)

Lemma range_forallb (P : Z -> bool) (a b : Z) :
  forallb P (Py.range a b) = true ->
  forall v, a <= v < b -> P v = true.
Proof.
  intros H v Hv. rewrite forallb_forall in H. apply H.
  unfold Py.range. apply in_map_iff. exists (Z.to_nat (v - a)).
  split; [lia|]. apply in_seq. lia.
Qed.

Lemma range_In (a b v : Z) : In v (Py.range a b) -> a <= v < b.
Proof.
  unfold Py.range. rewrite in_map_iff. intros [k [<- Hk]].
  apply in_seq in Hk. lia.
Qed.

Definition digit_char (k : Z) : ascii := ascii_of_nat (48 + Z.to_nat k).

(** The two-digit rendering of [0 <= v < 100]. *)
Definition two (v : Z) : string :=
  String (digit_char (v / 10)) (String (digit_char (v mod 10)) EmptyString).

Definition digit_val (c : ascii) : option Z :=
  let n := Z.of_nat (nat_of_ascii c) in
  if (48 <=? n) && (n <=? 57) then Some (n - 48) else None.

Definition parse2 (a b : ascii) : option Z :=
  match digit_val a, digit_val b with
  | Some x, Some y => Some (10 * x + y)
  | _, _ => None
  end.

(** Parsing of the format written by [strftime]: the inverse used to read
    the [timestamp] column back. *)
Definition strptime (s : string) : option datetime :=
  match s with
  | String y1 (String y2 (String y3 (String y4 (String c1
    (String m1 (String m2 (String c2
    (String d1 (String d2 (String c3
    (String h1 (String h2 (String c4
    (String n1 (String n2 (String c5
    (String s1 (String s2 EmptyString)))))))))))))))))) =>
      if (Ascii.eqb c1 "-" && Ascii.eqb c2 "-" && Ascii.eqb c3 " "
          && Ascii.eqb c4 ":" && Ascii.eqb c5 ":")%bool
      then
        match parse2 y1 y2, parse2 y3 y4, parse2 m1 m2, parse2 d1 d2,
              parse2 h1 h2, parse2 n1 n2, parse2 s1 s2 with
        | Some yh, Some yl, Some m, Some d, Some h, Some n, Some sec =>
            Some (mk_datetime (100 * yh + yl) m d h n sec)
        | _, _, _, _, _, _, _ => None
        end
      else None
  | _ => None
  end.

Lemma zfill2_two v : 0 <= v < 100 -> Py.zfill 2 (Py.str v) = two v.
Proof.
  intros Hv. apply String.eqb_eq.
  revert v Hv. apply range_forallb. vm_compute. reflexivity.
Qed.

Lemma parse2_two v :
  0 <= v < 100 ->
  parse2 (digit_char (v / 10)) (digit_char (v mod 10)) = Some v.
Proof.
  intros Hv.
  assert (H : (match parse2 (digit_char (v / 10)) (digit_char (v mod 10))
               with Some w => w =? v | None => false end) = true).
  { revert v Hv. apply range_forallb. vm_compute. reflexivity. }
  destruct (parse2 _ _) as [w|]; [|discriminate].
  apply Z.eqb_eq in H. now subst.
Qed.

(** Rendering of a timestamp whose fields are in their calendar ranges,
    in the year of the window. *)
Lemma strftime_2024 m d h n sec :
  0 <= m < 100 -> 0 <= d < 100 -> 0 <= h < 100 -> 0 <= n < 100 ->
  0 <= sec < 100 ->
  strftime (mk_datetime 2024 m d h n sec)
  = ("2024-" ++ two m ++ "-" ++ two d ++ " " ++ two h ++ ":" ++ two n
       ++ ":" ++ two sec)%string.
Proof.
  intros Hm Hd Hh Hn Hs. unfold strftime. cbn [year month day hour minute second].
  rewrite !zfill2_two by assumption. reflexivity.
Qed.

Lemma strptime_strftime_2024 m d h n sec :
  0 <= m < 100 -> 0 <= d < 100 -> 0 <= h < 100 -> 0 <= n < 100 ->
  0 <= sec < 100 ->
  strptime (strftime (mk_datetime 2024 m d h n sec))
  = Some (mk_datetime 2024 m d h n sec).
Proof.
  intros Hm Hd Hh Hn Hs. rewrite strftime_2024 by assumption.
  unfold two. cbn [append strptime]. cbn [Ascii.eqb andb Bool.eqb].
  rewrite !parse2_two by assumption.
  reflexivity.
Qed.

(** The calendar day reached [d] days after the start of the window. *)
Definition window_day_ok (d : Z) : bool :=
  let '(y, m, dd) := ord2ymd (toordinal START_DATE + d) in
  (y =? 2024) && (1 <=? m) && (m <=? 6) && (1 <=? dd) && (dd <=? 31)
  && (ymd2ord y m dd =? toordinal START_DATE + d)
  && (dd <=? days_in_month 2024 m).

Lemma window_days d :
  0 <= d <= TOTAL_DAYS ->
  exists m dd,
    ord2ymd (toordinal START_DATE + d) = (2024, m, dd)
    /\ 1 <= m <= 6 /\ 1 <= dd <= 31 /\ dd <= days_in_month 2024 m
    /\ ymd2ord 2024 m dd = toordinal START_DATE + d.
Proof.
  intros Hd.
  assert (H : window_day_ok d = true).
  { revert d Hd.
    assert (E : forall d, 0 <= d < 182 -> window_day_ok d = true)
      by (apply range_forallb; vm_compute; reflexivity).
    intros d Hd. apply E. change TOTAL_DAYS with 181 in Hd. lia. }
  unfold window_day_ok in H.
  destruct (ord2ymd (toordinal START_DATE + d)) as [[y m] dd].
  repeat (apply andb_prop in H; destruct H as [H ?]).
  apply Z.eqb_eq in H. subst y.
  exists m, dd.
  repeat split; lia.
Qed.

Lemma toordinal_START : toordinal START_DATE = 738886.
Proof. reflexivity. Qed.

Lemma TOTAL_DAYS_eq : TOTAL_DAYS = 181.
Proof. reflexivity. Qed.

(** What [rand_ts] guarantees about the timestamp it returns: [night]
    tells whether the night band was allowed, [lo] and [hi] bound the day
    offset within the window. *)
Record ts_ok (night : bool) (lo hi : Z) (ts : datetime) : Prop := mk_ts_ok {
  ts_year : year ts = 2024;
  ts_month : 1 <= month ts <= 6;
  ts_day : 1 <= day ts <= 31;
  ts_valid : day ts <= days_in_month 2024 (month ts);
  ts_ord : toordinal START_DATE + lo <= toordinal ts
           <= toordinal START_DATE + hi;
  ts_hour : 8 <= hour ts <= 22
            \/ (night = true /\ (hour ts = 23 \/ 0 <= hour ts <= 4));
  ts_minute : 0 <= minute ts <= 59;
  ts_second : 0 <= second ts <= 59
}.

Lemma ts_ok_weaken night lo hi lo' hi' ts :
  lo' <= lo -> hi <= hi' -> ts_ok night lo hi ts -> ts_ok night lo' hi' ts.
Proof.
  intros Hlo Hhi [Y Mo D J O H Mi S]. constructor; auto. lia.
Qed.

Lemma add_start d h mi sec :
  0 <= d <= TOTAL_DAYS -> 0 <= h <= 23 -> 0 <= mi <= 59 -> 0 <= sec <= 59 ->
  exists m dd,
    Datetime.add START_DATE (timedelta_of d h mi sec)
    = Some (mk_datetime 2024 m dd h mi sec)
    /\ 1 <= m <= 6 /\ 1 <= dd <= 31 /\ dd <= days_in_month 2024 m
    /\ ymd2ord 2024 m dd = toordinal START_DATE + d.
Proof.
  intros Hd Hh Hmi Hs.
  destruct (window_days d Hd) as (m & dd & Hord & Hm & Hdd & H6 & Hy).
  exists m, dd. split; [|auto].
  unfold Datetime.add, timedelta_of.
  cbn [td_days td_seconds hour minute second START_DATE].
  set (r := h * 3600 + mi * 60 + sec).
  assert (Hr : 0 <= r < 86400) by (unfold r; lia).
  replace (d * 86400 + h * 3600 + mi * 60 + sec) with (r + d * 86400)
    by (unfold r; lia).
  rewrite Z.div_add, Z.mod_add by lia.
  rewrite (Z.div_small r), (Z.mod_small r) by lia.
  replace (0 * 3600 + 0 * 60 + 0 + r) with r by lia.
  rewrite (Z.div_small r), (Z.mod_small r) by lia.
  replace (toordinal START_DATE + (0 + d) + 0)
    with (toordinal START_DATE + d) by lia.
  rewrite Hord. rewrite toordinal_START. rewrite TOTAL_DAYS_eq in Hd.
  destruct (Z.ltb_spec 0 (738886 + d)); [|lia].
  destruct (Z.leb_spec (738886 + d) 3652059); [|lia].
  cbn [andb]. f_equal. f_equal.
  - unfold r. replace (h * 3600 + mi * 60 + sec)
      with (mi * 60 + sec + h * 3600) by lia.
    rewrite Z.div_add by lia. rewrite Z.div_small; lia.
  - unfold r. replace (h * 3600 + mi * 60 + sec)
      with (mi * 60 + sec + h * 3600) by lia.
    rewrite Z.mod_add by lia. rewrite (Z.mod_small (mi * 60 + sec)) by lia.
    replace (mi * 60 + sec) with (sec + mi * 60) by lia.
    rewrite Z.div_add by lia. rewrite Z.div_small; lia.
  - unfold r. replace (h * 3600 + mi * 60 + sec)
      with (sec + (h * 60 + mi) * 60) by lia.
    rewrite Z.mod_add by lia. apply Z.mod_small. lia.
Qed.

(** A timestamp drawn without night bias, as a function of the four raw
    draws used for it. *)
Definition daytime_ts (py : N -> Z) (lo hi : Z) (ts : datetime) : Prop :=
  exists z1 z2 z3 z4,
    raws_of py z1 /\ raws_of py z2 /\ raws_of py z3 /\ raws_of py z4
    /\ Datetime.add START_DATE
         (timedelta_of (lo + z1 mod (hi - lo + 1)) (8 + z2 mod (22 - 8 + 1))
                       (0 + z3 mod (59 - 0 + 1)) (0 + z4 mod (59 - 0 + 1)))
       = Some ts.

Lemma wp_rand_ts lo (end_day : option Z) night Q s :
  let hi := match end_day with None => TOTAL_DAYS | Some e => e end in
  0 <= lo <= hi -> hi <= TOTAL_DAYS ->
  (forall ts s',
      ts_ok night lo hi ts ->
      (night = false -> daytime_ts (py_draws s) lo hi ts) ->
      silent s s' -> Q ts s') ->
  wp (rand_ts lo end_day night) Q s.
Proof.
  intros hi Hlo Hhi HQ. unfold rand_ts. fold hi.
  apply wp_bind. apply wp_randint; [lia|]. intros z1 d s1 Z1 Ed Hd S1.
  apply wp_bind.
  apply wp_mono with
    (Q := fun h s2 =>
            (8 <= h <= 22 \/ (night = true /\ (h = 23 \/ 0 <= h <= 4)))
            /\ (night = false ->
                exists z2, raws s z2 /\ h = 8 + z2 mod (22 - 8 + 1))
            /\ silent s1 s2).
  { destruct night.
    - apply wp_bind. apply wp_random. intros z r s2 _ _ _ _ S2.
      destruct (Qltb r (70 # 100)).
      + apply wp_choice; [discriminate|]. intros z' h s3 _ _ Hin S3.
        split; [|split; [discriminate|]].
        * right. split; [reflexivity|].
          apply in_app_or in Hin. destruct Hin as [Hin|Hin];
            apply range_In in Hin; lia.
        * eapply silent_trans; eassumption.
      + apply wp_randint; [lia|]. intros z' h s3 _ _ Hh S3.
        split; [now left|]. split; [discriminate|].
        eapply silent_trans; eassumption.
    - apply wp_randint; [lia|]. intros z2 h s2 Z2 Eh Hh S2.
      split; [now left|]. split; [|exact S2].
      intros _. exists z2. split; [|exact Eh].
      exact (raws_silent _ _ _ S1 Z2). }
  intros h s2 (Hh & Xh & S2).
  apply wp_bind. apply wp_randint; [lia|]. intros z3 mi s3 Z3 Emi Hmi S3.
  apply wp_bind. apply wp_randint; [lia|]. intros z4 sec s4 Z4 Esec Hsec S4.
  assert (Hh' : 0 <= h <= 23) by lia.
  destruct (add_start d h mi sec) as (m & dd & Eadd & Hm & Hdd & H6 & Hy);
    try lia.
  rewrite Eadd. apply wp_ret.
  assert (S02 : silent s s2) by eauto using silent_trans.
  assert (S03 : silent s s3) by eauto using silent_trans.
  apply HQ.
  - assert (Ho : toordinal (mk_datetime 2024 m dd h mi sec)
                 = toordinal START_DATE + d) by exact Hy.
    constructor; cbn [year month day hour minute second]; auto.
    rewrite Ho. lia.
  - intros Hn. destruct (Xh Hn) as (z2 & Z2 & Eh).
    exists z1, z2, z3, z4.
    split; [exact Z1|]. split; [exact Z2|].
    split; [exact (raws_silent _ _ _ S02 Z3)|].
    split; [exact (raws_silent _ _ _ S03 Z4)|].
    rewrite <- Ed, <- Eh, <- Emi, <- Esec. exact Eadd.
  - eauto using silent_trans.
Qed.

(* ===================================================================== *)
(** ** Amount rounding *)
(* ===================================================================== *)

(** The smurfing branch of [round_amount]. *)
Definition smurf (x : Q) : Q := inject_Z (Py.round (x / 1000) * 1000).

(** An amount with at most two decimal places: rounding it to two places
    leaves it unchanged. *)
Definition two_places (a : Q) : Prop := (Py.round2 a == a)%Q.

Lemma round_integral (x : Q) (k : Z) : (x == inject_Z k)%Q -> Py.round x = k.
Proof.
  intros E. unfold Py.round.
  assert (F : Qfloor x = k) by (rewrite E; apply Qfloor_Z).
  rewrite F.
  assert (L : ((x - inject_Z k) ?= 1 # 2)%Q = Lt).
  { apply Qlt_alt. rewrite E. setoid_replace (inject_Z k - inject_Z k)%Q
      with 0%Q by ring. reflexivity. }
  now rewrite L.
Qed.

Lemma two_places_round2 x : two_places (Py.round2 x).
Proof.
  unfold two_places, Py.round2 at 1.
  rewrite (round_integral _ (Py.round (x * 100))); [reflexivity|].
  unfold Py.round2. field.
Qed.

Lemma two_places_smurf x : two_places (smurf x).
Proof.
  unfold two_places, Py.round2, smurf.
  rewrite (round_integral _ (Py.round (x / 1000) * 1000 * 100)).
  - rewrite inject_Z_mult. field.
  - now rewrite (inject_Z_mult _ 100).
Qed.

(** [round_amount x] as a function of the raw draw it consumes. *)
Definition rounded (z : Z) (x : Q) : Q :=
  if Qltb (unit_draw z) (25 # 100) then smurf x else Py.round2 x.

Lemma rounded_cases z x : rounded z x = smurf x \/ rounded z x = Py.round2 x.
Proof. unfold rounded. destruct (Qltb _ _); auto. Qed.

Lemma two_places_rounded z x : two_places (rounded z x).
Proof.
  destruct (rounded_cases z x) as [-> | ->];
    [apply two_places_smurf | apply two_places_round2].
Qed.

Lemma wp_round_amount x Q s :
  (forall z a s', raws s z -> a = rounded z x -> silent s s' -> Q a s') ->
  wp (round_amount x) Q s.
Proof.
  intros HQ. unfold round_amount. apply wp_bind. apply wp_random.
  intros z r s' Hz Er _ _ Hs.
  apply wp_mono with (Q := fun a s'' => a = rounded z x /\ s'' = s').
  - unfold rounded. rewrite <- Er. destruct (Qltb r (25 # 100));
      apply wp_ret; auto.
  - intros a s'' [-> ->]. now apply (HQ z).
Qed.

Lemma wp_assign_amount a Q s :
  (forall s', extends s s' [] -> var_amount s' = Some a -> Q a s') ->
  wp (assign_amount a) Q s.
Proof.
  intros HQ. unfold wp, assign_amount. apply HQ; [|reflexivity].
  constructor; simpl; rewrite ?app_nil_r; auto; lia.
Qed.

Lemma wp_read_amount a Q s :
  var_amount s = Some a -> Q a s -> wp read_amount Q s.
Proof.
  intros Ha HQ. unfold wp, read_amount. now rewrite Ha.
Qed.

Lemma wp_add_txn site acc ty amt ch cp ts im mt Q s :
  (forall s',
      extends s s' [(site, mk_txn (txn_id_of (txn_counter s)) (strftime ts)
                                  acc ty amt ch cp im mt)] ->
      var_amount s' = var_amount s -> Q tt s') ->
  wp (add_txn site acc ty amt ch cp ts im mt) Q s.
Proof.
  intros HQ. unfold wp, add_txn. apply HQ; [|reflexivity].
  constructor; simpl; auto; lia.
Qed.

(* ===================================================================== *)
(** ** The population *)
(* ===================================================================== *)

Lemma firstn_incl {A} n (l : list A) : incl (firstn n l) l.
Proof.
  intros x Hx. rewrite <- (firstn_skipn n l). apply in_or_app. now left.
Qed.

Lemma skipn_incl {A} n (l : list A) : incl (skipn n l) l.
Proof.
  intros x Hx. rewrite <- (firstn_skipn n l). apply in_or_app. now right.
Qed.

Lemma slice_incl {A} a b (l : list A) : incl (Py.slice a b l) l.
Proof.
  intros x Hx. unfold Py.slice in Hx.
  apply firstn_incl in Hx. revert Hx. apply skipn_incl.
Qed.

Lemma COMPLICIT_is_mule : incl COMPLICIT_MULES MULE_IDS.
Proof. apply slice_incl. Qed.

Lemma RECRUITED_is_mule : incl RECRUITED_MULES MULE_IDS.
Proof. apply slice_incl. Qed.

Lemma EXPLOITED_is_mule : incl EXPLOITED_MULES MULE_IDS.
Proof. apply slice_incl. Qed.

Definition disjointb (l1 l2 : list string) : bool :=
  forallb (fun a => negb (existsb (String.eqb a) l2)) l1.

Lemma disjointb_spec l1 l2 x :
  disjointb l1 l2 = true -> In x l1 -> In x l2 -> False.
Proof.
  unfold disjointb. rewrite forallb_forall. intros H H1 H2.
  specialize (H x H1). apply negb_true_iff in H.
  assert (E : existsb (String.eqb x) l2 = true)
    by (apply existsb_exists; exists x; split; [exact H2 | apply String.eqb_refl]).
  congruence.
Qed.

Lemma normal_not_mule x : In x NORMAL_IDS -> ~ In x MULE_IDS.
Proof.
  intros H1 H2.
  apply (disjointb_spec NORMAL_IDS MULE_IDS x); [vm_compute; reflexivity | exact H1 | exact H2].
Qed.

Lemma normal_not_external x : In x NORMAL_IDS -> ~ In x EXTERNAL_IDS.
Proof.
  intros H1 H2.
  apply (disjointb_spec NORMAL_IDS EXTERNAL_IDS x); [vm_compute; reflexivity | exact H1 | exact H2].
Qed.

Lemma mule_not_external x : In x MULE_IDS -> ~ In x EXTERNAL_IDS.
Proof.
  intros H1 H2.
  apply (disjointb_spec MULE_IDS EXTERNAL_IDS x); [vm_compute; reflexivity | exact H1 | exact H2].
Qed.

Lemma complicit_not_recruited x :
  In x COMPLICIT_MULES -> ~ In x RECRUITED_MULES.
Proof.
  intros H1 H2.
  apply (disjointb_spec COMPLICIT_MULES RECRUITED_MULES x); [vm_compute; reflexivity | exact H1 | exact H2].
Qed.

Lemma complicit_not_exploited x :
  In x COMPLICIT_MULES -> ~ In x EXPLOITED_MULES.
Proof.
  intros H1 H2.
  apply (disjointb_spec COMPLICIT_MULES EXPLOITED_MULES x); [vm_compute; reflexivity | exact H1 | exact H2].
Qed.

Lemma NORMAL_IDS_length : List.length NORMAL_IDS = 300%nat.
Proof.
  unfold NORMAL_IDS, Py.range. now rewrite length_map, length_map, length_seq.
Qed.

Lemma NORMAL_IDS_nonempty : NORMAL_IDS <> [].
Proof.
  intros E. generalize NORMAL_IDS_length. rewrite E. discriminate.
Qed.

Lemma others_nonempty acc :
  filter (fun a => negb (String.eqb a acc)) ALL_ACCOUNT_IDS <> [].
Proof.
  assert (H1 : In "ACC00001" ALL_ACCOUNT_IDS) by (vm_compute; auto).
  assert (H2 : In "ACC00002" ALL_ACCOUNT_IDS) by (vm_compute; auto).
  destruct (String.eqb_spec "ACC00001" acc) as [E|N].
  - assert (In "ACC00002" (filter (fun a => negb (String.eqb a acc))
                                  ALL_ACCOUNT_IDS)).
    { apply filter_In. split; [exact H2|]. subst acc. reflexivity. }
    intros E'. rewrite E' in H. exact H.
  - assert (In "ACC00001" (filter (fun a => negb (String.eqb a acc))
                                  ALL_ACCOUNT_IDS)).
    { apply filter_In. split; [exact H1|].
      apply negb_true_iff. now apply String.eqb_neq. }
    intros E'. rewrite E' in H. exact H.
Qed.

Lemma nonempty_length {A} (l : list A) : (0 < List.length l)%nat -> l <> [].
Proof. destruct l; simpl; [lia | discriminate]. Qed.

(* ===================================================================== *)
(** ** What each synthesis rule emits *)
(* ===================================================================== *)

(** The rules that model mule behaviour; the others are the normal
    synthesizer and the "legitimate history" phases. *)
Definition mule_rule (o : rule) : bool :=
  match o with
  | NormalActivity | RecruitedPhase1 | ExploitedPhase1 => false
  | _ => true
  end.

Definition accounts_of (o : rule) : list string :=
  match o with
  | NormalActivity => NORMAL_IDS
  | ComplicitCredit | ComplicitDebit => COMPLICIT_MULES
  | RecruitedPhase1 | RecruitedCredit | RecruitedDebit => RECRUITED_MULES
  | ExploitedPhase1 | ExploitedPhase2 => EXPLOITED_MULES
  end.

Definition subtype_of (o : rule) : string :=
  match o with
  | NormalActivity => "none"
  | ComplicitCredit | ComplicitDebit => "complicit"
  | RecruitedPhase1 | RecruitedCredit | RecruitedDebit => "recruited"
  | ExploitedPhase1 | ExploitedPhase2 => "exploited"
  end.

Definition night_rule (o : rule) : bool := mule_rule o.

Definition day_range (o : rule) : Z * Z :=
  match o with
  | NormalActivity => (0, 181)
  | ComplicitCredit | ComplicitDebit => (121, 181)
  | RecruitedPhase1 => (0, 60)
  | RecruitedCredit | RecruitedDebit => (61, 181)
  | ExploitedPhase1 => (0, 90)
  | ExploitedPhase2 => (91, 123)
  end.

Definition directions_of (o : rule) : list string :=
  match o with
  | NormalActivity | RecruitedPhase1 | ExploitedPhase1 => ["credit"; "debit"]
  | ComplicitCredit | RecruitedCredit => ["credit"]
  | ComplicitDebit | RecruitedDebit | ExploitedPhase2 => ["debit"]
  end.

Definition channels_of (o : rule) : list string :=
  match o with
  | NormalActivity | RecruitedPhase1 => CHANNELS
  | ComplicitCredit => ["UPI"; "NEFT"; "IMPS"]
  | ComplicitDebit => ["NEFT"; "RTGS"; "Net Banking"]
  | RecruitedCredit => ["UPI"; "IMPS"]
  | RecruitedDebit => ["NEFT"; "ATM"; "Net Banking"]
  | ExploitedPhase1 => ["UPI"; "Mobile Banking"]
  | ExploitedPhase2 => ["RTGS"; "Net Banking"; "NEFT"]
  end.

Definition counterparties_of (o : rule) (acc : string) : list string :=
  match o with
  | NormalActivity =>
      filter (fun a => negb (String.eqb a acc)) ALL_ACCOUNT_IDS
  | ComplicitCredit | RecruitedPhase1 | ExploitedPhase1 => NORMAL_IDS
  | ComplicitDebit => Py.slice 0 20 EXTERNAL_IDS
  | RecruitedCredit => Py.slice 20 35 EXTERNAL_IDS
  | RecruitedDebit => MULE_IDS ++ Py.slice 0 15 EXTERNAL_IDS
  | ExploitedPhase2 => skipn 35 EXTERNAL_IDS
  end.

Record row_inv (o : rule) (r : txn) : Prop := mk_row_inv {
  row_account : In (account_id r) (accounts_of o);
  row_flag : is_mule r = if mule_rule o then 1 else 0;
  row_subtype : mule_type r = subtype_of o;
  row_ts : exists ts,
      timestamp r = strftime ts
      /\ ts_ok (night_rule o) (fst (day_range o)) (snd (day_range o)) ts;
  row_direction : In (txn_type r) (directions_of o);
  row_channel : In (channel r) (channels_of o);
  row_counterparty : In (counterparty r) (counterparties_of o (account_id r));
  row_amount : o <> RecruitedDebit -> two_places (amount r)
}.

Lemma extends_nil_l a b c l : extends a b [] -> extends b c l -> extends a c l.
Proof. intros E1 E2. exact (extends_trans _ _ _ [] l E1 E2). Qed.

Lemma extends_nil_r a b c l : extends a b l -> extends b c [] -> extends a c l.
Proof.
  intros E1 E2. rewrite <- (app_nil_r l). exact (extends_trans _ _ _ l [] E1 E2).
Qed.

Lemma Qle_const (a b : Q) : Qle_bool a b = true -> (a <= b)%Q.
Proof. apply Qle_bool_imp_le. Qed.

(** One step of symbolic execution: apply the specification of the
    operation at the head of the computation. *)
Ltac wp_prim :=
  lazymatch goal with
  | |- wp (rand_ts _ _ _) _ _ =>
      apply wp_rand_ts;
      [cbv zeta; rewrite ?TOTAL_DAYS_eq; lia
      |cbv zeta; rewrite ?TOTAL_DAYS_eq; lia
      |cbv zeta]
  | |- wp (Random.randint _ _) _ _ => apply wp_randint; [lia|]
  | |- wp (Random.uniform _ _) _ _ =>
      apply wp_uniform; [apply Qle_const; reflexivity|]
  | |- wp Random.random _ _ => apply wp_random
  | |- wp (Random.choice _) _ _ => apply wp_choice; [try discriminate|]
  | |- wp (Random.lognormal _ _) _ _ => apply wp_lognormal
  | |- wp (round_amount _) _ _ => apply wp_round_amount
  | |- wp (assign_amount _) _ _ => apply wp_assign_amount
  | |- wp (add_txn _ _ _ _ _ _ _ _ _) _ _ => apply wp_add_txn
  | |- wp (ret _) _ _ => apply wp_ret
  end.

Ltac wp_head :=
  lazymatch goal with
  | |- wp (bind _ _) _ _ => apply wp_bind; wp_prim
  | |- _ => wp_prim
  end.

Ltac wp_step := wp_head; intros.

(** Chains the per-step facts into one [extends] fact. *)
Ltac chain :=
  repeat match goal with
         | H : silent _ _ |- _ => destruct H as [? ?]
         end;
  eauto 30 using extends_nil_l.

Ltac amount_chain :=
  repeat match goal with
         | H : silent _ _ |- _ => destruct H as [? ?]
         end;
  congruence.

(** Brings every fact about raw draws back to the stream of one state. *)
Ltac to_stream :=
  unfold raws in *;
  repeat match goal with
         | H : silent _ _ |- _ => destruct H as [? ?]
         end;
  repeat match goal with
         | H : extends ?a ?b _ |- _ =>
             let E := fresh "E" in
             pose proof (ext_py _ _ _ H) as E; clear H;
             try rewrite E in *; clear E
         end.

Ltac row_fields :=
  cbn [account_id is_mule mule_type timestamp txn_type channel
       counterparty amount mule_rule accounts_of subtype_of
       night_rule day_range directions_of channels_of
       counterparties_of fst snd].

Ltac ts_field :=
  lazymatch goal with
  | |- exists _, _ /\ ts_ok _ _ _ _ =>
      eexists; split; [reflexivity|]; rewrite ?TOTAL_DAYS_eq in *;
      try assumption
  end.

Ltac amount_field :=
  lazymatch goal with
  | |- _ <> _ -> two_places _ =>
      first [ intros _;
              lazymatch goal with
              | |- two_places (Py.round2 _) => apply two_places_round2
              | H : ?a = rounded _ _ |- two_places ?a =>
                  rewrite H; apply two_places_rounded
              end
            | intros H; exfalso; apply H; reflexivity ]
  end.

Ltac row_inv_fields :=
  constructor; row_fields;
  first [ amount_field
        | ts_field
        | solve [auto]
        | solve [cbn [In]; tauto]
        | idtac ].

Lemma normal_txn_spec acc s :
  In acc NORMAL_IDS ->
  wp (normal_txn acc)
     (fun _ s' => exists r,
          extends s s' [(NormalActivity, r)]
          /\ row_inv NormalActivity r /\ account_id r = acc
          /\ exists ts, daytime_ts (py_draws s) 0 TOTAL_DAYS ts
                        /\ timestamp r = strftime ts) s.
Proof.
  intros Hacc. unfold normal_txn.
  wp_head. intros ts s1 Hts Hday S1.
  wp_step. wp_step; [apply others_nonempty|].
  wp_step. wp_step. wp_step. wp_step.
  eexists. split; [chain|]. split; [|split; [reflexivity|]].
  - row_inv_fields.
  - exists ts. split; [now apply Hday | reflexivity].
Qed.

(** The amount of a forwarded debit: [round_amount] applied to the held
    amount [a] times a factor between 0.92 and 0.99. *)
Definition skim_of (a x : Q) : Prop :=
  exists f, (92 # 100 <= f)%Q /\ (f <= 99 # 100)%Q
            /\ (x = smurf (a * f) \/ x = Py.round2 (a * f)).

(** The amount of an inbound credit of a complicit mule, from the two raw
    draws that decide it. *)
Definition credit_amount (z1 z2 : Z) : Q :=
  rounded z2 (20000 + (200000 - 20000) * unit_draw z1)%Q.

(** The amount of a forwarded debit, from the held amount and the two raw
    draws that decide it. *)
Definition debit_amount (a : Q) (z1 z2 : Z) : Q :=
  rounded z2 (a * ((92 # 100) + ((99 # 100) - (92 # 100)) * unit_draw z1))%Q.

Lemma complicit_credit_spec acc sender s :
  In acc COMPLICIT_MULES -> In sender NORMAL_IDS ->
  wp (complicit_credit acc sender (TOTAL_DAYS - 60))
     (fun _ s' => exists r,
          extends s s' [(ComplicitCredit, r)]
          /\ row_inv ComplicitCredit r /\ account_id r = acc
          /\ counterparty r = sender /\ txn_type r = "credit"
          /\ var_amount s' = Some (amount r)
          /\ exists z1 z2, raws s z1 /\ raws s z2
                           /\ amount r = credit_amount z1 z2) s.
Proof.
  intros Hacc Hsender. unfold complicit_credit.
  wp_step. wp_head. intros z1 u s2 Z1 Eu U1 U2 S2.
  wp_head. intros z2 a s3 Z2 Ea S3.
  do 3 wp_step.
  eexists. split; [chain|].
  split; [row_inv_fields|].
  split; [reflexivity|]. split; [reflexivity|]. split; [reflexivity|].
  split; [row_fields; amount_chain|].
  exists z1, z2. row_fields. unfold credit_amount. rewrite <- Eu.
  to_stream. auto.
Qed.

Lemma complicit_debit_spec acc receivers a s :
  In acc COMPLICIT_MULES ->
  receivers <> [] -> incl receivers (Py.slice 0 20 EXTERNAL_IDS) ->
  var_amount s = Some a ->
  wp (complicit_debit acc receivers (TOTAL_DAYS - 60))
     (fun _ s' => exists r,
          extends s s' [(ComplicitDebit, r)]
          /\ row_inv ComplicitDebit r /\ account_id r = acc
          /\ In (counterparty r) receivers /\ txn_type r = "debit"
          /\ skim_of a (amount r)
          /\ var_amount s' = Some a
          /\ exists z1 z2, raws s z1 /\ raws s z2
                           /\ amount r = debit_amount a z1 z2) s.
Proof.
  intros Hacc Hne Hincl Ha. unfold complicit_debit.
  wp_step. apply wp_bind. apply (wp_read_amount a); [amount_chain|].
  wp_head. intros z1 f s2 Z1 Ef F1 F2 S2.
  wp_head. intros z2 x s3 Z2 Ex S3.
  wp_step; [exact Hne|]. wp_step. wp_step.
  eexists. split; [chain|].
  split; [row_inv_fields|].
  split; [reflexivity|]. split; [assumption|]. split; [reflexivity|].
  split; [|split; [amount_chain|]].
  - exists f. row_fields. subst x. auto using rounded_cases.
  - exists z1, z2. row_fields. unfold debit_amount. rewrite <- Ef.
    to_stream. auto.
Qed.

Lemma recruited_phase1_spec acc s :
  In acc RECRUITED_MULES ->
  wp (recruited_phase1 acc)
     (fun _ s' => exists r,
          extends s s' [(RecruitedPhase1, r)]
          /\ row_inv RecruitedPhase1 r /\ account_id r = acc) s.
Proof.
  intros Hacc. unfold recruited_phase1.
  do 7 wp_step.
  eexists. split; [chain|]. split; [|reflexivity].
  row_inv_fields.
Qed.

(** The rule, the counterparty and the amount of a Phase-2 row of a
    recruited mule, from the raw draws that decide them. *)
Definition phase2_draws (py : N -> Z) (o : rule) (r : txn) : Prop :=
  exists z1 z2 z3,
    raws_of py z1 /\ raws_of py z2 /\ raws_of py z3
    /\ o = (if Qltb (unit_draw z3) (55 # 100)
            then RecruitedCredit else RecruitedDebit)
    /\ (o = RecruitedDebit ->
        exists z4 z5,
          raws_of py z4 /\ raws_of py z5
          /\ nth_error (MULE_IDS ++ Py.slice 0 15 EXTERNAL_IDS)
               (Z.to_nat
                  (z4 mod Z.of_nat
                            (List.length
                               (MULE_IDS ++ Py.slice 0 15 EXTERNAL_IDS))))
             = Some (counterparty r)
          /\ amount r
             = (rounded z2 (15000 + (150000 - 15000) * unit_draw z1)
                * ((88 # 100) + ((98 # 100) - (88 # 100)) * unit_draw z5))%Q).

Lemma recruited_phase2_spec acc handlers s :
  In acc RECRUITED_MULES ->
  handlers <> [] -> incl handlers (Py.slice 20 35 EXTERNAL_IDS) ->
  wp (recruited_phase2 acc handlers)
     (fun _ s' => exists o r,
          (o = RecruitedCredit \/ o = RecruitedDebit)
          /\ extends s s' [(o, r)]
          /\ row_inv o r /\ account_id r = acc
          /\ phase2_draws (py_draws s) o r) s.
Proof.
  intros Hacc Hne Hincl. unfold recruited_phase2.
  wp_step. wp_head. intros z1 u s2 Z1 Eu U1 U2 S2.
  wp_head. intros z2 a s3 Z2 Ea S3.
  wp_step. wp_head. intros z3 p s5 Z3 Ep P1 P2 S5.
  destruct (Qltb p (55 # 100)) eqn:Eb.
  - wp_step; [exact Hne|]. do 2 wp_step.
    exists RecruitedCredit. eexists. split; [now left|].
    split; [chain|]. split; [row_inv_fields|]. split; [reflexivity|].
    exists z1, z2, z3. rewrite <- Ep, Eb. to_stream.
    repeat (split; [assumption|]). split; [reflexivity | discriminate].
  - wp_head. intros z4 receiver s6 Z4 Enth Hin S6.
    wp_head. intros z5 f s7 Z5 Ef F1 F2 S7.
    do 2 wp_step.
    exists RecruitedDebit. eexists. split; [now right|].
    split; [chain|]. split; [row_inv_fields|]. split; [reflexivity|].
    exists z1, z2, z3. rewrite <- Ep, Eb. row_fields.
    rewrite <- Eu, <- Ea. to_stream.
    repeat (split; [assumption|]). split; [reflexivity|].
    intros _. exists z4, z5. rewrite <- Ef. auto.
Qed.

Lemma exploited_phase1_spec acc s :
  In acc EXPLOITED_MULES ->
  wp (exploited_phase1 acc)
     (fun _ s' => exists r,
          extends s s' [(ExploitedPhase1, r)]
          /\ row_inv ExploitedPhase1 r /\ account_id r = acc) s.
Proof.
  intros Hacc. unfold exploited_phase1.
  do 7 wp_step.
  eexists. split; [chain|]. split; [|reflexivity].
  row_inv_fields.
Qed.

Lemma exploited_phase2_spec acc dests takeover s :
  In acc EXPLOITED_MULES ->
  dests <> [] -> incl dests (skipn 35 EXTERNAL_IDS) ->
  91 <= takeover <= 120 ->
  wp (exploited_phase2 acc dests takeover)
     (fun _ s' => exists r,
          extends s s' [(ExploitedPhase2, r)]
          /\ row_inv ExploitedPhase2 r /\ account_id r = acc) s.
Proof.
  intros Hacc Hne Hincl Hto. unfold exploited_phase2.
  do 4 wp_step. wp_step; [exact Hne|]. do 2 wp_step.
  eexists. split; [chain|]. split; [|reflexivity].
  row_inv_fields.
  eapply ts_ok_weaken; [| |eassumption]; lia.
Qed.

(* ===================================================================== *)
(** ** Loops *)
(* ===================================================================== *)

Lemma wp_for_range (I : state -> Prop) (R : entry -> Prop) (body : M unit) :
  (forall s, I s ->
        wp body (fun _ s' => exists e, extends s s' [e] /\ R e /\ I s') s) ->
  forall n s, I s ->
    wp (for_range n body)
       (fun _ s' => exists l, extends s s' l /\ List.length l = n
                              /\ Forall R l /\ I s') s.
Proof.
  intros Hbody. induction n as [|n IH]; intros s Hs.
  - apply wp_ret. exists []. auto using extends_refl.
  - cbn [for_range]. apply wp_bind.
    eapply wp_mono; [apply Hbody, Hs|].
    intros _ s1 (e & E1 & Re & I1).
    eapply wp_mono; [apply IH, I1|].
    intros _ s2 (l & E2 & Hl & Rl & I2).
    exists (e :: l). split; [|split; [|split]].
    + exact (extends_trans _ _ _ [e] l E1 E2).
    + simpl. now rewrite Hl.
    + now constructor.
    + exact I2.
Qed.

Lemma wp_for_range_S n (body : M unit) Q s :
  wp (body ;;; for_range n body) Q s -> wp (for_range (S n) body) Q s.
Proof. exact (fun H => H). Qed.

Lemma wp_for_each {A} (I : state -> Prop) (R : A -> list entry -> Prop)
    (body : A -> M unit) (xs : list A) :
  (forall x s, In x xs -> I s ->
        wp (body x)
           (fun _ s' => exists es, extends s s' es /\ R x es /\ I s') s) ->
  forall s, I s ->
    wp (for_each xs body)
       (fun _ s' => exists ess, extends s s' (List.concat ess)
                                /\ Forall2 R xs ess /\ I s') s.
Proof.
  induction xs as [|x xs IH]; intros Hbody s Hs.
  - apply wp_ret. exists []. auto using extends_refl.
  - cbn [for_each]. apply wp_bind.
    eapply wp_mono; [apply Hbody; [now left | exact Hs]|].
    intros _ s1 (es & E1 & Res & I1).
    eapply wp_mono.
    { apply IH; [|exact I1]. intros y s' Hy. apply Hbody. now right. }
    intros _ s2 (ess & E2 & Ress & I2).
    exists (es :: ess). split; [|split].
    + exact (extends_trans _ _ _ es (List.concat ess) E1 E2).
    + now constructor.
    + exact I2.
Qed.

(* ===================================================================== *)
(** ** The synthesizers, account by account *)
(* ===================================================================== *)

(** A row of account [acc] emitted by one of the rules selected by [P],
    satisfying the invariant of its rule. *)
Definition produced (P : rule -> bool) (acc : string) (e : entry) : Prop :=
  P (fst e) = true /\ row_inv (fst e) (snd e) /\ account_id (snd e) = acc.

Definition is_normal (o : rule) : bool :=
  match o with NormalActivity => true | _ => false end.

Definition is_recruited (o : rule) : bool :=
  match o with
  | RecruitedPhase1 | RecruitedCredit | RecruitedDebit => true
  | _ => false
  end.

Definition is_exploited (o : rule) : bool :=
  match o with ExploitedPhase1 | ExploitedPhase2 => true | _ => false end.

(** A row of a normal account, with the draws that fix its timestamp. *)
Definition normal_row (py : N -> Z) (acc : string) (e : entry) : Prop :=
  produced is_normal acc e
  /\ exists ts, daytime_ts py 0 TOTAL_DAYS ts
                /\ timestamp (snd e) = strftime ts.

Definition normal_segment (py : N -> Z) (acc : string) (es : list entry)
  : Prop :=
  (200 <= List.length es)%nat /\ Forall (normal_row py acc) es.

Lemma normal_account_spec acc s :
  In acc NORMAL_IDS ->
  wp (normal_account acc)
     (fun _ s' => exists es, extends s s' es
                             /\ normal_segment (py_draws s) acc es
                             /\ py_draws s' = py_draws s) s.
Proof.
  intros Hacc. unfold normal_account. wp_step.
  eapply wp_mono.
  { apply (wp_for_range (fun s1 => py_draws s1 = py_draws s)
                        (normal_row (py_draws s) acc)).
    - intros s1 I1. eapply wp_mono; [apply normal_txn_spec, Hacc|].
      intros _ s2 (r & E & Hr & Ha & Hts). exists (NormalActivity, r).
      split; [exact E|]. split.
      + unfold normal_row, produced. cbn [fst snd is_normal].
        rewrite <- I1. auto.
      + rewrite (ext_py _ _ _ E). exact I1.
    - to_stream. reflexivity. }
  intros _ s2 (l & E & Hlen & Hl & I2). exists l.
  split; [chain|]. split; [|exact I2].
  split; [lia | exact Hl].
Qed.

(** A forwarded batch: the credits received from one sender, then as many
    debits, each a skim of the amount held in [amount] when the credits
    were done, which is the amount of the last credit. *)
Definition credit_ok (acc sender : string) (e : entry) : Prop :=
  fst e = ComplicitCredit /\ row_inv ComplicitCredit (snd e)
  /\ account_id (snd e) = acc /\ counterparty (snd e) = sender
  /\ txn_type (snd e) = "credit".

Definition debit_ok (acc : string) (a : Q) (e : entry) : Prop :=
  fst e = ComplicitDebit /\ row_inv ComplicitDebit (snd e)
  /\ account_id (snd e) = acc /\ txn_type (snd e) = "debit"
  /\ skim_of a (amount (snd e)).

Definition batch_ok (acc : string) (b : list entry * list entry) : Prop :=
  exists sender cs c,
    In sender NORMAL_IDS
    /\ fst b = cs ++ [c]
    /\ List.length (fst b) = List.length (snd b)
    /\ Forall (credit_ok acc sender) (fst b)
    /\ Forall (debit_ok acc (amount (snd c))) (snd b).

Definition flatten (bs : list (list entry * list entry)) : list entry :=
  List.concat (map (fun b => fst b ++ snd b) bs).

(** The amounts of a batch, from the raw draws of the stream [py]: every
    credit is a [credit_amount], every debit a [debit_amount] of the
    amount of the last credit. *)
Definition credit_drawn (py : N -> Z) (e : entry) : Prop :=
  exists z1 z2, raws_of py z1 /\ raws_of py z2
                /\ amount (snd e) = credit_amount z1 z2.

Definition debit_drawn (py : N -> Z) (a : Q) (e : entry) : Prop :=
  exists z1 z2, raws_of py z1 /\ raws_of py z2
                /\ amount (snd e) = debit_amount a z1 z2.

Definition batch_drawn (py : N -> Z) (b : list entry * list entry) : Prop :=
  Forall (credit_drawn py) (fst b)
  /\ exists cs c, fst b = cs ++ [c]
                  /\ Forall (debit_drawn py (amount (snd c))) (snd b).

(** After a credit, [amount] holds the amount of the row just emitted. *)
Definition holds_last (s : state) : Prop :=
  exists T r, transactions s = T ++ [r] /\ var_amount s = Some (amount r).

Lemma last_of_app {A} (T T0 l l' : list A) (r c : A) :
  T ++ [r] = T0 ++ l -> l = l' ++ [c] -> r = c.
Proof.
  intros E ->. rewrite app_assoc in E.
  apply app_inj_tail in E. tauto.
Qed.

Lemma complicit_sender_spec acc receivers sender s :
  In acc COMPLICIT_MULES ->
  receivers <> [] -> incl receivers (Py.slice 0 20 EXTERNAL_IDS) ->
  In sender NORMAL_IDS ->
  wp (complicit_sender acc receivers (TOTAL_DAYS - 60) sender)
     (fun _ s' => exists es,
          extends s s' es
          /\ (exists b, es = fst b ++ snd b /\ batch_ok acc b
                        /\ batch_drawn (py_draws s) b)
          /\ py_draws s' = py_draws s) s.
Proof.
  intros Hacc Hne Hincl Hsender. unfold complicit_sender.
  wp_head. intros z0 v s' _ _ Hv S0.
  assert (P0 : py_draws s' = py_draws s) by (to_stream; reflexivity).
  (* the credits: at least one iteration *)
  destruct (Z.to_nat v) as [|n] eqn:En; [lia|].
  apply wp_bind. apply wp_for_range_S. apply wp_bind.
  eapply wp_mono; [apply complicit_credit_spec; eassumption|].
  intros _ s2 (r1 & E1 & R1 & A1 & C1 & T1 & V1 & D1).
  assert (K2 : holds_last s2 /\ py_draws s2 = py_draws s).
  { split; [|now rewrite (ext_py _ _ _ E1)].
    exists (transactions s'), r1. split; [|exact V1].
    rewrite (ext_txns _ _ _ E1). reflexivity. }
  eapply wp_mono.
  { apply (wp_for_range
             (fun s3 => holds_last s3 /\ py_draws s3 = py_draws s)
             (fun e => credit_ok acc sender e
                       /\ credit_drawn (py_draws s) e)); [|exact K2].
    intros s3 [_ P3].
    eapply wp_mono; [apply complicit_credit_spec; eassumption|].
    intros _ s4 (r & E & Hr & Ha & Hc & Ht & Hv4 & Hd).
    exists (ComplicitCredit, r). split; [exact E|]. split; [split|split].
    - unfold credit_ok. cbn [fst snd]. auto.
    - unfold credit_drawn, raws in *. cbn [fst snd]. now rewrite <- P3.
    - exists (transactions s3), r. split; [|exact Hv4].
      rewrite (ext_txns _ _ _ E). reflexivity.
    - now rewrite (ext_py _ _ _ E). }
  intros _ s3 (l & E3 & Hl & Rl & (T & rl & HT & Hv3) & P3).
  (* the credits of the batch and the last of them *)
  set (cs := (ComplicitCredit, r1) :: l).
  assert (Ecs : extends s' s3 cs)
    by exact (extends_trans _ _ _ [(ComplicitCredit, r1)] l E1 E3).
  assert (Hcs : Forall (fun e => credit_ok acc sender e
                                 /\ credit_drawn (py_draws s) e) cs).
  { constructor; [|exact Rl]. split.
    - unfold credit_ok. cbn [fst snd]. auto.
    - unfold credit_drawn, raws in *. cbn [fst snd]. now rewrite <- P0. }
  destruct (exists_last (l := cs)) as (cs' & c & Ec); [discriminate|].
  assert (Erl : rl = snd c).
  { rewrite (ext_txns _ _ _ Ecs) in HT. symmetry in HT.
    apply (last_of_app _ _ _ (map snd cs') _ _ HT).
    rewrite Ec, map_app. reflexivity. }
  subst rl.
  (* the debits *)
  eapply wp_mono.
  { apply (wp_for_range
             (fun s4 => var_amount s4 = Some (amount (snd c))
                        /\ py_draws s4 = py_draws s)
             (fun e => debit_ok acc (amount (snd c)) e
                       /\ debit_drawn (py_draws s) (amount (snd c)) e));
      [|split; [exact Hv3 | exact P3]].
    intros s4 [V4 P4].
    eapply wp_mono; [apply complicit_debit_spec; eassumption|].
    intros _ s5 (r & E & Hr & Ha & Hc & Ht & Hk & Hv5 & Hd).
    exists (ComplicitDebit, r). split; [exact E|]. split; [split|split].
    - unfold debit_ok. cbn [fst snd]. auto.
    - unfold debit_drawn, raws in *. cbn [fst snd]. now rewrite <- P4.
    - exact Hv5.
    - now rewrite (ext_py _ _ _ E). }
  intros _ s4 (ds & E4 & Hds & Rds & _ & P4).
  exists (cs ++ ds). split; [|split; [|exact P4]].
  - destruct S0 as [S0 _].
    exact (extends_nil_l _ _ _ _ S0 (extends_trans _ _ _ cs ds Ecs E4)).
  - exists (cs, ds). split; [reflexivity|]. split.
    + exists sender, cs', c. cbn [fst snd].
      split; [assumption|]. split; [assumption|].
      split; [subst cs; simpl; lia|]. split.
      * eapply Forall_impl; [|exact Hcs]. tauto.
      * eapply Forall_impl; [|exact Rds]. tauto.
    + split; cbn [fst snd].
      * eapply Forall_impl; [|exact Hcs]. tauto.
      * exists cs', c. split; [exact Ec|].
        eapply Forall_impl; [|exact Rds]. tauto.
Qed.

Definition segment_ok (acc : string) (es : list entry) : Prop :=
  exists bs, es = flatten bs /\ Forall (batch_ok acc) bs.

(** The segment of a complicit mule with the amounts of its batches:
    there are at least 8 batches, one per victim sender. *)
Definition segment_drawn (py : N -> Z) (acc : string) (es : list entry)
  : Prop :=
  exists bs, es = flatten bs /\ Forall (batch_ok acc) bs
             /\ Forall (batch_drawn py) bs
             /\ (8 <= List.length bs)%nat.

Lemma segment_drawn_ok py acc es : segment_drawn py acc es -> segment_ok acc es.
Proof. intros (bs & E & H & _). exists bs. auto. Qed.

Lemma Forall2_batches py acc (senders : list string) ess :
  Forall2 (fun (_ : string) es =>
             exists b, es = fst b ++ snd b /\ batch_ok acc b
                       /\ batch_drawn py b) senders ess ->
  exists bs, List.concat ess = flatten bs /\ Forall (batch_ok acc) bs
             /\ Forall (batch_drawn py) bs
             /\ List.length bs = List.length senders.
Proof.
  induction 1 as [|x es xs ess (b & -> & Hb & Hd) _ (bs & E & Hbs & Hds & Hl)].
  - exists []. repeat split; constructor.
  - exists (b :: bs). split; [|split; [|split]].
    + unfold flatten in *. cbn [List.concat map]. now rewrite E.
    + now constructor.
    + now constructor.
    + simpl. now rewrite Hl.
Qed.

Lemma complicit_mule_spec acc s :
  In acc COMPLICIT_MULES ->
  wp (complicit_mule acc)
     (fun _ s' => exists es, extends s s' es
                             /\ segment_drawn (py_draws s) acc es
                             /\ py_draws s' = py_draws s) s.
Proof.
  intros Hacc. unfold complicit_mule. wp_step.
  apply wp_bind. apply wp_sample.
  { change (List.length (Py.slice 0 20 EXTERNAL_IDS)) with 20%nat. lia. }
  intros receivers s2 Hlen Hincl S2.
  wp_step.
  apply wp_bind. apply wp_sample; [rewrite NORMAL_IDS_length; lia|].
  intros senders s4 Hlen' Hincl' S4.
  assert (P4 : py_draws s4 = py_draws s) by (to_stream; reflexivity).
  eapply wp_mono.
  { apply (wp_for_each (fun s5 => py_draws s5 = py_draws s)
             (fun (_ : string) es =>
                exists b, es = fst b ++ snd b /\ batch_ok acc b
                          /\ batch_drawn (py_draws s) b));
      [|exact P4].
    intros sender s5 Hin P5.
    eapply wp_mono.
    { apply complicit_sender_spec; auto. apply nonempty_length. lia. }
    intros _ s6 (es & E & Hb & P6). exists es.
    rewrite <- P5. rewrite P6. auto. }
  intros _ s5 (ess & E & HF & P5).
  exists (List.concat ess). split; [chain|]. split; [|exact P5].
  destruct (Forall2_batches _ acc senders ess HF) as (bs & Ebs & B1 & B2 & B3).
  exists bs. split; [exact Ebs|]. split; [exact B1|]. split; [exact B2|]. lia.
Qed.

(** The segment of a recruited mule: its Phase-1 rows, then at least 80
    Phase-2 rows with the draws that decide each of them. *)
Definition recruited_segment (py : N -> Z) (acc : string) (es : list entry)
  : Prop :=
  Forall (produced is_recruited acc) es
  /\ exists l1 l2,
      es = l1 ++ l2 /\ (80 <= List.length l2)%nat
      /\ Forall (fun e => phase2_draws py (fst e) (snd e)
                          /\ account_id (snd e) = acc) l2.

Lemma recruited_mule_spec acc s :
  In acc RECRUITED_MULES ->
  wp (recruited_mule acc)
     (fun _ s' => exists es, extends s s' es
                             /\ recruited_segment (py_draws s) acc es
                             /\ py_draws s' = py_draws s) s.
Proof.
  intros Hacc. unfold recruited_mule. wp_step.
  apply wp_bind. apply wp_sample.
  { change (List.length (Py.slice 20 35 EXTERNAL_IDS)) with 15%nat. lia. }
  intros handlers s2 Hlen Hincl S2.
  wp_step. apply wp_bind.
  eapply wp_mono.
  { apply (wp_for_range (fun _ => True) (produced is_recruited acc));
      [|exact I].
    intros s4 _. eapply wp_mono; [apply recruited_phase1_spec, Hacc|].
    intros _ s5 (r & E & Hr & Ha). exists (RecruitedPhase1, r).
    unfold produced. cbn [fst snd is_recruited]. auto. }
  intros _ s4 (l1 & E1 & _ & Hl1 & _).
  wp_head. intros z5 n2 s5 _ _ Hn2 S5.
  assert (P6 : py_draws s5 = py_draws s) by (to_stream; reflexivity).
  eapply wp_mono.
  { apply (wp_for_range
             (fun s6 => py_draws s6 = py_draws s)
             (fun e => produced is_recruited acc e
                       /\ phase2_draws (py_draws s) (fst e) (snd e)));
      [|exact P6].
    intros s6 I6.
    eapply wp_mono; [apply (recruited_phase2_spec acc handlers); auto|].
    - apply nonempty_length. lia.
    - intros _ s7 (o & r & Ho & E & Hr & Ha & Hd). exists (o, r).
      split; [exact E|]. split; [split|].
      + unfold produced. cbn [fst snd].
        destruct Ho; subst o; cbn [is_recruited]; auto.
      + cbn [fst snd]. now rewrite <- I6.
      + now rewrite (ext_py _ _ _ E). }
  intros _ s6 (l2 & E2 & Hlen2 & Hl2 & P7).
  exists (l1 ++ l2). split; [|split; [|exact P7]].
  - assert (E01 : extends s s4 l1) by chain.
    assert (E12 : extends s4 s6 l2) by chain.
    exact (extends_trans _ _ _ _ _ E01 E12).
  - split.
    + apply Forall_app. split; [exact Hl1|].
      eapply Forall_impl; [|exact Hl2]. tauto.
    + exists l1, l2. split; [reflexivity|]. split; [lia|].
      eapply Forall_impl; [|exact Hl2].
      intros e [(_ & _ & Ha) Hd]. auto.
Qed.

Lemma exploited_mule_spec acc s :
  In acc EXPLOITED_MULES ->
  wp (exploited_mule acc)
     (fun _ s' => exists es, extends s s' es
                             /\ Forall (produced is_exploited acc) es
                             /\ True) s.
Proof.
  intros Hacc. unfold exploited_mule. wp_step.
  apply wp_bind. apply wp_sample.
  { change (List.length (skipn 35 EXTERNAL_IDS)) with 15%nat. lia. }
  intros dests s2 Hlen Hincl S2.
  wp_step. apply wp_bind.
  eapply wp_mono.
  { apply (wp_for_range (fun _ => True) (produced is_exploited acc));
      [|exact I].
    intros s4 _. eapply wp_mono; [apply exploited_phase1_spec, Hacc|].
    intros _ s5 (r & E & Hr & Ha). exists (ExploitedPhase1, r).
    unfold produced. cbn [fst snd is_exploited]. auto. }
  intros _ s4 (l1 & E1 & _ & Hl1 & _).
  wp_step. wp_step.
  eapply wp_mono.
  { apply (wp_for_range (fun _ => True) (produced is_exploited acc));
      [|exact I].
    intros s7 _.
    eapply wp_mono; [apply (exploited_phase2_spec acc dests); auto|].
    - apply nonempty_length. lia.
    - intros _ s8 (r & E & Hr & Ha). exists (ExploitedPhase2, r).
      unfold produced. cbn [fst snd is_exploited]. auto. }
  intros _ s7 (l2 & E2 & _ & Hl2 & _).
  exists (l1 ++ l2). split; [|split; [|exact I]].
  - assert (E01 : extends s s4 l1) by chain.
    assert (E12 : extends s4 s7 l2) by chain.
    exact (extends_trans _ _ _ _ _ E01 E12).
  - apply Forall_app. auto.
Qed.

(* ===================================================================== *)
(** ** The whole run *)
(* ===================================================================== *)

Lemma Forall2_concat {A} (P : A -> entry -> Prop) xs ess :
  Forall2 (fun x es => Forall (P x) es) xs ess ->
  Forall (fun e => exists x, In x xs /\ P x e) (List.concat ess).
Proof.
  induction 1 as [|x es xs ess Hes _ IH]; cbn [List.concat].
  - constructor.
  - apply Forall_app. split.
    + eapply Forall_impl; [|exact Hes]. intros e He. exists x. simpl. auto.
    + eapply Forall_impl; [|exact IH]. intros e (y & Hy & He).
      exists y. simpl. auto.
Qed.

(** The rows of a run, in emission order: the rows of the normal
    accounts, one segment per complicit mule, the rows of the recruited
    mules and the rows of the exploited mules. *)
Definition trace_ok (l : list entry) : Prop :=
  exists (normal : list entry) (complicit : list (list entry))
         (recruited exploited : list entry),
    l = normal ++ List.concat complicit ++ recruited ++ exploited
    /\ Forall (fun e => exists acc, In acc NORMAL_IDS
                                    /\ produced is_normal acc e) normal
    /\ Forall2 segment_ok COMPLICIT_MULES complicit
    /\ Forall (fun e => exists acc, In acc RECRUITED_MULES
                                    /\ produced is_recruited acc e) recruited
    /\ Forall (fun e => exists acc, In acc EXPLOITED_MULES
                                    /\ produced is_exploited acc e) exploited.

(** The same trace with what the draws of the stream [py] make of its
    rows: one segment per account, in the order of the population. *)
Definition trace_drawn (py : N -> Z) (l : list entry) : Prop :=
  exists (normal complicit recruited : list (list entry))
         (exploited : list entry),
    l = List.concat normal ++ List.concat complicit
        ++ List.concat recruited ++ exploited
    /\ Forall2 (normal_segment py) NORMAL_IDS normal
    /\ Forall2 (segment_drawn py) COMPLICIT_MULES complicit
    /\ Forall2 (recruited_segment py) RECRUITED_MULES recruited
    /\ Forall (fun e => exists acc, In acc EXPLOITED_MULES
                                    /\ produced is_exploited acc e) exploited.

Lemma Forall2_weaken {A B} (P Q : A -> B -> Prop) xs ys :
  (forall x y, P x y -> Q x y) -> Forall2 P xs ys -> Forall2 Q xs ys.
Proof. intros H. induction 1; constructor; auto. Qed.

Lemma trace_drawn_ok py l : trace_drawn py l -> trace_ok l.
Proof.
  intros (n & c & r & x & -> & Hn & Hc & Hr & Hx).
  exists (List.concat n), c, (List.concat r), x.
  split; [reflexivity|]. split; [|split; [|split; [|exact Hx]]].
  - apply (Forall2_concat (produced is_normal)).
    eapply Forall2_weaken; [|exact Hn].
    intros acc es [_ H]. eapply Forall_impl; [|exact H].
    intros e [He _]. exact He.
  - eapply Forall2_weaken; [|exact Hc]. apply segment_drawn_ok.
  - apply (Forall2_concat (produced is_recruited)).
    eapply Forall2_weaken; [|exact Hr]. intros acc es [H _]. exact H.
Qed.

Lemma generate_spec s :
  wp generate
     (fun _ s' => exists l, extends s s' l /\ trace_drawn (py_draws s) l) s.
Proof.
  unfold generate. set (py := py_draws s).
  apply wp_bind. eapply wp_mono.
  { apply (wp_for_each (fun s1 => py_draws s1 = py) (normal_segment py));
      [|reflexivity].
    intros acc s1 Hacc P1.
    eapply wp_mono; [apply normal_account_spec, Hacc|].
    intros _ s2 (es & E & H & P2). exists es. rewrite <- P1. rewrite P2. auto. }
  intros _ s1 (nss & E1 & H1 & P1).
  apply wp_bind. eapply wp_mono.
  { apply (wp_for_each (fun s2 => py_draws s2 = py) (segment_drawn py));
      [|exact P1].
    intros acc s2 Hacc P2.
    eapply wp_mono; [apply complicit_mule_spec, Hacc|].
    intros _ s3 (es & E & H & P3). exists es. rewrite <- P2. rewrite P3. auto. }
  intros _ s2 (css & E2 & H2 & P2).
  apply wp_bind. eapply wp_mono.
  { apply (wp_for_each (fun s3 => py_draws s3 = py) (recruited_segment py));
      [|exact P2].
    intros acc s3 Hacc P3.
    eapply wp_mono; [apply recruited_mule_spec, Hacc|].
    intros _ s4 (es & E & H & P4). exists es. rewrite <- P3. rewrite P4. auto. }
  intros _ s3 (rss & E3 & H3 & P3).
  eapply wp_mono.
  { apply (wp_for_each (fun _ => True)
             (fun acc es => Forall (produced is_exploited acc) es));
      [|exact I].
    intros acc s4 Hacc _. apply exploited_mule_spec, Hacc. }
  intros _ s4 (xss & E4 & H4 & _).
  exists (List.concat nss ++ List.concat css
            ++ List.concat rss ++ List.concat xss).
  split.
  - eapply extends_trans; [exact E1|].
    eapply extends_trans; [exact E2|].
    eapply extends_trans; [exact E3 | exact E4].
  - exists nss, css, rss, (List.concat xss).
    split; [reflexivity|]. split; [exact H1|].
    split; [exact H2|]. split; [exact H3|].
    apply (Forall2_concat _ _ _ H4).
Qed.

(** The rows with their ghost labels, in emission order. *)
Definition entries (s : state) : list entry :=
  combine (origins s) (transactions s).

Lemma combine_fst_snd {A B} (l : list (A * B)) :
  combine (map fst l) (map snd l) = l.
Proof.
  induction l as [|[a b] l IH]; simpl; [reflexivity | now rewrite IH].
Qed.

(** Every run returns; its rows are those of a well-formed trace, numbered
    from 1. *)
Lemma run_drawn py np :
  exists s,
    run py np = Returns tt s
    /\ transactions s = map snd (entries s)
    /\ origins s = map fst (entries s)
    /\ ids_from 1 (entries s)
    /\ txn_counter s = 1 + Z.of_nat (List.length (transactions s))
    /\ trace_drawn py (entries s).
Proof.
  destruct (wp_returns _ _ _ (generate_spec (initial py np)))
    as ([] & s & Hrun & l & E & Hl).
  exists s. split; [exact Hrun|].
  destruct E as [T O C Ids _ _]. cbn [initial transactions origins
                                      txn_counter py_draws app] in *.
  assert (El : entries s = l)
    by (unfold entries; rewrite T, O; apply combine_fst_snd).
  rewrite El. repeat split; auto.
  rewrite C, T, length_map. reflexivity.
Qed.

Lemma run_spec py np :
  exists s,
    run py np = Returns tt s
    /\ transactions s = map snd (entries s)
    /\ origins s = map fst (entries s)
    /\ ids_from 1 (entries s)
    /\ txn_counter s = 1 + Z.of_nat (List.length (transactions s))
    /\ trace_ok (entries s).
Proof.
  destruct (run_drawn py np) as (s & H1 & H2 & H3 & H4 & H5 & H6).
  exists s. eauto 10 using trace_drawn_ok.
Qed.

Lemma segment_rows acc es :
  segment_ok acc es -> Forall (fun e => row_inv (fst e) (snd e)) es.
Proof.
  intros (bs & -> & Hbs). unfold flatten.
  induction Hbs as [|b bs Hb _ IH]; cbn [map List.concat]; [constructor|].
  apply Forall_app. split; [|exact IH].
  destruct Hb as (sender & cs & c & _ & _ & _ & Hc & Hd).
  apply Forall_app. split.
  - eapply Forall_impl; [|exact Hc]. intros e (-> & H & _). exact H.
  - eapply Forall_impl; [|exact Hd]. intros e (-> & H & _). exact H.
Qed.

Lemma trace_rows l :
  trace_ok l -> Forall (fun e => row_inv (fst e) (snd e)) l.
Proof.
  intros (n & c & r & x & -> & Hn & Hc & Hr & Hx).
  repeat (apply Forall_app; split).
  - eapply Forall_impl; [|exact Hn]. intros e (acc & _ & _ & H & _). exact H.
  - clear -Hc. induction Hc as [|acc es accs ess H _ IH];
      cbn [List.concat]; [constructor|].
    apply Forall_app. split; [exact (segment_rows _ _ H) | exact IH].
  - eapply Forall_impl; [|exact Hr]. intros e (acc & _ & _ & H & _). exact H.
  - eapply Forall_impl; [|exact Hx]. intros e (acc & _ & _ & H & _). exact H.
Qed.

(* ===================================================================== *)
(** ** A sorting routine meeting the contract of [sort_values] *)
(* ===================================================================== *)

Section Sorters.
Variable key : txn -> string.

Definition key_le (a b : txn) : Prop := String.leb (key a) (key b) = true.

(** Insertion before the first row whose key is not smaller. *)
Fixpoint insert_before (x : txn) (l : list txn) : list txn :=
  match l with
  | [] => [x]
  | y :: l' =>
      if String.leb (key x) (key y) then x :: l
      else y :: insert_before x l'
  end.

(** Insertion sort from the right: rows with equal keys keep their
    order. *)
Definition sort_keeping_ties (l : list txn) : list txn :=
  fold_right insert_before [] l.

Lemma leb_false_le a b :
  String.leb (key a) (key b) = false -> key_le b a.
Proof.
  intros H. destruct (String.leb_total (key a) (key b)); [congruence|].
  assumption.
Qed.

Lemma insert_before_perm x l : Permutation (x :: l) (insert_before x l).
Proof.
  induction l as [|y l IH]; simpl; [reflexivity|].
  destruct (String.leb (key x) (key y)); [reflexivity|].
  rewrite perm_swap. now constructor.
Qed.

Lemma insert_before_sorted x l :
  Sorted key_le l -> Sorted key_le (insert_before x l).
Proof.
  induction 1 as [|y l Hs IH Hd]; simpl; [repeat constructor|].
  destruct (String.leb (key x) (key y)) eqn:E.
  - repeat constructor; assumption.
  - constructor; [exact IH|].
    destruct l as [|z l]; simpl.
    + constructor. now apply leb_false_le.
    + destruct (String.leb (key x) (key z)).
      * constructor. now apply leb_false_le.
      * inversion Hd; subst. now constructor.
Qed.

Lemma sort_keeping_ties_perm l : Permutation l (sort_keeping_ties l).
Proof.
  induction l as [|x l IH]; simpl; [constructor|].
  rewrite <- insert_before_perm. now constructor.
Qed.

Lemma sort_keeping_ties_sorted l : Sorted key_le (sort_keeping_ties l).
Proof.
  induction l as [|x l IH]; simpl; [constructor|].
  now apply insert_before_sorted.
Qed.

End Sorters.

(** A rendering of rationals, enough to instantiate the interface: the
    contract of [sort_values] can be met. *)
Definition ratio_repr (q : Q) : string :=
  (Py.str (Qnum q) ++ "/" ++ Py.str (Zpos (Qden q)))%string.

Definition stable_pandas : Pandas :=
  {| sort_values := sort_keeping_ties;
     sort_values_perm := sort_keeping_ties_perm;
     sort_values_sorted := sort_keeping_ties_sorted;
     float_repr := ratio_repr |}.


(* ===================================================================== *)
(** ** Rows of a run and of the data frame *)
(* ===================================================================== *)

Lemma run_rows py np :
  exists s,
    run py np = Returns tt s
    /\ transactions s = map snd (entries s)
    /\ Forall (fun e => row_inv (fst e) (snd e)) (entries s).
Proof.
  destruct (run_spec py np) as (s & Hrun & HT & _ & _ & _ & Htr).
  exists s. auto using trace_rows.
Qed.

Lemma dataframe_rows `{Pandas} py np :
  exists s,
    run py np = Returns tt s
    /\ Permutation (map snd (entries s)) (dataframe s)
    /\ Forall (fun r => exists o, In (o, r) (entries s) /\ row_inv o r)
              (dataframe s).
Proof.
  destruct (run_rows py np) as (s & Hrun & HT & Hrows).
  exists s. split; [exact Hrun|].
  assert (HP : Permutation (map snd (entries s)) (dataframe s))
    by (rewrite <- HT; apply sort_values_perm).
  split; [exact HP|].
  eapply Permutation_Forall; [exact HP|].
  apply Forall_forall. intros r Hr. apply in_map_iff in Hr.
  destruct Hr as ([o r'] & <- & Hin). exists o. split; [exact Hin|].
  rewrite Forall_forall in Hrows. exact (Hrows _ Hin).
Qed.

Lemma ts_ok_parses night lo hi ts :
  ts_ok night lo hi ts -> strptime (strftime ts) = Some ts.
Proof.
  intros [Y Mo D _ _ Hh Mi S]. destruct ts as [y m d h n sec].
  cbn [year month day hour minute second] in *. subst y.
  apply strptime_strftime_2024; lia.
Qed.

Lemma toordinal_END : toordinal END_DATE = toordinal START_DATE + 181.
Proof. reflexivity. Qed.

(** The hours [rand_ts] can produce. *)
Definition hour_ok (h : Z) : Prop := 8 <= h <= 22 \/ h = 23 \/ 0 <= h <= 4.

Lemma row_timestamp o r :
  row_inv o r ->
  exists ts,
    strptime (timestamp r) = Some ts
    /\ Datetime.le START_DATE ts
    /\ toordinal ts <= toordinal END_DATE
    /\ seconds_of ts <= seconds_of END_DATE + 86399
    /\ hour_ok (hour ts)
    /\ (night_rule o = false -> 8 <= hour ts <= 22).
Proof.
  intros [_ _ _ (ts & Ets & Hts) _ _ _ _].
  exists ts. rewrite Ets. split; [exact (ts_ok_parses _ _ _ _ Hts)|].
  assert (Hr : 0 <= fst (day_range o) /\ snd (day_range o) <= 181)
    by (destruct o; simpl; lia).
  destruct Hts as [Y Mo D J O Hh Mi S].
  assert (E0 : seconds_of START_DATE = toordinal START_DATE * 86400)
    by reflexivity.
  assert (E1 : seconds_of END_DATE = (toordinal START_DATE + 181) * 86400)
    by reflexivity.
  unfold Datetime.le. rewrite E0, E1, toordinal_END. unfold seconds_of, hour_ok.
  split; [lia|]. split; [lia|]. split; [lia|]. split; [lia|].
  intros Hn. rewrite Hn in Hh. destruct Hh as [Hh|[Hh _]]; [lia|discriminate].
Qed.

(* ===================================================================== *)
(** ** Claims *)
(* ===================================================================== *)

(** C1.  Every run returns, and for every emitted row, with the rule [o]
    that emitted it: [is_mule] is 1 exactly when the account is a mule
    account and [o] is a mule-behaviour rule; rows of the normal
    synthesizer carry 0 and subtype none; rows of the Phase-1 history of a
    recruited or exploited mule carry 0 although their subtype is not
    none.  The rows of the data frame are the emitted rows. *)
Theorem is_mule_iff_mule_rule `{Pandas} (py : N -> Z) (np : N -> Q) :
  exists s,
    run py np = Returns tt s
    /\ Permutation (map snd (entries s)) (dataframe s)
    /\ List.length (origins s) = List.length (transactions s)
    /\ forall o r,
        In (o, r) (entries s) ->
        (is_mule r = 1 <-> In (account_id r) MULE_IDS /\ mule_rule o = true)
        /\ (is_mule r = 0 \/ is_mule r = 1)
        /\ (o = NormalActivity ->
            is_mule r = 0 /\ mule_type r = "none"
            /\ ~ In (account_id r) MULE_IDS)
        /\ (o = RecruitedPhase1 \/ o = ExploitedPhase1 ->
            is_mule r = 0 /\ mule_type r <> "none"
            /\ In (account_id r) MULE_IDS).
Proof.
  destruct (run_spec py np) as (s & Hrun & HT & HO & _ & _ & Htr).
  exists s. split; [exact Hrun|].
  split; [rewrite <- HT; apply sort_values_perm|].
  split; [now rewrite HT, HO, !length_map|].
  intros o r Hin.
  pose proof (trace_rows _ Htr) as Hrows. rewrite Forall_forall in Hrows.
  destruct (Hrows _ Hin) as [Hacc Hflag Hsub _ _ _ _ _].
  cbn [fst snd] in *.
  assert (Hm : mule_rule o = true -> In (account_id r) MULE_IDS).
  { destruct o; cbn [mule_rule accounts_of] in *; intros E;
      try discriminate E;
      first [apply COMPLICIT_is_mule; exact Hacc
            | apply RECRUITED_is_mule; exact Hacc
            | apply EXPLOITED_is_mule; exact Hacc]. }
  split; [|split; [|split]].
  - split.
    + intros E. destruct (mule_rule o); [auto | rewrite Hflag in E; discriminate E].
    + intros [_ E]. now rewrite Hflag, E.
  - rewrite Hflag. destruct (mule_rule o); auto.
  - intros ->. cbn [mule_rule accounts_of subtype_of] in *.
    auto using normal_not_mule.
  - intros [-> | ->]; cbn [mule_rule accounts_of subtype_of] in *;
      rewrite Hsub; (split; [assumption|]); (split; [discriminate|]);
      [apply RECRUITED_is_mule | apply EXPLOITED_is_mule]; exact Hacc.
Qed.

(** C3.  Every run returns, and every row of the data frame carries a
    timestamp that reads back as a date and time not earlier than the
    start of the window (2024-01-01 00:00:00) and whose calendar day is
    not later than the end date of the window (2024-06-30): it is at most
    the last second of that day. *)
Theorem timestamps_within_window `{Pandas} (py : N -> Z) (np : N -> Q) :
  exists s,
    run py np = Returns tt s
    /\ Forall (fun r => exists ts,
                   strptime (timestamp r) = Some ts
                   /\ Datetime.le START_DATE ts
                   /\ toordinal ts <= toordinal END_DATE
                   /\ seconds_of ts <= seconds_of END_DATE + 86399)
              (dataframe s).
Proof.
  destruct (dataframe_rows py np) as (s & Hrun & _ & Hrows).
  exists s. split; [exact Hrun|].
  eapply Forall_impl; [|exact Hrows].
  intros r (o & _ & Hr).
  destruct (row_timestamp o r Hr) as (ts & H1 & H2 & H3 & H4 & _).
  exists ts. auto.
Qed.

(** C10.  Every run returns, and the hour of the timestamp of every row
    of the data frame is in 8..22 or in the night band 23, 0..4, never 5, 6
    or 7; rows emitted by a rule without night bias have an hour in
    8..22. *)
Theorem hours_avoid_early_morning `{Pandas} (py : N -> Z) (np : N -> Q) :
  exists s,
    run py np = Returns tt s
    /\ Forall (fun r => exists ts,
                   strptime (timestamp r) = Some ts
                   /\ (8 <= hour ts <= 22 \/ hour ts = 23 \/ 0 <= hour ts <= 4)
                   /\ ~ (5 <= hour ts <= 7))
              (dataframe s)
    /\ forall o r,
        In (o, r) (entries s) -> night_rule o = false ->
        exists ts, strptime (timestamp r) = Some ts /\ 8 <= hour ts <= 22.
Proof.
  destruct (dataframe_rows py np) as (s & Hrun & _ & Hrows).
  exists s. split; [exact Hrun|]. split.
  - eapply Forall_impl; [|exact Hrows].
    intros r (o & _ & Hr).
    destruct (row_timestamp o r Hr) as (ts & H1 & _ & _ & _ & H5 & _).
    exists ts. split; [exact H1|]. split; [exact H5|].
    unfold hour_ok in H5. lia.
  - intros o r Hin Hn.
    destruct (run_rows py np) as (s' & Hrun' & _ & Hall).
    assert (s' = s) by congruence. subst s'.
    rewrite Forall_forall in Hall.
    destruct (row_timestamp o r (Hall _ Hin)) as (ts & H1 & _ & _ & _ & _ & H6).
    exists ts. auto.
Qed.

(* ===================================================================== *)
(** ** Transaction identifiers *)
(* ===================================================================== *)

(** The sequence number written in an identifier. *)
Definition txn_number (id : string) : option Z :=
  match id with
  | String "T" (String "X" (String "N" digits)) =>
      option_map Z.of_uint (NilEmpty.uint_of_string digits)
  | _ => None
  end.

Lemma str_nonneg c :
  0 <= c ->
  exists d, Py.str c = NilEmpty.string_of_uint d /\ Z.of_uint d = c.
Proof.
  intros Hc. destruct c as [|p|p]; [| |lia].
  - exists (Decimal.D0 Decimal.Nil). split; reflexivity.
  - exists (Pos.to_uint p).
    pose proof (DecimalZ.of_to (Zpos p)) as E. cbn [Z.to_int Z.of_int] in E.
    split; [|exact E].
    unfold Py.str. cbn [Z.to_int NilZero.string_of_int].
    unfold NilZero.string_of_uint.
    destruct (Pos.to_uint p); [discriminate E | reflexivity ..].
Qed.

Lemma uint_of_zeros k d :
  NilEmpty.uint_of_string (Py.zeros k ++ NilEmpty.string_of_uint d)%string
  = Some (Nat.iter k Decimal.D0 d).
Proof.
  induction k as [|k IH]; cbn [Py.zeros append Nat.iter nat_rect].
  - apply NilEmpty.usu.
  - cbn [NilEmpty.uint_of_string]. rewrite IH. reflexivity.
Qed.

Lemma of_uint_zeros k d : Z.of_uint (Nat.iter k Decimal.D0 d) = Z.of_uint d.
Proof.
  induction k as [|k IH]; [reflexivity|]. exact IH.
Qed.

Lemma txn_number_of c : 0 <= c -> txn_number (txn_id_of c) = Some c.
Proof.
  intros Hc. destruct (str_nonneg c Hc) as (d & Es & Ed).
  unfold txn_id_of, Py.zfill. rewrite Es.
  cbn [append txn_number]. rewrite uint_of_zeros.
  cbn [option_map]. now rewrite of_uint_zeros, Ed.
Qed.

Lemma ids_from_nth c l i e :
  ids_from c l -> nth_error l i = Some e ->
  txn_id (snd e) = txn_id_of (c + Z.of_nat i).
Proof.
  revert c i. induction l as [|x l IH]; intros c [|i] H E; try discriminate.
  - injection E as ->. destruct H as [H _].
    now replace (c + Z.of_nat 0) with c by lia.
  - destruct H as [_ H]. cbn [nth_error] in E.
    rewrite (IH _ _ H E). f_equal. lia.
Qed.

Lemma run_ids py np :
  exists s,
    run py np = Returns tt s
    /\ forall i r, nth_error (transactions s) i = Some r ->
                   txn_id r = txn_id_of (Z.of_nat i + 1).
Proof.
  destruct (run_spec py np) as (s & Hrun & HT & _ & Hids & _ & _).
  exists s. split; [exact Hrun|]. intros i r Hi.
  rewrite HT, nth_error_map in Hi.
  destruct (nth_error (entries s) i) as [e|] eqn:E;
    cbn [option_map] in Hi; [|discriminate Hi].
  injection Hi as <-. rewrite (ids_from_nth _ _ _ _ Hids E). f_equal. lia.
Qed.

Lemma run_ids_nodup py np s :
  run py np = Returns tt s -> NoDup (map txn_id (transactions s)).
Proof.
  intros Hrun. destruct (run_ids py np) as (s' & Hrun' & Hids).
  assert (s' = s) by congruence. subst s'.
  apply NoDup_nth_error. intros i j Hi E.
  rewrite length_map in Hi. rewrite !nth_error_map in E.
  destruct (nth_error (transactions s) i) as [ri|] eqn:Ei;
    [|apply nth_error_None in Ei; lia].
  destruct (nth_error (transactions s) j) as [rj|] eqn:Ej;
    cbn [option_map] in E; [|discriminate E].
  injection E as E.
  rewrite (Hids _ _ Ei), (Hids _ _ Ej) in E.
  assert (N : Some (Z.of_nat i + 1) = Some (Z.of_nat j + 1)).
  { rewrite <- (txn_number_of (Z.of_nat i + 1)) by lia.
    rewrite <- (txn_number_of (Z.of_nat j + 1)) by lia. now rewrite E. }
  injection N. lia.
Qed.

(** C9.  Every run returns; the row emitted in position [i] (from 0)
    carries the identifier numbered [i + 1], so that a row emitted later
    carries a strictly greater number; no identifier occurs twice, in the
    emitted sequence or in the data frame. *)
Theorem txn_ids_unique_increasing `{Pandas} (py : N -> Z) (np : N -> Q) :
  exists s,
    run py np = Returns tt s
    /\ (forall i r, nth_error (transactions s) i = Some r ->
                    txn_id r = txn_id_of (Z.of_nat i + 1)
                    /\ txn_number (txn_id r) = Some (Z.of_nat i + 1))
    /\ (forall i j ri rj,
           (i < j)%nat ->
           nth_error (transactions s) i = Some ri ->
           nth_error (transactions s) j = Some rj ->
           exists ni nj, txn_number (txn_id ri) = Some ni
                         /\ txn_number (txn_id rj) = Some nj /\ ni < nj)
    /\ NoDup (map txn_id (transactions s))
    /\ NoDup (map txn_id (dataframe s)).
Proof.
  destruct (run_ids py np) as (s & Hrun & Hids).
  exists s. split; [exact Hrun|].
  assert (Hnum : forall i r, nth_error (transactions s) i = Some r ->
                             txn_number (txn_id r) = Some (Z.of_nat i + 1)).
  { intros i r Hi. rewrite (Hids _ _ Hi). apply txn_number_of. lia. }
  split; [auto|]. split.
  - intros i j ri rj Hij Hi Hj.
    exists (Z.of_nat i + 1), (Z.of_nat j + 1).
    split; [eauto|]. split; [eauto|lia].
  - pose proof (run_ids_nodup py np s Hrun) as Hnd.
    split; [exact Hnd|].
    eapply Permutation_NoDup; [|exact Hnd].
    apply Permutation_map. apply sort_values_perm.
Qed.

(* ===================================================================== *)
(** ** Sender batches of a complicit mule *)
(* ===================================================================== *)

Definition is_credit (r : txn) : bool := String.eqb (txn_type r) "credit".
Definition is_debit (r : txn) : bool := String.eqb (txn_type r) "debit".

(** The rows of one account, in emission order. *)
Definition rows_of (acc : string) (l : list txn) : list txn :=
  filter (fun r => String.eqb (account_id r) acc) l.

(** Cuts a sequence of rows into batches: each batch is a maximal run of
    credits followed by the maximal run of debits after it. *)
Definition add_row (r : txn) (bs : list (list txn * list txn))
  : list (list txn * list txn) :=
  if is_credit r then
    match bs with
    | (cs, ds) :: rest => (r :: cs, ds) :: rest
    | [] => [([r], [])]
    end
  else
    match bs with
    | ([], ds) :: rest => ([], r :: ds) :: rest
    | _ => ([], [r]) :: bs
    end.

Definition batches (l : list txn) : list (list txn * list txn) :=
  fold_right add_row [] l.

(** The head batch, if any, starts with a credit. *)
Definition starts_with_credit (bs : list (list txn * list txn)) : Prop :=
  match bs with
  | [] => True
  | (cs, _) :: _ => cs <> []
  end.

Lemma batches_debits ds B :
  ds <> [] -> Forall (fun r => is_credit r = false) ds ->
  starts_with_credit B ->
  fold_right add_row B ds = ([], ds) :: B.
Proof.
  intros Hne Hds HB. induction Hds as [|d ds Hd Hds IH]; [congruence|].
  cbn [fold_right]. destruct ds as [|d' ds'].
  - cbn [fold_right]. unfold add_row. rewrite Hd.
    destruct B as [|[[|c cs] ds0] rest]; try reflexivity.
    simpl in HB. congruence.
  - rewrite IH by discriminate. unfold add_row. now rewrite Hd.
Qed.

Lemma batches_credits cs ds B :
  Forall (fun r => is_credit r = true) cs ->
  fold_right add_row (([], ds) :: B) cs = (cs, ds) :: B.
Proof.
  induction 1 as [|c cs Hc Hcs IH]; [reflexivity|].
  cbn [fold_right]. rewrite IH. unfold add_row. now rewrite Hc.
Qed.

(** A list of batches as the program emits them. *)
Definition emitted_batch (b : list txn * list txn) : Prop :=
  fst b <> [] /\ snd b <> []
  /\ Forall (fun r => is_credit r = true) (fst b)
  /\ Forall (fun r => is_credit r = false) (snd b).

Lemma batches_flat (bs : list (list txn * list txn)) :
  Forall emitted_batch bs ->
  batches (List.concat (map (fun b => fst b ++ snd b) bs)) = bs.
Proof.
  unfold batches. induction 1 as [|[cs ds] bs (Hc & Hd & Fc & Fd) Hbs IH].
  - reflexivity.
  - cbn [map List.concat fst snd] in *.
    rewrite <- app_assoc, !fold_right_app, IH.
    rewrite (batches_debits ds bs); auto.
    + now rewrite batches_credits.
    + destruct Hbs as [|[cs' ds'] bs' (Hc' & _) _]; simpl; auto.
Qed.

Definition rows_of_batch (b : list entry * list entry)
  : list txn * list txn := (map snd (fst b), map snd (snd b)).

Lemma flatten_rows bs :
  map snd (flatten bs)
  = List.concat (map (fun b => fst b ++ snd b) (map rows_of_batch bs)).
Proof.
  unfold flatten. induction bs as [|b bs IH]; [reflexivity|].
  cbn [map List.concat]. rewrite map_app.
  f_equal; [apply map_app | exact IH].
Qed.

Lemma batch_ok_emitted acc b :
  batch_ok acc b -> emitted_batch (rows_of_batch b).
Proof.
  intros (sender & cs & c & _ & Ecs & Hlen & Hc & Hd).
  unfold emitted_batch, rows_of_batch. cbn [fst snd].
  assert (N1 : fst b <> []) by (rewrite Ecs; destruct cs; discriminate).
  assert (N2 : snd b <> []).
  { intros E. rewrite E in Hlen. destruct (fst b); [congruence|discriminate]. }
  split; [destruct (fst b); [congruence | discriminate]|].
  split; [destruct (snd b); [congruence | discriminate]|].
  split; apply Forall_map.
  - eapply Forall_impl; [|exact Hc]. intros e (_ & _ & _ & _ & Ht).
    unfold is_credit. now rewrite Ht.
  - eapply Forall_impl; [|exact Hd]. intros e (_ & _ & _ & Ht & _).
    unfold is_credit. now rewrite Ht.
Qed.

Lemma segment_batches acc bs :
  Forall (batch_ok acc) bs ->
  batches (map snd (flatten bs)) = map rows_of_batch bs.
Proof.
  intros H. rewrite flatten_rows. apply batches_flat.
  apply Forall_map. eapply Forall_impl; [|exact H].
  intros b. apply batch_ok_emitted.
Qed.

(** *** The rows of a complicit account within the whole run *)

Lemma rows_of_app acc l1 l2 :
  rows_of acc (l1 ++ l2) = rows_of acc l1 ++ rows_of acc l2.
Proof. apply filter_app. Qed.

Lemma rows_of_none acc l :
  Forall (fun r => account_id r <> acc) l -> rows_of acc l = [].
Proof.
  induction 1 as [|r l Hr _ IH]; [reflexivity|].
  unfold rows_of in *. cbn [filter].
  destruct (String.eqb_spec (account_id r) acc); [contradiction | exact IH].
Qed.

Lemma rows_of_all acc l :
  Forall (fun r => account_id r = acc) l -> rows_of acc l = l.
Proof.
  induction 1 as [|r l Hr _ IH]; [reflexivity|].
  unfold rows_of in *. cbn [filter]. rewrite Hr, String.eqb_refl.
  now rewrite IH.
Qed.

Lemma segment_accounts acc es :
  segment_ok acc es -> Forall (fun r => account_id r = acc) (map snd es).
Proof.
  intros (bs & -> & Hbs). apply Forall_map. unfold flatten.
  induction Hbs as [|b bs Hb _ IH]; cbn [map List.concat]; [constructor|].
  apply Forall_app. split; [|exact IH].
  destruct Hb as (sender & cs & c & _ & _ & _ & Hc & Hd).
  apply Forall_app. split.
  - eapply Forall_impl; [|exact Hc]. intros e (_ & _ & H & _). exact H.
  - eapply Forall_impl; [|exact Hd]. intros e (_ & _ & H & _). exact H.
Qed.

Lemma rows_of_segments (P : string -> list entry -> Prop) acc accs segs :
  (forall a es, P a es -> segment_ok a es) ->
  NoDup accs -> Forall2 P accs segs -> In acc accs ->
  exists seg,
    P acc seg
    /\ rows_of acc (map snd (List.concat segs)) = map snd seg.
Proof.
  intros HP Hnd HF. revert Hnd.
  induction HF as [|a seg accs segs Hseg HF IH]; intros Hnd Hin; [destruct Hin|].
  inversion Hnd as [|? ? Hnotin Hnd']; subst.
  cbn [List.concat]. rewrite map_app, rows_of_app.
  destruct Hin as [->|Hin].
  - exists seg. split; [exact Hseg|].
    rewrite (rows_of_all acc (map snd seg))
      by now apply segment_accounts, HP.
    rewrite rows_of_none; [apply app_nil_r|].
    clear -HF Hnotin HP. induction HF as [|a' seg' accs' segs' Hs _ IH];
      cbn [List.concat]; [constructor|].
    rewrite map_app. apply Forall_app. split.
    + eapply Forall_impl; [|exact (segment_accounts _ _ (HP _ _ Hs))].
      intros r -> ->. apply Hnotin. now left.
    + apply IH. intros H. apply Hnotin. now right.
  - destruct (IH Hnd' Hin) as (seg' & Hs & E).
    exists seg'. split; [exact Hs|]. rewrite E.
    rewrite rows_of_none; [reflexivity|].
    eapply Forall_impl; [|exact (segment_accounts _ _ (HP _ _ Hseg))].
    intros r -> ->. contradiction.
Qed.

Fixpoint all_distinct (l : list string) : bool :=
  match l with
  | [] => true
  | x :: l' => negb (existsb (String.eqb x) l') && all_distinct l'
  end.

Lemma all_distinct_NoDup l : all_distinct l = true -> NoDup l.
Proof.
  induction l as [|x l IH]; cbn [all_distinct]; [constructor|].
  intros H. apply andb_prop in H. destruct H as [H1 H2].
  constructor; [|exact (IH H2)].
  intros Hin. apply negb_true_iff in H1.
  assert (E : existsb (String.eqb x) l = true)
    by (apply existsb_exists; exists x; split;
        [exact Hin | apply String.eqb_refl]).
  congruence.
Qed.

Lemma COMPLICIT_NoDup : NoDup COMPLICIT_MULES.
Proof. apply all_distinct_NoDup. vm_compute. reflexivity. Qed.

Lemma complicit_not_normal x : In x COMPLICIT_MULES -> ~ In x NORMAL_IDS.
Proof.
  intros H1 H2. apply (normal_not_mule x H2). now apply COMPLICIT_is_mule.
Qed.

(** The rows of a complicit account in a run are exactly the batches its
    synthesizer emitted, and cutting them into maximal credit and debit
    runs recovers those batches. *)
Lemma complicit_rows_drawn py np :
  exists s,
    run py np = Returns tt s
    /\ forall acc, In acc COMPLICIT_MULES ->
         exists bs,
           Forall (batch_ok acc) bs
           /\ Forall (batch_drawn py) bs
           /\ (8 <= List.length bs)%nat
           /\ rows_of acc (transactions s) = map snd (flatten bs)
           /\ batches (rows_of acc (transactions s)) = map rows_of_batch bs.
Proof.
  destruct (run_drawn py np) as (s & Hrun & HT & _ & _ & _ & Htr).
  exists s. split; [exact Hrun|]. intros acc Hacc.
  destruct Htr as (n & c & r & x & El & Hn & Hc & Hr & Hx).
  destruct (rows_of_segments (segment_drawn py) acc _ _
              (segment_drawn_ok py) COMPLICIT_NoDup Hc Hacc)
    as (seg & (bs & -> & Hbs & Hds & Hlen) & Eseg).
  exists bs. split; [exact Hbs|]. split; [exact Hds|]. split; [exact Hlen|].
  assert (E : rows_of acc (transactions s) = map snd (flatten bs)).
  { rewrite HT, El, !map_app, !rows_of_app, Eseg.
    rewrite (rows_of_none acc (map snd (List.concat n))),
      (rows_of_none acc (map snd (List.concat r))),
      (rows_of_none acc (map snd x)).
    - now rewrite app_nil_r.
    - apply Forall_map. eapply Forall_impl; [|exact Hx].
      intros e (a & Ha & _ & _ & <-) E. rewrite E in Ha.
      exact (complicit_not_exploited _ Hacc Ha).
    - apply Forall_map.
      assert (Hr' : Forall (fun e => exists a, In a RECRUITED_MULES
                                     /\ produced is_recruited a e)
                           (List.concat r)).
      { apply (Forall2_concat (produced is_recruited)).
        eapply Forall2_weaken; [|exact Hr]. intros a es [H _]. exact H. }
      eapply Forall_impl; [|exact Hr'].
      intros e (a & Ha & _ & _ & <-) E. rewrite E in Ha.
      exact (complicit_not_recruited _ Hacc Ha).
    - apply Forall_map.
      assert (Hn' : Forall (fun e => exists a, In a NORMAL_IDS
                                     /\ produced is_normal a e)
                           (List.concat n)).
      { apply (Forall2_concat (produced is_normal)).
        eapply Forall2_weaken; [|exact Hn].
        intros a es [_ H]. eapply Forall_impl; [|exact H].
        intros e [He _]. exact He. }
      eapply Forall_impl; [|exact Hn'].
      intros e (a & Ha & _ & _ & <-) E. rewrite E in Ha.
      exact (complicit_not_normal _ Hacc Ha). }
  split; [exact E|]. rewrite E. now apply segment_batches with (acc := acc).
Qed.

Lemma complicit_rows py np :
  exists s,
    run py np = Returns tt s
    /\ forall acc, In acc COMPLICIT_MULES ->
         exists bs,
           Forall (batch_ok acc) bs
           /\ rows_of acc (transactions s) = map snd (flatten bs)
           /\ batches (rows_of acc (transactions s)) = map rows_of_batch bs.
Proof.
  destruct (complicit_rows_drawn py np) as (s & Hrun & H).
  exists s. split; [exact Hrun|]. intros acc Hacc.
  destruct (H acc Hacc) as (bs & H1 & _ & _ & H4 & H5). eauto.
Qed.

Lemma filter_all {A} (p : A -> bool) l :
  Forall (fun x => p x = true) l -> filter p l = l.
Proof.
  induction 1 as [|x l Hx _ IH]; [reflexivity|].
  cbn [filter]. now rewrite Hx, IH.
Qed.

Lemma filter_none {A} (p : A -> bool) l :
  Forall (fun x => p x = false) l -> filter p l = [].
Proof.
  induction 1 as [|x l Hx _ IH]; [reflexivity|].
  cbn [filter]. now rewrite Hx, IH.
Qed.

Lemma batch_directions acc b :
  batch_ok acc b ->
  Forall (fun r => is_credit r = true /\ is_debit r = false) (map snd (fst b))
  /\ Forall (fun r => is_credit r = false /\ is_debit r = true)
            (map snd (snd b)).
Proof.
  intros (sender & cs & c & _ & _ & _ & Hc & Hd). split; apply Forall_map.
  - eapply Forall_impl; [|exact Hc]. intros e (_ & _ & _ & _ & Ht).
    unfold is_credit, is_debit. now rewrite Ht.
  - eapply Forall_impl; [|exact Hd]. intros e (_ & _ & _ & Ht & _).
    unfold is_credit, is_debit. now rewrite Ht.
Qed.

Lemma batch_counts acc bs :
  Forall (batch_ok acc) bs ->
  List.length (filter is_debit (map snd (flatten bs)))
  = List.length (filter is_credit (map snd (flatten bs))).
Proof.
  unfold flatten. induction 1 as [|b bs Hb _ IH]; [reflexivity|].
  cbn [map List.concat]. rewrite !map_app, !filter_app, !length_app, IH.
  destruct (batch_directions acc b Hb) as [Hc Hd].
  rewrite (filter_none is_debit (map snd (fst b))),
    (filter_all is_debit (map snd (snd b))),
    (filter_all is_credit (map snd (fst b))),
    (filter_none is_credit (map snd (snd b))).
  all: try (eapply Forall_impl; [|exact Hd]; intros ? [? ?]; assumption).
  all: try (eapply Forall_impl; [|exact Hc]; intros ? [? ?]; assumption).
  destruct Hb as (_ & _ & _ & _ & _ & Hlen & _).
  rewrite !length_map. simpl. lia.
Qed.

(** C8.  Every run returns, and for each complicit mule account: its
    rows hold as many debits as credits; cut into sender batches (a run of
    credits followed by the run of debits after it) the rows are exactly
    those batches, and in each batch the debits are as many as the
    credits, the credits all come from one normal account (the victim
    sender) and the debits all go to criminal receivers, that is external
    identifiers of the reserved range. *)
Theorem complicit_forwarding_is_paired (py : N -> Z) (np : N -> Q) :
  exists s,
    run py np = Returns tt s
    /\ forall acc, In acc COMPLICIT_MULES ->
         let rows := rows_of acc (transactions s) in
         List.length (filter is_debit rows)
         = List.length (filter is_credit rows)
         /\ rows = List.concat (map (fun b => fst b ++ snd b) (batches rows))
         /\ Forall
              (fun b =>
                 List.length (snd b) = List.length (fst b)
                 /\ (exists sender,
                        In sender NORMAL_IDS
                        /\ Forall (fun c => is_credit c = true
                                            /\ counterparty c = sender)
                                  (fst b))
                 /\ Forall (fun d => is_debit d = true
                                     /\ In (counterparty d)
                                           (Py.slice 0 20 EXTERNAL_IDS))
                           (snd b))
              (batches rows).
Proof.
  destruct (complicit_rows py np) as (s & Hrun & Hrows).
  exists s. split; [exact Hrun|]. intros acc Hacc rows.
  destruct (Hrows acc Hacc) as (bs & Hbs & Erows & Ebatches).
  subst rows. rewrite Ebatches. split; [|split].
  - rewrite Erows. now apply batch_counts with (acc := acc).
  - rewrite Erows. apply flatten_rows.
  - apply Forall_map. eapply Forall_impl; [|exact Hbs].
    intros b Hb. destruct (batch_directions acc b Hb) as [Dc Dd].
    destruct Hb as (sender & cs & c & Hs & _ & Hlen & Hc & Hd).
    unfold rows_of_batch. cbn [fst snd]. rewrite !length_map.
    split; [now symmetry|]. split.
    + exists sender. split; [exact Hs|]. apply Forall_map.
      eapply Forall_impl; [|exact Hc].
      intros e (_ & _ & _ & Hcp & Ht). unfold is_credit. now rewrite Ht.
    + apply Forall_map. eapply Forall_impl; [|exact Hd].
      intros e (_ & Hr & _ & Ht & _). unfold is_debit. rewrite Ht.
      split; [reflexivity|]. exact (row_counterparty _ _ Hr).
Qed.

(* ===================================================================== *)
(** ** Forwarded amounts *)
(* ===================================================================== *)

(** The debit [d] is between 92% and 99% of the credit [c]. *)
Definition skim_paired (c d : txn) : Prop :=
  ((92 # 100) * amount c <= amount d)%Q
  /\ (amount d <= (99 # 100) * amount c)%Q.

(** In every sender batch of every complicit mule, the debits are, one
    for one and in order, between 92% and 99% of the credits. *)
Definition forwards_skims (txs : list txn) : Prop :=
  forall acc, In acc COMPLICIT_MULES ->
    Forall (fun b => Forall2 skim_paired (fst b) (snd b))
           (batches (rows_of acc txs)).

Lemma round_near y :
  (y - (1 # 2) <= inject_Z (Py.round y))%Q
  /\ (inject_Z (Py.round y) <= y + (1 # 2))%Q.
Proof.
  unfold Py.round.
  pose proof (Qfloor_le y) as Hlo. pose proof (Qlt_floor y) as Hhi.
  set (f := Qfloor y) in *. clearbody f.
  rewrite inject_Z_plus in Hhi. change (inject_Z 1) with 1%Q in Hhi.
  destruct (Qcompare_spec (y - inject_Z f) (1 # 2)) as [E|L|G];
    [destruct (Z.even f)| |];
    rewrite ?inject_Z_plus; change (inject_Z 1) with 1%Q;
    generalize dependent (inject_Z f); intros q Hlo Hhi H; split; lra.
Qed.

Lemma smurf_near x :
  (x - 500 <= smurf x)%Q /\ (smurf x <= x + 500)%Q.
Proof.
  unfold smurf. rewrite inject_Z_mult.
  destruct (round_near (x / 1000)) as [H1 H2].
  assert (E : (x == (x / 1000) * 1000)%Q) by (field).
  generalize dependent (inject_Z (Py.round (x / 1000))). intros r H1 H2.
  change (inject_Z 1000) with 1000%Q.
  generalize dependent (x / 1000)%Q. intros q H1 H2 E.
  split; lra.
Qed.

Lemma round2_near x :
  (x - (1 # 200) <= Py.round2 x)%Q /\ (Py.round2 x <= x + (1 # 200))%Q.
Proof.
  unfold Py.round2.
  destruct (round_near (x * 100)) as [H1 H2].
  generalize dependent (inject_Z (Py.round (x * 100))). intros r H1 H2.
  assert (E : (r / 100 == r * (1 # 100))%Q) by (field).
  rewrite E. split; lra.
Qed.

Lemma skim_of_near a x :
  skim_of a x ->
  exists f, (92 # 100 <= f)%Q /\ (f <= 99 # 100)%Q
            /\ (x = smurf (a * f) \/ x = Py.round2 (a * f))
            /\ (a * f - 500 <= x)%Q /\ (x <= a * f + 500)%Q.
Proof.
  intros (f & F1 & F2 & Hx). exists f.
  split; [exact F1|]. split; [exact F2|]. split; [exact Hx|].
  destruct Hx as [-> | ->].
  - apply smurf_near.
  - destruct (round2_near (a * f)) as [H1 H2]. split; lra.
Qed.

(** C2, as amended.  Every run returns, and in every sender batch of
    every complicit mule each outgoing debit has the amount that
    [round_amount] makes (rounding to the nearest 1000 or to two places)
    of between 92% and 99% of the amount of an inbound credit of that
    batch; it lies within 500 of that share. *)
Theorem forwarded_amounts_are_rounded_skims (py : N -> Z) (np : N -> Q) :
  exists s,
    run py np = Returns tt s
    /\ forall acc, In acc COMPLICIT_MULES ->
         Forall
           (fun b =>
              List.length (snd b) = List.length (fst b)
              /\ forall d, In d (snd b) ->
                   exists c f,
                     In c (fst b)
                     /\ (92 # 100 <= f)%Q /\ (f <= 99 # 100)%Q
                     /\ (amount d = smurf (amount c * f)
                         \/ amount d = Py.round2 (amount c * f))
                     /\ (amount c * f - 500 <= amount d)%Q
                     /\ (amount d <= amount c * f + 500)%Q)
           (batches (rows_of acc (transactions s))).
Proof.
  destruct (complicit_rows py np) as (s & Hrun & Hrows).
  exists s. split; [exact Hrun|]. intros acc Hacc.
  destruct (Hrows acc Hacc) as (bs & Hbs & _ & ->).
  apply Forall_map. eapply Forall_impl; [|exact Hbs].
  intros b (sender & cs & c & _ & Ecs & Hlen & _ & Hd).
  unfold rows_of_batch. cbn [fst snd]. rewrite !length_map.
  split; [now symmetry|].
  intros d Hin. apply in_map_iff in Hin. destruct Hin as (e & <- & Hin).
  rewrite Forall_forall in Hd.
  destruct (Hd e Hin) as (_ & _ & _ & _ & Hk).
  destruct (skim_of_near _ _ Hk) as (f & F1 & F2 & F3 & F4 & F5).
  exists (snd c), f. split; [|auto].
  apply in_map. rewrite Ecs. apply in_or_app. right. now left.
Qed.

Definition zero_py : N -> Z := fun _ => 0.
Definition zero_np : N -> Q := fun _ => 0%Q.

Lemma zero_credit : credit_amount 0 0 = 20000%Q.
Proof. vm_compute. reflexivity. Qed.

Lemma zero_debit : debit_amount 20000 0 0 = 18000%Q.
Proof. vm_compute. reflexivity. Qed.

Lemma zero_raws z : raws_of zero_py z -> z = 0.
Proof. intros [p ->]. reflexivity. Qed.

(** C2, as stated, fails.  With both generators delivering 0 at every
    draw, each credit of the first sender batch of a complicit mule is
    20000 (the rounding to the nearest 1000 fires) and each debit is
    18000, the nearest 1000 to 92% of 20000: 90% of the credit. *)
Lemma skim_fails_at_zero_draws :
  exists s,
    run zero_py zero_np = Returns tt s
    /\ ~ forwards_skims (transactions s).
Proof.
  destruct (complicit_rows_drawn zero_py zero_np) as (s & Hrun & Hrows).
  exists s. split; [exact Hrun|]. intros Hclaim.
  assert (Hacc : In "MUL00001" COMPLICIT_MULES) by (vm_compute; auto).
  specialize (Hclaim _ Hacc).
  destruct (Hrows _ Hacc) as (bs & Hbs & Hds & Hlen & _ & Eb).
  rewrite Eb in Hclaim.
  destruct bs as [|b bs]; [simpl in Hlen; lia|].
  inversion Hclaim as [|? ? Hb _]; subst.
  inversion Hbs as [|? ? (sender & cs & c & _ & Ecs & Hl & _ & _) _]; subst.
  inversion Hds as [|? ? (Hcd & cs' & c' & Ecs' & Hdd) _]; subst.
  assert (c' = c /\ cs' = cs) as [-> ->].
  { rewrite Ecs in Ecs'. apply app_inj_tail in Ecs'. intuition congruence. }
  unfold rows_of_batch in Hb. cbn [fst snd] in Hb.
  (* every credit is 20000, every debit 18000 *)
  assert (Hc20 : Forall (fun e => amount (snd e) = 20000%Q) (fst b)).
  { eapply Forall_impl; [|exact Hcd].
    intros e (z1 & z2 & Z1 & Z2 & ->).
    rewrite (zero_raws _ Z1), (zero_raws _ Z2). apply zero_credit. }
  assert (Hlast : amount (snd c) = 20000%Q).
  { rewrite Forall_forall in Hc20. apply Hc20. rewrite Ecs.
    apply in_or_app. right. now left. }
  assert (Hd18 : Forall (fun e => amount (snd e) = 18000%Q) (snd b)).
  { eapply Forall_impl; [|exact Hdd].
    intros e (z1 & z2 & Z1 & Z2 & ->).
    rewrite (zero_raws _ Z1), (zero_raws _ Z2), Hlast. apply zero_debit. }
  destruct (fst b) as [|c1 l1]; [destruct cs; discriminate Ecs|].
  destruct (snd b) as [|d1 l2]; [discriminate Hl|].
  cbn [map] in Hb. inversion Hb as [|? ? ? ? [Hlo _] _]; subst.
  inversion Hc20 as [|? ? E1 _]; subst. inversion Hd18 as [|? ? E2 _]; subst.
  rewrite E1, E2 in Hlo. unfold Qle in Hlo. simpl in Hlo. lia.
Qed.

(* ===================================================================== *)
(** ** Amounts and receivers, rule by rule *)
(* ===================================================================== *)

(** Every rule but the Phase-2 debit of a recruited mule emits an amount
    rounded to two places or to a multiple of 1000. *)
Lemma amounts_rounded_elsewhere py np :
  exists s,
    run py np = Returns tt s
    /\ forall o r, In (o, r) (entries s) -> o <> RecruitedDebit ->
                   two_places (amount r).
Proof.
  destruct (run_rows py np) as (s & Hrun & _ & Hrows).
  exists s. split; [exact Hrun|]. intros o r Hin Ho.
  rewrite Forall_forall in Hrows.
  exact (row_amount _ _ (Hrows _ Hin) Ho).
Qed.

(** The receiver of a Phase-2 debit of a recruited mule is a mule account
    or one of the first 15 external entities, never a normal account. *)
Lemma recruited_debit_receivers py np :
  exists s,
    run py np = Returns tt s
    /\ forall r, In (RecruitedDebit, r) (entries s) ->
                 (In (counterparty r) MULE_IDS
                  \/ In (counterparty r) EXTERNAL_IDS)
                 /\ ~ In (counterparty r) NORMAL_IDS.
Proof.
  destruct (run_rows py np) as (s & Hrun & _ & Hrows).
  exists s. split; [exact Hrun|]. intros r Hin.
  rewrite Forall_forall in Hrows.
  pose proof (row_counterparty _ _ (Hrows _ Hin)) as Hc.
  cbn [counterparties_of fst snd] in Hc. apply in_app_or in Hc.
  destruct Hc as [Hc|Hc].
  - split; [now left|]. intros Hn. exact (normal_not_mule _ Hn Hc).
  - apply slice_incl in Hc. split; [now right|].
    intros Hn. exact (normal_not_external _ Hn Hc).
Qed.

(* ===================================================================== *)
(** ** A run in which a recruited mule forwards to itself *)
(* ===================================================================== *)

(** A stream delivering the same raw draw at every position. *)
Definition const_py (c : Z) : N -> Z := fun _ => c.

(** A raw draw for which [random.random()] is 0.625 and
    [random.choice] picks position 10 of a list of 45. *)
Definition self_pay_draw : Z := 230809480902737920.

Lemma const_raws c z : raws_of (const_py c) z -> z = c.
Proof. intros [p ->]. reflexivity. Qed.

Lemma in_concat_head {A} (x : A) (l : list A) (ls : list (list A)) :
  In x l -> In x (List.concat (l :: ls)).
Proof. intros H. cbn [List.concat]. apply in_or_app. now left. Qed.

(** With every raw draw equal to [self_pay_draw], the first Phase-2 row
    of the first recruited mule, MUL00011, is a debit of 99375 * 0.9425 =
    93660.9375 whose counterparty is MUL00011 itself. *)
Lemma recruited_row_at_const_draws :
  exists s r,
    run (const_py self_pay_draw) zero_np = Returns tt s
    /\ In r (transactions s)
    /\ row_inv RecruitedDebit r
    /\ account_id r = "MUL00011"
    /\ counterparty r = "MUL00011"
    /\ amount r
       = (rounded self_pay_draw
            (15000 + (150000 - 15000) * unit_draw self_pay_draw)
          * ((88 # 100) + ((98 # 100) - (88 # 100))
                          * unit_draw self_pay_draw))%Q.
Proof.
  destruct (run_drawn (const_py self_pay_draw) zero_np)
    as (s & Hrun & HT & _ & _ & _ & (n & cs & rs & x & El & _ & _ & Hr & _)).
  remember RECRUITED_MULES as R eqn:ER. vm_compute in ER. subst R.
  inversion Hr as [|acc es accs rss Hseg _]; subst. clear Hr.
  destruct Hseg as (Hprod & l1 & l2 & -> & Hlen & Hl2).
  destruct l2 as [|[o r] l2]; [simpl in Hlen; lia|].
  inversion Hl2 as [|? ? [Hd Hacc] _]; subst. cbn [fst snd] in *.
  destruct Hd as (z1 & z2 & z3 & Z1 & Z2 & Z3 & Eo & Hdeb).
  apply const_raws in Z1, Z2, Z3. subst z1 z2 z3.
  assert (Eb : (if Qltb (unit_draw self_pay_draw) (55 # 100)
                then RecruitedCredit else RecruitedDebit) = RecruitedDebit)
    by (vm_compute; reflexivity).
  rewrite Eb in Eo. subst o.
  destruct (Hdeb eq_refl) as (z4 & z5 & Z4 & Z5 & Enth & Eamt).
  apply const_raws in Z4, Z5. subst z4 z5.
  assert (Ei : nth_error (MULE_IDS ++ Py.slice 0 15 EXTERNAL_IDS)
                 (Z.to_nat
                    (self_pay_draw
                     mod Z.of_nat
                           (List.length
                              (MULE_IDS ++ Py.slice 0 15 EXTERNAL_IDS))))
               = Some "MUL00011") by (vm_compute; reflexivity).
  rewrite Ei in Enth. injection Enth as Ecp.
  assert (Hin : In (RecruitedDebit, r) (entries s)).
  { rewrite El. apply in_or_app. right. apply in_or_app. right.
    apply in_or_app. left. apply in_concat_head.
    apply in_or_app. right. now left. }
  exists s, r. split; [exact Hrun|]. split.
  - rewrite HT. change r with (snd (RecruitedDebit, r)). now apply in_map.
  - rewrite Forall_forall in Hprod.
    destruct (Hprod (RecruitedDebit, r)) as (_ & Hinv & _).
    { apply in_or_app. right. now left. }
    split; [exact Hinv|]. split; [exact Hacc|]. split; [now symmetry|].
    exact Eamt.
Qed.

(** The list a recruited mule draws the receiver of a Phase-2 debit
    from holds the mule itself. *)
Lemma recruited_receivers_hold_self acc :
  In acc RECRUITED_MULES ->
  In acc (MULE_IDS ++ Py.slice 0 15 EXTERNAL_IDS).
Proof.
  intros H. apply in_or_app. left. now apply RECRUITED_is_mule.
Qed.

(** C7 fails on the code.  In the run in which every raw draw is
    [self_pay_draw], the recruited mule MUL00011 emits a Phase-2 debit,
    labelled as mule behaviour, whose counterparty is MUL00011 itself. *)
Theorem recruited_debit_to_itself :
  exists s r,
    run (const_py self_pay_draw) zero_np = Returns tt s
    /\ In r (transactions s)
    /\ In (account_id r) RECRUITED_MULES
    /\ txn_type r = "debit" /\ is_mule r = 1 /\ mule_type r = "recruited"
    /\ counterparty r = account_id r.
Proof.
  destruct recruited_row_at_const_draws
    as (s & r & Hrun & Hin & Hinv & Hacc & Hcp & _).
  exists s, r. split; [exact Hrun|]. split; [exact Hin|].
  destruct Hinv as [Ha Hf Hs _ Hd _ _ _].
  cbn [accounts_of mule_rule subtype_of directions_of In] in *.
  split; [exact Ha|]. split; [destruct Hd as [Hd|[]]; now symmetry|].
  split; [exact Hf|]. split; [exact Hs|]. congruence.
Qed.

(** C6 fails on the code.  In the same run that debit carries the
    amount 93660.9375 = 99375 * 0.9425, the product of the drawn amount
    and the drawn factor, which no rounding was applied to: it has four
    decimal places and is not a multiple of 1000. *)
Theorem recruited_debit_amount_unrounded :
  exists s r,
    run (const_py self_pay_draw) zero_np = Returns tt s
    /\ In r (transactions s)
    /\ In (account_id r) RECRUITED_MULES /\ txn_type r = "debit"
    /\ (amount r == 1498575 # 16)%Q
    /\ ~ two_places (amount r)
    /\ ~ (exists k : Z, amount r == inject_Z (1000 * k))%Q.
Proof.
  destruct recruited_row_at_const_draws
    as (s & r & Hrun & Hin & Hinv & Hacc & Hcp & Eamt).
  exists s, r. split; [exact Hrun|]. split; [exact Hin|].
  destruct Hinv as [Ha _ _ _ Hd _ _ _].
  cbn [accounts_of directions_of In] in *.
  split; [exact Ha|]. split; [destruct Hd as [Hd|[]]; now symmetry|].
  assert (Ev : (amount r == 1498575 # 16)%Q)
    by (rewrite Eamt; apply Qeq_bool_iff; vm_compute; reflexivity).
  split; [exact Ev|]. split.
  - unfold two_places. rewrite Eamt. intros H.
    apply Qeq_bool_iff in H. vm_compute in H. discriminate H.
  - intros [k Hk]. rewrite Ev in Hk. unfold Qeq in Hk. simpl in Hk. lia.
Qed.

(* ===================================================================== *)
(** ** Order of timestamps *)
(* ===================================================================== *)

(** The order of the rendered timestamps (the order [sort_values] works
    with) is the chronological order. *)

Lemma ascii_compare_refl c : Ascii.compare c c = Eq.
Proof.
  pose proof (Ascii.compare_antisym c c) as H.
  destruct (Ascii.compare c c); simpl in H; congruence.
Qed.

Lemma compare_same_head c s1 s2 :
  String.compare (String c s1) (String c s2) = String.compare s1 s2.
Proof. cbn [String.compare]. now rewrite ascii_compare_refl. Qed.

(** Comparison of two two-digit renderings, digit by digit. *)
Definition cmp2 (a b : Z) : comparison :=
  match Ascii.compare (digit_char (a / 10)) (digit_char (b / 10)) with
  | Eq => Ascii.compare (digit_char (a mod 10)) (digit_char (b mod 10))
  | c => c
  end.

Definition comparison_eqb (c d : comparison) : bool :=
  match c, d with
  | Eq, Eq | Lt, Lt | Gt, Gt => true
  | _, _ => false
  end.

Lemma cmp2_compare a b :
  0 <= a < 100 -> 0 <= b < 100 -> cmp2 a b = (a ?= b).
Proof.
  intros Ha Hb.
  assert (H : comparison_eqb (cmp2 a b) (a ?= b) = true).
  { revert b Hb. apply range_forallb.
    revert a Ha.
    apply (range_forallb
             (fun a => forallb (fun b => comparison_eqb (cmp2 a b) (a ?= b))
                               (Py.range 0 100))).
    vm_compute. reflexivity. }
  destruct (cmp2 a b), (a ?= b); simpl in H; congruence.
Qed.

Lemma compare_two a b r1 r2 :
  0 <= a < 100 -> 0 <= b < 100 ->
  String.compare (two a ++ r1) (two b ++ r2)
  = match a ?= b with
    | Eq => String.compare r1 r2
    | c => c
    end.
Proof.
  intros Ha Hb. rewrite <- (cmp2_compare a b Ha Hb).
  unfold two, cmp2. cbn [append String.compare].
  destruct (Ascii.compare (digit_char (a / 10)) (digit_char (b / 10)));
    [|reflexivity|reflexivity].
  destruct (Ascii.compare (digit_char (a mod 10)) (digit_char (b mod 10)));
    reflexivity.
Qed.

Lemma compare_two_end a b :
  0 <= a < 100 -> 0 <= b < 100 ->
  String.compare (two a) (two b) = (a ?= b).
Proof.
  intros Ha Hb. rewrite <- (cmp2_compare a b Ha Hb).
  unfold two, cmp2. cbn [String.compare].
  destruct (Ascii.compare (digit_char (a / 10)) (digit_char (b / 10)));
    [|reflexivity|reflexivity].
  destruct (Ascii.compare (digit_char (a mod 10)) (digit_char (b mod 10)));
    reflexivity.
Qed.

(** A number ordered as the calendar fields are, within one year. *)
Definition stamp_key (ts : datetime) : Z :=
  (((month ts * 100 + day ts) * 100 + hour ts) * 100 + minute ts) * 100
  + second ts.

Lemma compare_strftime_2024 m1 d1 h1 n1 s1 m2 d2 h2 n2 s2 :
  0 <= m1 < 100 -> 0 <= d1 < 100 -> 0 <= h1 < 100 -> 0 <= n1 < 100 ->
  0 <= s1 < 100 ->
  0 <= m2 < 100 -> 0 <= d2 < 100 -> 0 <= h2 < 100 -> 0 <= n2 < 100 ->
  0 <= s2 < 100 ->
  String.compare (strftime (mk_datetime 2024 m1 d1 h1 n1 s1))
                 (strftime (mk_datetime 2024 m2 d2 h2 n2 s2))
  = (stamp_key (mk_datetime 2024 m1 d1 h1 n1 s1)
     ?= stamp_key (mk_datetime 2024 m2 d2 h2 n2 s2)).
Proof.
  intros. rewrite !strftime_2024 by assumption.
  cbn [append]. rewrite !compare_same_head.
  rewrite compare_two by assumption. rewrite !compare_same_head.
  rewrite compare_two by assumption. rewrite !compare_same_head.
  rewrite compare_two by assumption. rewrite !compare_same_head.
  rewrite compare_two by assumption. rewrite !compare_same_head.
  rewrite compare_two_end by assumption.
  unfold stamp_key. cbn [month day hour minute second String.compare].
  symmetry.
  destruct (Z.compare_spec m1 m2); [|apply Z.compare_lt_iff; lia
                                    |apply Z.compare_gt_iff; lia].
  destruct (Z.compare_spec d1 d2); [|apply Z.compare_lt_iff; lia
                                    |apply Z.compare_gt_iff; lia].
  destruct (Z.compare_spec h1 h2); [|apply Z.compare_lt_iff; lia
                                    |apply Z.compare_gt_iff; lia].
  destruct (Z.compare_spec n1 n2); [|apply Z.compare_lt_iff; lia
                                    |apply Z.compare_gt_iff; lia].
  destruct (Z.compare_spec s1 s2); [apply Z.compare_eq_iff; lia
                                   |apply Z.compare_lt_iff; lia
                                   |apply Z.compare_gt_iff; lia].
Qed.

Ltac calendar_constants :=
  repeat match goal with
         | H : context [days_in_month 2024 ?m] |- _ =>
             let v := eval vm_compute in (days_in_month 2024 m) in
             change (days_in_month 2024 m) with v in H
         | |- context [days_before_month 2024 ?m] =>
             let v := eval vm_compute in (days_before_month 2024 m) in
             change (days_before_month 2024 m) with v
         | |- context [days_before_year 2024] =>
             let v := eval vm_compute in (days_before_year 2024) in
             change (days_before_year 2024) with v
         end.

Lemma stamp_key_chronological night1 lo1 hi1 night2 lo2 hi2 t1 t2 :
  ts_ok night1 lo1 hi1 t1 -> ts_ok night2 lo2 hi2 t2 ->
  (stamp_key t1 <= stamp_key t2 <-> Datetime.le t1 t2).
Proof.
  intros [Y1 M1 D1 V1 _ H1 N1 S1] [Y2 M2 D2 V2 _ H2 N2 S2].
  destruct t1 as [y1 m1 d1 h1 n1 s1], t2 as [y2 m2 d2 h2 n2 s2].
  cbn [year month day hour minute second] in *. subst y1 y2.
  assert (Hh1 : 0 <= h1 <= 23) by lia. assert (Hh2 : 0 <= h2 <= 23) by lia.
  clear H1 H2.
  unfold Datetime.le, seconds_of, toordinal, ymd2ord, stamp_key.
  cbn [year month day hour minute second].
  assert (C1 : m1 = 1 \/ m1 = 2 \/ m1 = 3 \/ m1 = 4 \/ m1 = 5 \/ m1 = 6)
    by lia.
  assert (C2 : m2 = 1 \/ m2 = 2 \/ m2 = 3 \/ m2 = 4 \/ m2 = 5 \/ m2 = 6)
    by lia.
  destruct C1 as [-> | [-> | [-> | [-> | [-> | ->]]]]];
    destruct C2 as [-> | [-> | [-> | [-> | [-> | ->]]]]];
    calendar_constants; lia.
Qed.

Lemma leb_strftime_chronological night1 lo1 hi1 night2 lo2 hi2 t1 t2 :
  ts_ok night1 lo1 hi1 t1 -> ts_ok night2 lo2 hi2 t2 ->
  (String.leb (strftime t1) (strftime t2) = true <-> Datetime.le t1 t2).
Proof.
  intros O1 O2.
  rewrite <- (stamp_key_chronological _ _ _ _ _ _ _ _ O1 O2).
  destruct O1 as [Y1 M1 D1 _ _ H1 N1 S1], O2 as [Y2 M2 D2 _ _ H2 N2 S2].
  destruct t1 as [y1 m1 d1 h1 n1 s1], t2 as [y2 m2 d2 h2 n2 s2].
  cbn [year month day hour minute second] in *. subst y1 y2.
  unfold String.leb. rewrite compare_strftime_2024 by lia.
  destruct (Z.compare_spec (stamp_key (mk_datetime 2024 m1 d1 h1 n1 s1))
                           (stamp_key (mk_datetime 2024 m2 d2 h2 n2 s2)));
    split; intros; try lia; try reflexivity; discriminate.
Qed.

(* ===================================================================== *)
(** ** Order of the data frame *)
(* ===================================================================== *)

Definition timestamp_le (a b : txn) : Prop :=
  String.leb (timestamp a) (timestamp b) = true.

(** The same order read on the parsed timestamps. *)
Definition chronological (a b : txn) : Prop :=
  exists ta tb,
    strptime (timestamp a) = Some ta
    /\ strptime (timestamp b) = Some tb
    /\ Datetime.le ta tb.

Lemma chronological_trans a b c :
  chronological a b -> chronological b c -> chronological a c.
Proof.
  intros (ta & tb & Ea & Eb & Hab) (tb' & tc & Eb' & Ec & Hbc).
  rewrite Eb in Eb'. injection Eb' as <-.
  exists ta, tc. unfold Datetime.le in *. repeat split; auto; lia.
Qed.

Lemma timestamp_le_chronological o1 r1 o2 r2 :
  row_inv o1 r1 -> row_inv o2 r2 -> timestamp_le r1 r2 -> chronological r1 r2.
Proof.
  intros [_ _ _ (t1 & E1 & O1) _ _ _ _] [_ _ _ (t2 & E2 & O2) _ _ _ _] Hle.
  unfold timestamp_le in Hle. rewrite E1, E2 in Hle.
  exists t1, t2. rewrite E1, E2.
  split; [exact (ts_ok_parses _ _ _ _ O1)|].
  split; [exact (ts_ok_parses _ _ _ _ O2)|].
  exact (proj1 (leb_strftime_chronological _ _ _ _ _ _ _ _ O1 O2) Hle).
Qed.

Lemma Sorted_strengthen {A} (P : A -> Prop) (R R' : A -> A -> Prop) l :
  (forall a b, P a -> P b -> R a b -> R' a b) ->
  Forall P l -> Sorted R l -> Sorted R' l.
Proof.
  intros Himp HP HS. induction HS as [|a l HS IH Hhd]; [constructor|].
  inversion HP as [|? ? Pa Pl]; subst.
  constructor; [exact (IH Pl)|].
  destruct Hhd as [|b l Rab]; constructor.
  inversion Pl; subst. auto.
Qed.

(** X30.  Every run returns, and the data frame holds exactly the emitted
    rows, in ascending order of the timestamp column, which is also their
    chronological order: the timestamps are written year first and
    zero-padded, all within one year, so that the order of the strings is
    the order in time.  The relative order of rows with equal timestamps
    is left to the sorting routine. *)
Theorem dataframe_sorted_by_timestamp `{Pandas} (py : N -> Z) (np : N -> Q) :
  exists s,
    run py np = Returns tt s
    /\ Permutation (transactions s) (dataframe s)
    /\ Sorted timestamp_le (dataframe s)
    /\ StronglySorted chronological (dataframe s).
Proof.
  destruct (dataframe_rows py np) as (s & Hrun & _ & Hrows).
  exists s. split; [exact Hrun|].
  split; [apply sort_values_perm|].
  split; [apply sort_values_sorted|].
  apply Sorted_StronglySorted; [exact chronological_trans|].
  apply (Sorted_strengthen (fun r => exists o, row_inv o r) timestamp_le).
  - intros a b (oa & Ha) (ob & Hb).
    exact (timestamp_le_chronological _ _ _ _ Ha Hb).
  - eapply Forall_impl; [|exact Hrows].
    intros r (o & _ & Hr). exists o. exact Hr.
  - apply sort_values_sorted.
Qed.

(* ===================================================================== *)
(** ** Seeding and independent runs *)
(* ===================================================================== *)

(** What differs between two runs of the script is the state in which the
    process hands over the two generators: [random] and [numpy.random]
    initialise themselves from the entropy of the operating system when
    they are imported, so that an unseeded generator delivers other draws
    in every run.  [random.seed(a)] and [np.random.seed(a)] replace that
    state by the one the seed [a] determines. *)

(** The state of the generators when the script starts. *)
Record process := mk_process {
  os_py : N -> Z;
  os_py_pos : N;
  os_np : N -> Q;
  os_np_pos : N
}.

(** The state of the script when it starts in the process [p]: the
    generators as the process has them, nothing emitted, the counter at
    1 and [amount] unbound. *)
Definition start (p : process) : state :=
  mk_state [] 1 None (os_py p) (os_py_pos p) (os_np p) (os_np_pos p) [].

Section Seeding.

(** The raw draws a generator delivers after it has been seeded with
    [a]: the libraries document that the seed fixes the sequence. *)
Variable mt_stream : Z -> N -> Z.
Variable np_stream : Z -> N -> Q.

(** [random.seed(a)] *)
Definition random_seed (a : Z) : M unit := fun s =>
  Returns tt
    (mk_state (transactions s) (txn_counter s) (var_amount s)
              (mt_stream a) 0%N (np_draws s) (np_pos s) (origins s)).

(** [np.random.seed(a)] *)
Definition np_random_seed (a : Z) : M unit := fun s =>
  Returns tt
    (mk_state (transactions s) (txn_counter s) (var_amount s)
              (py_draws s) (py_pos s) (np_stream a) 0%N (origins s)).

(** The script from its first line: both generators are seeded with 42
    before anything is drawn. *)
Definition script : M unit :=
  np_random_seed 42 ;;; random_seed 42 ;;; generate.

(** The content of [transactions.csv] written by a run of the script in
    the process [p]. *)
Definition script_output `{Pandas} (p : process) : exn + string :=
  match script (start p) with
  | Returns _ s => inr (to_csv (dataframe s))
  | Raises e => inl e
  end.

Lemma script_from_seeds p :
  script (start p) = run (mt_stream 42) (np_stream 42).
Proof. reflexivity. Qed.

Lemma script_output_from_seeds `{Pandas} (p : process) :
  script_output p = main (mt_stream 42) (np_stream 42).
Proof. unfold script_output, main. now rewrite script_from_seeds. Qed.

End Seeding.

(** The first row a run emits, with the draws that fix its timestamp. *)
Lemma first_row_daytime py np :
  exists s r rest ts,
    run py np = Returns tt s
    /\ transactions s = r :: rest
    /\ daytime_ts py 0 TOTAL_DAYS ts
    /\ timestamp r = strftime ts.
Proof.
  destruct (run_drawn py np)
    as (s & Hrun & HT & _ & _ & _ & (n & cs & rs & x & El & Hn & _)).
  destruct NORMAL_IDS as [|a0 others] eqn:EN;
    [exfalso; apply NORMAL_IDS_nonempty; exact EN|].
  inversion Hn as [|? es ? nss [Hlen Hrows] _]; subst. clear Hn.
  destruct es as [|[o1 r1] es]; [simpl in Hlen; lia|].
  inversion Hrows as [|? ? [_ (t1 & D1 & E1)] _]; subst.
  exists s, r1. eexists. exists t1. split; [exact Hrun|].
  split; [|split; [exact D1 | exact E1]].
  rewrite HT, El. cbn [List.concat app map snd]. reflexivity.
Qed.

Lemma zero_daytime ts :
  daytime_ts zero_py 0 TOTAL_DAYS ts -> ts = mk_datetime 2024 1 1 8 0 0.
Proof.
  intros (z1 & z2 & z3 & z4 & Z1 & Z2 & Z3 & Z4 & E).
  apply zero_raws in Z1, Z2, Z3, Z4. subst. vm_compute in E. congruence.
Qed.

Lemma one_daytime ts :
  daytime_ts (const_py 1) 0 TOTAL_DAYS ts -> ts = mk_datetime 2024 1 2 9 1 1.
Proof.
  intros (z1 & z2 & z3 & z4 & Z1 & Z2 & Z3 & Z4 & E).
  apply const_raws in Z1, Z2, Z3, Z4. subst. vm_compute in E. congruence.
Qed.

Lemma start_fresh py np : start (mk_process py 0 np 0) = initial py np.
Proof. reflexivity. Qed.

Lemma run_eq py np : run py np = generate (initial py np).
Proof. reflexivity. Qed.

(** The seeding is what makes the runs agree: were the generation
    started on the generators as two processes have them, the two runs
    could emit different rows. *)
Lemma unseeded_runs_can_differ :
  exists p1 p2 s1 s2,
    generate (start p1) = Returns tt s1
    /\ generate (start p2) = Returns tt s2
    /\ transactions s1 <> transactions s2.
Proof.
  destruct (first_row_daytime zero_py zero_np)
    as (s1 & r1 & l1 & t1 & Hrun1 & E1 & D1 & T1).
  destruct (first_row_daytime (const_py 1) zero_np)
    as (s2 & r2 & l2 & t2 & Hrun2 & E2 & D2 & T2).
  exists (mk_process zero_py 0 zero_np 0),
         (mk_process (const_py 1) 0 zero_np 0), s1, s2.
  rewrite !start_fresh, <- !run_eq.
  split; [exact Hrun1|]. split; [exact Hrun2|].
  rewrite E1, E2. intros E. injection E as E _.
  apply (f_equal timestamp) in E. rewrite T1, T2 in E.
  rewrite (zero_daytime _ D1), (one_daytime _ D2) in E.
  vm_compute in E. discriminate E.
Qed.

Lemma to_csv_header `{Pandas} (df : list txn) :
  String.prefix csv_header (to_csv df) = true.
Proof.
  unfold to_csv. generalize (String.concat "" (map csv_row df)).
  generalize csv_header. intros h; induction h as [|c h IH]; intros t.
  - destruct t; reflexivity.
  - cbn. destruct (ascii_dec c c) as [_|N]; [apply IH | now elim N].
Qed.

Lemma run_streams py np s :
  run py np = Returns tt s -> py_draws s = py /\ np_draws s = np.
Proof.
  intros Hrun.
  destruct (wp_returns _ _ _ (generate_spec (initial py np)))
    as ([] & s' & Hrun' & l & E & _).
  unfold run in Hrun. rewrite Hrun in Hrun'. injection Hrun' as <-.
  split; [exact (ext_py _ _ _ E) | exact (ext_np _ _ _ E)].
Qed.

(** C5.  Two independent runs of the script write the same file, byte
    for byte.  Whatever state the two generators have in the two
    processes, the script seeds both with 42 before its first draw, so
    that the file does not depend on the process.  Each run returns;
    the file it writes begins with the header line and renders the rows
    it emitted, of which there are some, in the order of the data
    frame. *)
Theorem seeded_runs_write_the_same_file `{Pandas}
    (mt_stream : Z -> N -> Z) (np_stream : Z -> N -> Q) :
  (forall p1 p2 : process,
      script_output mt_stream np_stream p1
      = script_output mt_stream np_stream p2)
  /\ forall p : process,
       exists s,
         script mt_stream np_stream (start p) = Returns tt s
         /\ script_output mt_stream np_stream p = inr (to_csv (dataframe s))
         /\ py_draws s = mt_stream 42 /\ np_draws s = np_stream 42
         /\ transactions s <> []
         /\ Permutation (transactions s) (dataframe s)
         /\ String.prefix csv_header (to_csv (dataframe s)) = true.
Proof.
  split.
  - intros p1 p2. now rewrite !script_output_from_seeds.
  - intros p.
    destruct (first_row_daytime (mt_stream 42) (np_stream 42))
      as (s & r & rest & ts & Hrun & E & _).
    destruct (run_streams _ _ _ Hrun) as [Hpy Hnp].
    exists s. rewrite script_from_seeds. split; [exact Hrun|].
    split; [rewrite script_output_from_seeds; unfold main; now rewrite Hrun|].
    split; [|split].
    + exact Hpy.
    + exact Hnp.
    + split; [rewrite E; discriminate|].
      split; [apply sort_values_perm | apply to_csv_header].
Qed.

(* ===================================================================== *)
(** * Further properties of the generator *)
(* ===================================================================== *)

(** ** Rounding keeps bounds *)

Lemma round_ge (k : Z) (x : Q) : (inject_Z k <= x)%Q -> k <= Py.round x.
Proof.
  intros H. unfold Py.round. cbv zeta.
  assert (F : k <= Qfloor x).
  { rewrite <- (Qfloor_Z k). now apply Qfloor_resp_le. }
  destruct (Qcompare _ _); [destruct (Z.even _)| |]; lia.
Qed.

Lemma round_le (k : Z) (x : Q) : (x <= inject_Z k)%Q -> Py.round x <= k.
Proof.
  intros H. unfold Py.round. cbv zeta.
  assert (F : Qfloor x <= k).
  { rewrite <- (Qfloor_Z k). now apply Qfloor_resp_le. }
  destruct (Z.eq_dec (Qfloor x) k) as [E|N].
  - assert (L : ((x - inject_Z (Qfloor x)) ?= 1 # 2)%Q = Lt).
    { rewrite E. apply (proj1 (Qlt_alt _ _)).
      generalize dependent (inject_Z k). intros q Hq. lra. }
    rewrite L. lia.
  - destruct (Qcompare _ _); [destruct (Z.even _)| |]; lia.
Qed.

Lemma smurf_between (kl kh : Z) (x : Q) :
  (inject_Z (kl * 1000) <= x)%Q -> (x <= inject_Z (kh * 1000))%Q ->
  (inject_Z (kl * 1000) <= smurf x)%Q /\ (smurf x <= inject_Z (kh * 1000))%Q.
Proof.
  intros H1 H2. unfold smurf.
  assert (L : kl <= Py.round (x / 1000)).
  { apply round_ge. apply Qle_shift_div_l; [reflexivity|].
    rewrite inject_Z_mult in H1. exact H1. }
  assert (U : Py.round (x / 1000) <= kh).
  { apply round_le. apply Qle_shift_div_r; [reflexivity|].
    rewrite inject_Z_mult in H2. exact H2. }
  rewrite <- !Zle_Qle. lia.
Qed.

Lemma round2_between (a b : Z) (x : Q) :
  (inject_Z a <= x)%Q -> (x <= inject_Z b)%Q ->
  (inject_Z a <= Py.round2 x)%Q /\ (Py.round2 x <= inject_Z b)%Q.
Proof.
  intros H1 H2. unfold Py.round2.
  assert (L : a * 100 <= Py.round (x * 100)).
  { apply round_ge. rewrite inject_Z_mult.
    apply Qmult_le_compat_r; [exact H1 | discriminate]. }
  assert (U : Py.round (x * 100) <= b * 100).
  { apply round_le. rewrite inject_Z_mult.
    apply Qmult_le_compat_r; [exact H2 | discriminate]. }
  rewrite Zle_Qle, inject_Z_mult in L, U.
  split.
  - apply Qle_shift_div_l; [reflexivity | exact L].
  - apply Qle_shift_div_r; [reflexivity | exact U].
Qed.

(** Whatever the draw, [round_amount] keeps its argument between two
    bounds that are multiples of 1000. *)
Lemma rounded_between (z kl kh : Z) (x : Q) :
  (inject_Z (kl * 1000) <= x)%Q -> (x <= inject_Z (kh * 1000))%Q ->
  (inject_Z (kl * 1000) <= rounded z x)%Q
  /\ (rounded z x <= inject_Z (kh * 1000))%Q.
Proof.
  intros H1 H2. destruct (rounded_cases z x) as [-> | ->].
  - now apply smurf_between.
  - now apply round2_between.
Qed.

Lemma unit_draw_range z : (0 <= unit_draw z)%Q /\ (unit_draw z < 1)%Q.
Proof.
  assert (Hm : 0 <= z mod 2 ^ 53 < 2 ^ 53)
    by (apply Z.mod_pos_bound; reflexivity).
  unfold unit_draw, Qle, Qlt. simpl. lia.
Qed.

(** ** [random.sample] selects distinct positions *)

Section SampleDistinct.
Import Random.
Context {A : Type}.

Lemma last_default (l : list A) (d d' : A) : l <> [] -> last l d = last l d'.
Proof.
  induction l as [|a l IH]; [congruence|]. intros _.
  destruct l as [|b l]; [reflexivity|]. apply IH. discriminate.
Qed.

Lemma set_nth_nonempty (i : nat) (x : A) (l : list A) :
  l <> [] -> set_nth i x l <> [].
Proof. destruct l, i; simpl; congruence. Qed.

(** One selection step: the element picked and the pool left are a
    rearrangement of the pool. *)
Lemma sample_step_perm (pool : list A) (j : nat) (d : A) :
  (j < List.length pool)%nat ->
  Permutation pool
    (nth j pool d :: removelast (set_nth j (last pool d) pool)).
Proof.
  revert j. induction pool as [|a pool IH]; intros j Hj; [simpl in Hj; lia|].
  destruct pool as [|b pool].
  - destruct j as [|j]; [|simpl in Hj; lia]. simpl. reflexivity.
  - destruct j as [|j].
    + cbn [nth set_nth]. constructor.
      change (last (a :: b :: pool) d) with (last (b :: pool) d).
      assert (N : b :: pool <> []) by discriminate.
      rewrite (app_removelast_last d N) at 1.
      cbn [removelast]. apply Permutation_sym, Permutation_cons_append.
    + change (last (a :: b :: pool) d) with (last (b :: pool) d).
      cbn [nth]. change (set_nth (S j) (last (b :: pool) d) (a :: b :: pool))
        with (a :: set_nth j (last (b :: pool) d) (b :: pool)).
      assert (N : set_nth j (last (b :: pool) d) (b :: pool) <> [])
        by (apply set_nth_nonempty; discriminate).
      set (rest := set_nth j (last (b :: pool) d) (b :: pool)) in *.
      assert (R : removelast (a :: rest) = a :: removelast rest)
        by (destruct rest; [congruence | reflexivity]).
      rewrite R.
      eapply Permutation_trans; [|apply perm_swap].
      constructor. apply IH. simpl in *. lia.
Qed.

Lemma wp_sample_loop_distinct (k : nat) (pool : list A) Q s :
  NoDup pool -> (k <= List.length pool)%nat ->
  (forall l s', List.length l = k -> incl l pool -> NoDup l ->
                silent s s' -> Q l s') ->
  wp (sample_loop k pool) Q s.
Proof.
  revert pool Q s. induction k as [|k IH]; intros pool Q s Hnd Hk HQ.
  - apply wp_ret. apply HQ;
      [reflexivity | intros ? [] | constructor | apply silent_refl].
  - destruct pool as [|x pool']; [simpl in Hk; lia|].
    cbn [sample_loop]. set (pool := x :: pool') in *.
    apply wp_bind. apply wp_randbelow; [subst pool; simpl; lia|].
    intros z j s1 _ _ Hj Hs1. apply wp_bind.
    assert (Hp : Permutation pool
                   (nth (Z.to_nat j) pool x
                      :: removelast (set_nth (Z.to_nat j) (last pool x) pool)))
      by (apply sample_step_perm; lia).
    pose proof (Permutation_NoDup Hp Hnd) as Hnd'.
    inversion Hnd' as [|? ? Hnotin Hrest]; subst.
    apply IH.
    + exact Hrest.
    + rewrite removelast_length, set_nth_length. lia.
    + intros l s2 Hl Hincl Hl' Hs2. apply wp_ret. apply HQ.
      * simpl. now rewrite Hl.
      * intros y [<-|Hy].
        -- apply nth_In. lia.
        -- apply (Permutation_in _ (Permutation_sym Hp)). right.
           apply Hincl, Hy.
      * constructor; [|exact Hl']. intros Hin. apply Hnotin, Hincl, Hin.
      * eapply silent_trans; eassumption.
Qed.

Lemma wp_sample_distinct (population : list A) (k : Z) Q s :
  NoDup population ->
  0 <= k <= Z.of_nat (List.length population) ->
  (forall l s', Z.of_nat (List.length l) = k -> incl l population ->
                NoDup l -> silent s s' -> Q l s') ->
  wp (sample population k) Q s.
Proof.
  intros Hnd Hk HQ. unfold sample.
  destruct (Z.ltb_spec k 0); [lia|].
  destruct (Z.ltb_spec (Z.of_nat (List.length population)) k); [lia|].
  simpl. apply wp_sample_loop_distinct; [exact Hnd | lia|].
  intros l s' Hl Hincl Hl' Hs. apply HQ; auto. lia.
Qed.

End SampleDistinct.

(** ** Amounts of the mule rules *)

(** The range of the amounts a rule emits, for the rules that draw their
    amount uniformly: the bounds of the draw, scaled by the bounds of the
    forwarding factor where there is one, and widened to the nearest
    multiples of 1000 where [round_amount] is applied afterwards. *)
Definition amount_range (o : rule) : option (Q * Q) :=
  match o with
  | ComplicitCredit => Some (20000, 200000)%Q
  | ComplicitDebit => Some (18000, 198000)%Q
  | RecruitedCredit => Some (15000, 150000)%Q
  | RecruitedDebit => Some (13200, 147000)%Q
  | ExploitedPhase2 => Some (50000, 500000)%Q
  | NormalActivity | RecruitedPhase1 | ExploitedPhase1 => None
  end.

Definition amount_ok (o : rule) (r : txn) : Prop :=
  match amount_range o with
  | Some (lo, hi) => (lo <= amount r)%Q /\ (amount r <= hi)%Q
  | None => True
  end.

(** A row of account [acc] with the invariant and the amount range of the
    rule that emitted it. *)
Definition census_row (acc : string) (e : entry) : Prop :=
  row_inv (fst e) (snd e) /\ account_id (snd e) = acc
  /\ amount_ok (fst e) (snd e).

Lemma rounded_range (z kl kh : Z) (x lo hi : Q) :
  lo = inject_Z (kl * 1000) -> hi = inject_Z (kh * 1000) ->
  (lo <= x)%Q -> (x <= hi)%Q ->
  (lo <= rounded z x)%Q /\ (rounded z x <= hi)%Q.
Proof. intros -> ->. apply rounded_between. Qed.

Lemma credit_amount_range z1 z2 :
  (20000 <= credit_amount z1 z2)%Q /\ (credit_amount z1 z2 <= 200000)%Q.
Proof.
  unfold credit_amount. destruct (unit_draw_range z1) as [U0 U1].
  apply (rounded_range z2 20 200); try reflexivity;
    generalize dependent (unit_draw z1); intros u U0 U1; lra.
Qed.

Lemma skim_range a x :
  (20000 <= a)%Q -> (a <= 200000)%Q -> skim_of a x ->
  (18000 <= x)%Q /\ (x <= 198000)%Q.
Proof.
  intros A1 A2 (f & F1 & F2 & Hx).
  assert (P1 : (18000 <= a * f)%Q) by nra.
  assert (P2 : (a * f <= 198000)%Q) by nra.
  destruct Hx as [-> | ->].
  - apply (smurf_between 18 198); assumption.
  - apply (round2_between 18000 198000); assumption.
Qed.

(** ** The emitters, with amounts and receivers *)

Lemma normal_txn_census acc s :
  In acc NORMAL_IDS ->
  wp (normal_txn acc)
     (fun _ s' => exists e, extends s s' [e]
                            /\ (fst e = NormalActivity /\ census_row acc e)
                            /\ True) s.
Proof.
  intros Hacc. eapply wp_mono; [apply normal_txn_spec, Hacc|].
  intros _ s' (r & E & Hr & Ha & _). exists (NormalActivity, r).
  unfold census_row, amount_ok. cbn [fst snd amount_range].
  split; [exact E|]. split; [|exact I]. split; [reflexivity|].
  split; [exact Hr|]. split; [exact Ha | exact I].
Qed.

(** [amount] holds a value a credit of a complicit mule can have. *)
Definition holds_credit (s : state) : Prop :=
  exists a, var_amount s = Some a /\ (20000 <= a)%Q /\ (a <= 200000)%Q.

Definition credit_row (acc sender : string) (e : entry) : Prop :=
  fst e = ComplicitCredit /\ census_row acc e
  /\ counterparty (snd e) = sender /\ txn_type (snd e) = "credit".

Definition debit_row (acc : string) (receivers : list string) (e : entry)
  : Prop :=
  fst e = ComplicitDebit /\ census_row acc e
  /\ In (counterparty (snd e)) receivers /\ txn_type (snd e) = "debit".

Lemma complicit_credit_census acc sender s :
  In acc COMPLICIT_MULES -> In sender NORMAL_IDS ->
  wp (complicit_credit acc sender (TOTAL_DAYS - 60))
     (fun _ s' => exists e, extends s s' [e] /\ credit_row acc sender e
                            /\ holds_credit s') s.
Proof.
  intros Hacc Hsender.
  eapply wp_mono; [apply complicit_credit_spec; eassumption|].
  intros _ s' (r & E & Hr & Ha & Hc & Ht & Hv & z1 & z2 & _ & _ & Hz).
  pose proof (credit_amount_range z1 z2) as Hrange. rewrite <- Hz in Hrange.
  exists (ComplicitCredit, r). split; [exact E|]. split.
  - unfold credit_row, census_row, amount_ok. cbn [fst snd amount_range].
    split; [reflexivity|]. split; [|split; [exact Hc | exact Ht]].
    split; [exact Hr|]. split; [exact Ha | exact Hrange].
  - exists (amount r). split; [exact Hv | exact Hrange].
Qed.

Lemma complicit_debit_census acc receivers s :
  In acc COMPLICIT_MULES ->
  receivers <> [] -> incl receivers (Py.slice 0 20 EXTERNAL_IDS) ->
  holds_credit s ->
  wp (complicit_debit acc receivers (TOTAL_DAYS - 60))
     (fun _ s' => exists e, extends s s' [e] /\ debit_row acc receivers e
                            /\ holds_credit s') s.
Proof.
  intros Hacc Hne Hincl (a & Hv & A1 & A2).
  eapply wp_mono; [apply (complicit_debit_spec acc receivers a); eassumption|].
  intros _ s' (r & E & Hr & Ha & Hc & Ht & Hk & Hv' & _).
  exists (ComplicitDebit, r). split; [exact E|]. split.
  - unfold debit_row, census_row, amount_ok. cbn [fst snd amount_range].
    split; [reflexivity|]. split; [|split; [exact Hc | exact Ht]].
    split; [exact Hr|]. split; [exact Ha|].
    exact (skim_range _ _ A1 A2 Hk).
  - exists a. split; [exact Hv'|]. split; [exact A1 | exact A2].
Qed.

Lemma recruited_phase1_census acc s :
  In acc RECRUITED_MULES ->
  wp (recruited_phase1 acc)
     (fun _ s' => exists e, extends s s' [e]
                            /\ (fst e = RecruitedPhase1 /\ census_row acc e)
                            /\ True) s.
Proof.
  intros Hacc. eapply wp_mono; [apply recruited_phase1_spec, Hacc|].
  intros _ s' (r & E & Hr & Ha). exists (RecruitedPhase1, r).
  unfold census_row, amount_ok. cbn [fst snd amount_range].
  split; [exact E|]. split; [|exact I]. split; [reflexivity|].
  split; [exact Hr|]. split; [exact Ha | exact I].
Qed.

(** A Phase-2 row of a recruited mule: a credit from one of its handlers
    or a debit. *)
Definition recruited_active (acc : string) (handlers : list string)
    (e : entry) : Prop :=
  census_row acc e
  /\ ((fst e = RecruitedCredit /\ In (counterparty (snd e)) handlers)
      \/ fst e = RecruitedDebit).

Lemma recruited_phase2_census acc handlers s :
  In acc RECRUITED_MULES ->
  handlers <> [] -> incl handlers (Py.slice 20 35 EXTERNAL_IDS) ->
  wp (recruited_phase2 acc handlers)
     (fun _ s' => exists e, extends s s' [e]
                            /\ recruited_active acc handlers e /\ True) s.
Proof.
  intros Hacc Hne Hincl. unfold recruited_phase2.
  wp_step. wp_head. intros z1 u s2 Z1 Eu U1 U2 S2.
  wp_head. intros z2 a s3 Z2 Ea S3.
  assert (Ra : (15000 <= a)%Q /\ (a <= 150000)%Q).
  { rewrite Ea. apply (rounded_range z2 15 150); auto; reflexivity. }
  wp_step. wp_head. intros z3 p s5 Z3 Ep P1 P2 S5.
  destruct (Qltb p (55 # 100)) eqn:Eb.
  - wp_head; [exact Hne|]. intros z4 sender s6 Z4 Enth Hin S6.
    do 2 wp_step.
    eexists (RecruitedCredit, _). split; [chain|]. split; [|exact I].
    unfold recruited_active, census_row, amount_ok.
    cbn [fst snd amount_range].
    split; [split; [row_inv_fields | split; [reflexivity | exact Ra]]|].
    left. split; [reflexivity | exact Hin].
  - wp_head. intros z4 receiver s6 Z4 Enth Hin S6.
    wp_head. intros z5 f s7 Z5 Ef F1 F2 S7.
    do 2 wp_step.
    eexists (RecruitedDebit, _). split; [chain|]. split; [|exact I].
    unfold recruited_active, census_row, amount_ok.
    cbn [fst snd amount_range amount].
    split; [split; [row_inv_fields | split; [reflexivity|]]|now right].
    destruct Ra as [A1 A2]. clear - A1 A2 F1 F2. split; nra.
Qed.

Lemma exploited_phase1_census acc s :
  In acc EXPLOITED_MULES ->
  wp (exploited_phase1 acc)
     (fun _ s' => exists e, extends s s' [e]
                            /\ (fst e = ExploitedPhase1 /\ census_row acc e)
                            /\ True) s.
Proof.
  intros Hacc. eapply wp_mono; [apply exploited_phase1_spec, Hacc|].
  intros _ s' (r & E & Hr & Ha). exists (ExploitedPhase1, r).
  unfold census_row, amount_ok. cbn [fst snd amount_range].
  split; [exact E|]. split; [|exact I]. split; [reflexivity|].
  split; [exact Hr|]. split; [exact Ha | exact I].
Qed.

(** A post-takeover row of an exploited mule: a debit to one of the
    attacker destinations, dated within the three days that follow the
    takeover day. *)
Definition takeover_row (acc : string) (dests : list string) (takeover : Z)
    (e : entry) : Prop :=
  fst e = ExploitedPhase2 /\ census_row acc e
  /\ In (counterparty (snd e)) dests
  /\ exists ts, timestamp (snd e) = strftime ts
                /\ ts_ok true takeover (takeover + 3) ts.

Lemma exploited_phase2_census acc dests takeover s :
  In acc EXPLOITED_MULES ->
  dests <> [] -> incl dests (skipn 35 EXTERNAL_IDS) ->
  91 <= takeover <= 120 ->
  wp (exploited_phase2 acc dests takeover)
     (fun _ s' => exists e, extends s s' [e]
                            /\ takeover_row acc dests takeover e /\ True) s.
Proof.
  intros Hacc Hne Hincl Hto. unfold exploited_phase2.
  wp_head. intros ts s1 Hts _ S1.
  wp_head. intros z1 u s2 Z1 Eu U1 U2 S2.
  wp_head. intros z2 a s3 Z2 Ea S3.
  assert (Ra : (50000 <= a)%Q /\ (a <= 500000)%Q).
  { rewrite Ea. apply (rounded_range z2 50 500); auto; reflexivity. }
  wp_step. wp_head; [exact Hne|]. intros z4 dest s5 Z4 Enth Hin S5.
  do 2 wp_step.
  eexists (ExploitedPhase2, _). split; [chain|]. split; [|exact I].
  unfold takeover_row, census_row, amount_ok. cbn [fst snd amount_range].
  split; [reflexivity|]. split; [|split; [exact Hin|]].
  - split; [|split; [reflexivity | exact Ra]].
    row_inv_fields. eapply ts_ok_weaken; [| |eassumption]; lia.
  - exists ts. split; [reflexivity | exact Hts].
Qed.

(** ** The segments of the accounts, with their sizes *)

Definition normal_census (acc : string) (es : list entry) : Prop :=
  (200 <= List.length es <= 600)%nat
  /\ Forall (fun e => fst e = NormalActivity /\ census_row acc e) es.

(** The batch of one victim sender: 3 to 8 credits from the sender, then
    as many debits to the criminal receivers of the mule. *)
Definition complicit_batch (acc : string) (receivers : list string)
    (sender : string) (b : list entry * list entry) : Prop :=
  (3 <= List.length (fst b) <= 8)%nat
  /\ List.length (snd b) = List.length (fst b)
  /\ Forall (credit_row acc sender) (fst b)
  /\ Forall (debit_row acc receivers) (snd b).

Definition complicit_census (acc : string) (es : list entry) : Prop :=
  exists receivers senders bs,
    (1 <= List.length receivers <= 2)%nat /\ NoDup receivers
    /\ incl receivers (Py.slice 0 20 EXTERNAL_IDS)
    /\ (8 <= List.length senders <= 20)%nat /\ NoDup senders
    /\ incl senders NORMAL_IDS
    /\ es = flatten bs
    /\ Forall2 (complicit_batch acc receivers) senders bs.

Definition recruited_census (acc : string) (es : list entry) : Prop :=
  exists handlers l1 l2,
    (1 <= List.length handlers <= 3)%nat /\ NoDup handlers
    /\ incl handlers (Py.slice 20 35 EXTERNAL_IDS)
    /\ es = l1 ++ l2
    /\ (50 <= List.length l1 <= 120)%nat
    /\ (80 <= List.length l2 <= 200)%nat
    /\ Forall (fun e => fst e = RecruitedPhase1 /\ census_row acc e) l1
    /\ Forall (recruited_active acc handlers) l2.

Definition exploited_census (acc : string) (es : list entry) : Prop :=
  exists dests takeover l1 l2,
    (2 <= List.length dests <= 4)%nat /\ NoDup dests
    /\ incl dests (skipn 35 EXTERNAL_IDS)
    /\ 91 <= takeover <= 120
    /\ es = l1 ++ l2
    /\ (100 <= List.length l1 <= 250)%nat
    /\ (10 <= List.length l2 <= 30)%nat
    /\ Forall (fun e => fst e = ExploitedPhase1 /\ census_row acc e) l1
    /\ Forall (takeover_row acc dests takeover) l2.

Lemma NORMAL_IDS_NoDup : NoDup NORMAL_IDS.
Proof. apply all_distinct_NoDup. vm_compute. reflexivity. Qed.

Lemma MULE_IDS_NoDup : NoDup MULE_IDS.
Proof. apply all_distinct_NoDup. vm_compute. reflexivity. Qed.

Lemma EXTERNAL_IDS_NoDup : NoDup EXTERNAL_IDS.
Proof. apply all_distinct_NoDup. vm_compute. reflexivity. Qed.

Lemma RECRUITED_NoDup : NoDup RECRUITED_MULES.
Proof. apply all_distinct_NoDup. vm_compute. reflexivity. Qed.

Lemma EXPLOITED_NoDup : NoDup EXPLOITED_MULES.
Proof. apply all_distinct_NoDup. vm_compute. reflexivity. Qed.

Lemma receivers_pool_NoDup : NoDup (Py.slice 0 20 EXTERNAL_IDS).
Proof. apply all_distinct_NoDup. vm_compute. reflexivity. Qed.

Lemma handlers_pool_NoDup : NoDup (Py.slice 20 35 EXTERNAL_IDS).
Proof. apply all_distinct_NoDup. vm_compute. reflexivity. Qed.

Lemma destinations_pool_NoDup : NoDup (skipn 35 EXTERNAL_IDS).
Proof. apply all_distinct_NoDup. vm_compute. reflexivity. Qed.

Lemma normal_account_census acc s :
  In acc NORMAL_IDS ->
  wp (normal_account acc)
     (fun _ s' => exists es, extends s s' es /\ normal_census acc es /\ True) s.
Proof.
  intros Hacc. unfold normal_account.
  wp_head. intros z n s1 _ _ Hn S1.
  eapply wp_mono.
  { apply (wp_for_range (fun _ => True)
             (fun e => fst e = NormalActivity /\ census_row acc e));
      [|exact I].
    intros s2 _. apply normal_txn_census, Hacc. }
  intros _ s2 (l & E & Hlen & Hl & _). exists l.
  split; [chain|]. split; [|exact I]. split; [lia | exact Hl].
Qed.

Lemma complicit_sender_census acc receivers sender s :
  In acc COMPLICIT_MULES ->
  receivers <> [] -> incl receivers (Py.slice 0 20 EXTERNAL_IDS) ->
  In sender NORMAL_IDS ->
  wp (complicit_sender acc receivers (TOTAL_DAYS - 60) sender)
     (fun _ s' => exists es,
          extends s s' es
          /\ (exists b, es = fst b ++ snd b
                        /\ complicit_batch acc receivers sender b)
          /\ True) s.
Proof.
  intros Hacc Hne Hincl Hsender. unfold complicit_sender.
  wp_head. intros z0 v s0 _ _ Hv S0.
  destruct (Z.to_nat v) as [|n] eqn:En; [lia|].
  apply wp_bind. apply wp_for_range_S. apply wp_bind.
  eapply wp_mono; [apply complicit_credit_census; eassumption|].
  intros _ s1 (e1 & E1 & R1 & K1).
  eapply wp_mono.
  { apply (wp_for_range holds_credit (credit_row acc sender)); [|exact K1].
    intros s2 _. apply complicit_credit_census; assumption. }
  intros _ s2 (l & E2 & Hl & Rl & K2).
  eapply wp_mono.
  { apply (wp_for_range holds_credit (debit_row acc receivers)); [|exact K2].
    intros s3 K3. apply complicit_debit_census; assumption. }
  intros _ s3 (ds & E3 & Hds & Rds & _).
  exists ((e1 :: l) ++ ds). split; [|split; [|exact I]].
  - destruct S0 as [S0 _]. eapply extends_nil_l; [exact S0|].
    apply extends_trans with (s2 := s2); [|exact E3].
    exact (extends_trans _ _ _ [e1] l E1 E2).
  - exists (e1 :: l, ds). split; [reflexivity|].
    unfold complicit_batch. cbn [fst snd List.length].
    split; [lia|]. split; [lia|]. split; [now constructor | exact Rds].
Qed.

Lemma Forall2_flatten {X} (P : X -> list entry * list entry -> Prop) xs ess :
  Forall2 (fun x es => exists b, es = fst b ++ snd b /\ P x b) xs ess ->
  exists bs, List.concat ess = flatten bs /\ Forall2 P xs bs.
Proof.
  induction 1 as [|x es xs ess (b & -> & Hb) _ (bs & E & Hbs)].
  - exists []. split; [reflexivity | constructor].
  - exists (b :: bs). split; [|now constructor].
    unfold flatten in *. cbn [List.concat map]. now rewrite E.
Qed.

Lemma complicit_mule_census acc s :
  In acc COMPLICIT_MULES ->
  wp (complicit_mule acc)
     (fun _ s' => exists es, extends s s' es /\ complicit_census acc es
                             /\ True) s.
Proof.
  intros Hacc. unfold complicit_mule.
  wp_head. intros z1 k s1 _ _ Hk S1.
  apply wp_bind. apply wp_sample_distinct; [apply receivers_pool_NoDup | |].
  { change (List.length (Py.slice 0 20 EXTERNAL_IDS)) with 20%nat. lia. }
  intros receivers s2 Hlen Hincl Hnd S2.
  wp_head. intros z3 k' s3 _ _ Hk' S3.
  apply wp_bind. apply wp_sample_distinct; [apply NORMAL_IDS_NoDup | |].
  { rewrite NORMAL_IDS_length. lia. }
  intros senders s4 Hlen' Hincl' Hnd' S4.
  eapply wp_mono.
  { apply (wp_for_each (fun _ => True)
             (fun sender es =>
                exists b, es = fst b ++ snd b
                          /\ complicit_batch acc receivers sender b));
      [|exact I].
    intros sender s5 Hin _.
    apply complicit_sender_census; auto. apply nonempty_length. lia. }
  intros _ s5 (ess & E & HF & _).
  exists (List.concat ess). split; [chain|]. split; [|exact I].
  destruct (Forall2_flatten _ _ _ HF) as (bs & Ebs & Hbs).
  exists receivers, senders, bs.
  split; [lia|]. split; [exact Hnd|]. split; [exact Hincl|].
  split; [lia|]. split; [exact Hnd'|]. split; [exact Hincl'|].
  split; [exact Ebs | exact Hbs].
Qed.

Lemma recruited_mule_census acc s :
  In acc RECRUITED_MULES ->
  wp (recruited_mule acc)
     (fun _ s' => exists es, extends s s' es /\ recruited_census acc es
                             /\ True) s.
Proof.
  intros Hacc. unfold recruited_mule.
  wp_head. intros z1 k s1 _ _ Hk S1.
  apply wp_bind. apply wp_sample_distinct; [apply handlers_pool_NoDup | |].
  { change (List.length (Py.slice 20 35 EXTERNAL_IDS)) with 15%nat. lia. }
  intros handlers s2 Hlen Hincl Hnd S2.
  wp_head. intros z3 n1 s3 _ _ Hn1 S3.
  apply wp_bind. eapply wp_mono.
  { apply (wp_for_range (fun _ => True)
             (fun e => fst e = RecruitedPhase1 /\ census_row acc e));
      [|exact I].
    intros s4 _. apply recruited_phase1_census, Hacc. }
  intros _ s4 (l1 & E1 & Hlen1 & Hl1 & _).
  wp_head. intros z5 n2 s5 _ _ Hn2 S5.
  eapply wp_mono.
  { apply (wp_for_range (fun _ => True) (recruited_active acc handlers));
      [|exact I].
    intros s6 _. apply recruited_phase2_census; auto.
    apply nonempty_length. lia. }
  intros _ s6 (l2 & E2 & Hlen2 & Hl2 & _).
  exists (l1 ++ l2). split; [|split; [|exact I]].
  - assert (E01 : extends s s4 l1) by chain.
    assert (E12 : extends s4 s6 l2) by chain.
    exact (extends_trans _ _ _ _ _ E01 E12).
  - exists handlers, l1, l2.
    split; [lia|]. split; [exact Hnd|]. split; [exact Hincl|].
    split; [reflexivity|]. split; [lia|]. split; [lia|].
    split; [exact Hl1 | exact Hl2].
Qed.

Lemma exploited_mule_census acc s :
  In acc EXPLOITED_MULES ->
  wp (exploited_mule acc)
     (fun _ s' => exists es, extends s s' es /\ exploited_census acc es
                             /\ True) s.
Proof.
  intros Hacc. unfold exploited_mule.
  wp_head. intros z1 k s1 _ _ Hk S1.
  apply wp_bind. apply wp_sample_distinct; [apply destinations_pool_NoDup | |].
  { change (List.length (skipn 35 EXTERNAL_IDS)) with 15%nat. lia. }
  intros dests s2 Hlen Hincl Hnd S2.
  wp_head. intros z3 n1 s3 _ _ Hn1 S3.
  apply wp_bind. eapply wp_mono.
  { apply (wp_for_range (fun _ => True)
             (fun e => fst e = ExploitedPhase1 /\ census_row acc e));
      [|exact I].
    intros s4 _. apply exploited_phase1_census, Hacc. }
  intros _ s4 (l1 & E1 & Hlen1 & Hl1 & _).
  wp_head. intros z5 takeover s5 _ _ Hto S5.
  wp_head. intros z6 n2 s6 _ _ Hn2 S6.
  eapply wp_mono.
  { apply (wp_for_range (fun _ => True) (takeover_row acc dests takeover));
      [|exact I].
    intros s7 _. apply exploited_phase2_census; auto.
    apply nonempty_length. lia. }
  intros _ s7 (l2 & E2 & Hlen2 & Hl2 & _).
  exists (l1 ++ l2). split; [|split; [|exact I]].
  - assert (E01 : extends s s4 l1) by chain.
    assert (E12 : extends s4 s7 l2) by chain.
    exact (extends_trans _ _ _ _ _ E01 E12).
  - exists dests, takeover, l1, l2.
    split; [lia|]. split; [exact Hnd|]. split; [exact Hincl|].
    split; [exact Hto|]. split; [reflexivity|]. split; [lia|]. split; [lia|].
    split; [exact Hl1 | exact Hl2].
Qed.

(** ** The census of a run *)

(** The rows of a run, in emission order: one segment per account, in the
    order of the population. *)
Definition run_census (l : list entry) : Prop :=
  exists normal complicit recruited exploited : list (list entry),
    l = List.concat normal ++ List.concat complicit
        ++ List.concat recruited ++ List.concat exploited
    /\ Forall2 normal_census NORMAL_IDS normal
    /\ Forall2 complicit_census COMPLICIT_MULES complicit
    /\ Forall2 recruited_census RECRUITED_MULES recruited
    /\ Forall2 exploited_census EXPLOITED_MULES exploited.

Lemma generate_census s :
  wp generate (fun _ s' => exists l, extends s s' l /\ run_census l) s.
Proof.
  unfold generate.
  apply wp_bind. eapply wp_mono.
  { apply (wp_for_each (fun _ => True) normal_census); [|exact I].
    intros acc s1 Hacc _. apply normal_account_census, Hacc. }
  intros _ s1 (nss & E1 & H1 & _).
  apply wp_bind. eapply wp_mono.
  { apply (wp_for_each (fun _ => True) complicit_census); [|exact I].
    intros acc s2 Hacc _. apply complicit_mule_census, Hacc. }
  intros _ s2 (css & E2 & H2 & _).
  apply wp_bind. eapply wp_mono.
  { apply (wp_for_each (fun _ => True) recruited_census); [|exact I].
    intros acc s3 Hacc _. apply recruited_mule_census, Hacc. }
  intros _ s3 (rss & E3 & H3 & _).
  eapply wp_mono.
  { apply (wp_for_each (fun _ => True) exploited_census); [|exact I].
    intros acc s4 Hacc _. apply exploited_mule_census, Hacc. }
  intros _ s4 (xss & E4 & H4 & _).
  exists (List.concat nss ++ List.concat css
            ++ List.concat rss ++ List.concat xss).
  split.
  - eapply extends_trans; [exact E1|].
    eapply extends_trans; [exact E2|].
    eapply extends_trans; [exact E3 | exact E4].
  - exists nss, css, rss, xss. auto 10.
Qed.

Lemma run_census_spec py np :
  exists s,
    run py np = Returns tt s
    /\ transactions s = map snd (entries s)
    /\ txn_counter s = 1 + Z.of_nat (List.length (transactions s))
    /\ run_census (entries s).
Proof.
  destruct (wp_returns _ _ _ (generate_census (initial py np)))
    as ([] & s & Hrun & l & E & Hl).
  exists s. split; [exact Hrun|].
  destruct E as [T O C Ids _ _]. cbn [initial transactions origins
                                      txn_counter py_draws app] in *.
  assert (El : entries s = l)
    by (unfold entries; rewrite T, O; apply combine_fst_snd).
  rewrite El. split; [exact T|]. split; [|exact Hl].
  rewrite C, T, length_map. reflexivity.
Qed.

(** ** Pools and rules *)

Lemma recruited_not_exploited x :
  In x RECRUITED_MULES -> ~ In x EXPLOITED_MULES.
Proof.
  intros H1 H2.
  apply (disjointb_spec RECRUITED_MULES EXPLOITED_MULES x);
    [vm_compute; reflexivity | exact H1 | exact H2].
Qed.

(** The pool of accounts a rule emits for: 0 for the normal accounts, 1, 2
    and 3 for the complicit, recruited and exploited mules. *)
Definition pool_of (o : rule) : nat :=
  match o with
  | NormalActivity => 0
  | ComplicitCredit | ComplicitDebit => 1
  | RecruitedPhase1 | RecruitedCredit | RecruitedDebit => 2
  | ExploitedPhase1 | ExploitedPhase2 => 3
  end.

Lemma same_pool o o' x :
  In x (accounts_of o) -> In x (accounts_of o') -> pool_of o = pool_of o'.
Proof.
  intros H H'.
  destruct o, o'; cbn [accounts_of pool_of] in *; try reflexivity; exfalso;
    first
      [ exact (normal_not_mule _ H (COMPLICIT_is_mule _ H'))
      | exact (normal_not_mule _ H (RECRUITED_is_mule _ H'))
      | exact (normal_not_mule _ H (EXPLOITED_is_mule _ H'))
      | exact (normal_not_mule _ H' (COMPLICIT_is_mule _ H))
      | exact (normal_not_mule _ H' (RECRUITED_is_mule _ H))
      | exact (normal_not_mule _ H' (EXPLOITED_is_mule _ H))
      | exact (complicit_not_recruited _ H H')
      | exact (complicit_not_recruited _ H' H)
      | exact (complicit_not_exploited _ H H')
      | exact (complicit_not_exploited _ H' H)
      | exact (recruited_not_exploited _ H H')
      | exact (recruited_not_exploited _ H' H) ].
Qed.

(** The rule that emitted a row, read off the fields of the row. *)
Definition rule_of (r : txn) : rule :=
  let acc := account_id r in
  if existsb (String.eqb acc) COMPLICIT_MULES then
    if is_credit r then ComplicitCredit else ComplicitDebit
  else if existsb (String.eqb acc) RECRUITED_MULES then
    if is_mule r =? 0 then RecruitedPhase1
    else if is_credit r then RecruitedCredit else RecruitedDebit
  else if existsb (String.eqb acc) EXPLOITED_MULES then
    if is_mule r =? 0 then ExploitedPhase1 else ExploitedPhase2
  else NormalActivity.

Lemma existsb_In x l : In x l -> existsb (String.eqb x) l = true.
Proof.
  intros H. apply existsb_exists. exists x.
  split; [exact H | apply String.eqb_refl].
Qed.

Lemma existsb_not_In x l : ~ In x l -> existsb (String.eqb x) l = false.
Proof.
  intros H. destruct (existsb (String.eqb x) l) eqn:E; [|reflexivity].
  apply existsb_exists in E. destruct E as (y & Hy & E).
  apply String.eqb_eq in E. subst y. contradiction.
Qed.

Lemma In_existsb x l : existsb (String.eqb x) l = true -> In x l.
Proof.
  intros E. apply existsb_exists in E. destruct E as (y & Hy & E).
  apply String.eqb_eq in E. now subst y.
Qed.

Lemma rule_of_row o r : row_inv o r -> rule_of r = o.
Proof.
  intros [Hacc Hflag _ _ Hdir _ _ _]. unfold rule_of, is_credit.
  destruct o; cbn [accounts_of mule_rule directions_of In] in *.
  - rewrite (existsb_not_In _ COMPLICIT_MULES)
      by (intros H; exact (normal_not_mule _ Hacc (COMPLICIT_is_mule _ H))).
    rewrite (existsb_not_In _ RECRUITED_MULES)
      by (intros H; exact (normal_not_mule _ Hacc (RECRUITED_is_mule _ H))).
    rewrite (existsb_not_In _ EXPLOITED_MULES)
      by (intros H; exact (normal_not_mule _ Hacc (EXPLOITED_is_mule _ H))).
    reflexivity.
  - rewrite (existsb_In _ _ Hacc).
    destruct Hdir as [<-|[]]. reflexivity.
  - rewrite (existsb_In _ _ Hacc).
    destruct Hdir as [<-|[]]. reflexivity.
  - rewrite (existsb_not_In _ COMPLICIT_MULES)
      by (intros H; exact (complicit_not_recruited _ H Hacc)).
    rewrite (existsb_In _ _ Hacc), Hflag. reflexivity.
  - rewrite (existsb_not_In _ COMPLICIT_MULES)
      by (intros H; exact (complicit_not_recruited _ H Hacc)).
    rewrite (existsb_In _ _ Hacc), Hflag.
    destruct Hdir as [<-|[]]. reflexivity.
  - rewrite (existsb_not_In _ COMPLICIT_MULES)
      by (intros H; exact (complicit_not_recruited _ H Hacc)).
    rewrite (existsb_In _ _ Hacc), Hflag.
    destruct Hdir as [<-|[]]. reflexivity.
  - rewrite (existsb_not_In _ COMPLICIT_MULES)
      by (intros H; exact (complicit_not_exploited _ H Hacc)).
    rewrite (existsb_not_In _ RECRUITED_MULES)
      by (intros H; exact (recruited_not_exploited _ H Hacc)).
    rewrite (existsb_In _ _ Hacc), Hflag. reflexivity.
  - rewrite (existsb_not_In _ COMPLICIT_MULES)
      by (intros H; exact (complicit_not_exploited _ H Hacc)).
    rewrite (existsb_not_In _ RECRUITED_MULES)
      by (intros H; exact (recruited_not_exploited _ H Hacc)).
    rewrite (existsb_In _ _ Hacc), Hflag. reflexivity.
Qed.

(** ** The rows of the census *)

Lemma normal_census_rows acc es :
  normal_census acc es -> Forall (census_row acc) es.
Proof.
  intros [_ H]. eapply Forall_impl; [|exact H]. intros e [_ He]. exact He.
Qed.

Lemma complicit_batch_rows acc receivers sender b :
  complicit_batch acc receivers sender b ->
  Forall (census_row acc) (fst b ++ snd b).
Proof.
  intros (_ & _ & Hc & Hd). apply Forall_app. split.
  - eapply Forall_impl; [|exact Hc]. intros e (_ & He & _). exact He.
  - eapply Forall_impl; [|exact Hd]. intros e (_ & He & _). exact He.
Qed.

Lemma complicit_census_rows acc es :
  complicit_census acc es -> Forall (census_row acc) es.
Proof.
  intros (receivers & senders & bs & _ & _ & _ & _ & _ & _ & -> & Hbs).
  unfold flatten. induction Hbs as [|sender b senders bs Hb _ IH];
    cbn [map List.concat]; [constructor|].
  apply Forall_app. split; [|exact IH].
  exact (complicit_batch_rows _ _ _ _ Hb).
Qed.

Lemma recruited_census_rows acc es :
  recruited_census acc es -> Forall (census_row acc) es.
Proof.
  intros (handlers & l1 & l2 & _ & _ & _ & -> & _ & _ & H1 & H2).
  apply Forall_app. split.
  - eapply Forall_impl; [|exact H1]. intros e [_ He]. exact He.
  - eapply Forall_impl; [|exact H2]. intros e [He _]. exact He.
Qed.

Lemma exploited_census_rows acc es :
  exploited_census acc es -> Forall (census_row acc) es.
Proof.
  intros (dests & takeover & l1 & l2 & _ & _ & _ & _ & -> & _ & _ & H1 & H2).
  apply Forall_app. split.
  - eapply Forall_impl; [|exact H1]. intros e [_ He]. exact He.
  - eapply Forall_impl; [|exact H2]. intros e (_ & He & _). exact He.
Qed.

(** The segment of one account, whichever its pool. *)
Definition account_census (acc : string) (es : list entry) : Prop :=
  (In acc NORMAL_IDS /\ normal_census acc es)
  \/ (In acc COMPLICIT_MULES /\ complicit_census acc es)
  \/ (In acc RECRUITED_MULES /\ recruited_census acc es)
  \/ (In acc EXPLOITED_MULES /\ exploited_census acc es).

Lemma account_census_rows acc es :
  account_census acc es -> Forall (census_row acc) es.
Proof.
  intros [[_ H]|[[_ H]|[[_ H]|[_ H]]]].
  - now apply normal_census_rows.
  - now apply complicit_census_rows.
  - now apply recruited_census_rows.
  - now apply exploited_census_rows.
Qed.

Lemma population_split :
  ALL_ACCOUNT_IDS
  = NORMAL_IDS ++ COMPLICIT_MULES ++ RECRUITED_MULES ++ EXPLOITED_MULES.
Proof. vm_compute. reflexivity. Qed.

Lemma ALL_ACCOUNT_IDS_NoDup : NoDup ALL_ACCOUNT_IDS.
Proof. apply all_distinct_NoDup. vm_compute. reflexivity. Qed.

Lemma Forall2_map_r {X Y Z} (P : X -> Z -> Prop) (f : Y -> Z) xs ys :
  Forall2 (fun x y => P x (f y)) xs ys -> Forall2 P xs (map f ys).
Proof. induction 1; constructor; auto. Qed.

Lemma Forall2_In {X Y} (P : X -> Y -> Prop) xs ys :
  Forall2 P xs ys -> Forall2 (fun x y => In x xs /\ P x y) xs ys.
Proof.
  induction 1 as [|x y xs ys Hxy _ IH]; constructor.
  - split; [now left | exact Hxy].
  - eapply Forall2_weaken; [|exact IH]. intros a b [Ha Hb].
    split; [now right | exact Hb].
Qed.

Lemma run_census_accounts l :
  run_census l ->
  exists segs, l = List.concat segs
               /\ Forall2 account_census ALL_ACCOUNT_IDS segs.
Proof.
  intros (n & c & r & x & -> & Hn & Hc & Hr & Hx).
  exists (n ++ c ++ r ++ x). split; [now rewrite !concat_app|].
  rewrite population_split.
  repeat apply Forall2_app.
  - eapply Forall2_weaken; [|exact (Forall2_In _ _ _ Hn)].
    intros a es [Ha He]. left. auto.
  - eapply Forall2_weaken; [|exact (Forall2_In _ _ _ Hc)].
    intros a es [Ha He]. right. left. auto.
  - eapply Forall2_weaken; [|exact (Forall2_In _ _ _ Hr)].
    intros a es [Ha He]. right. right. left. auto.
  - eapply Forall2_weaken; [|exact (Forall2_In _ _ _ Hx)].
    intros a es [Ha He]. right. right. right. auto.
Qed.

(** Every run returns; its rows are the segments of the accounts, in the
    order of the population. *)
Lemma run_accounts py np :
  exists s,
    run py np = Returns tt s
    /\ transactions s = map snd (entries s)
    /\ txn_counter s = 1 + Z.of_nat (List.length (transactions s))
    /\ exists segs, entries s = List.concat segs
                    /\ Forall2 account_census ALL_ACCOUNT_IDS segs.
Proof.
  destruct (run_census_spec py np) as (s & Hrun & HT & HC & Hcensus).
  exists s. auto using run_census_accounts.
Qed.

Lemma concat_Forall {X} (P : X -> Prop) (ls : list (list X)) :
  Forall (Forall P) ls -> Forall P (List.concat ls).
Proof.
  induction 1 as [|l ls Hl _ IH]; cbn [List.concat]; [constructor|].
  apply Forall_app. auto.
Qed.

Lemma Forall2_right {X Y} (P : X -> Y -> Prop) (R : Y -> Prop) xs ys :
  (forall x y, P x y -> R y) -> Forall2 P xs ys -> Forall R ys.
Proof. intros H. induction 1; constructor; eauto. Qed.

(** Every row of a run satisfies the invariant and the amount range of the
    rule that emitted it. *)
Lemma run_rows_census py np :
  exists s,
    run py np = Returns tt s
    /\ transactions s = map snd (entries s)
    /\ Forall (fun e => row_inv (fst e) (snd e) /\ amount_ok (fst e) (snd e))
              (entries s).
Proof.
  destruct (run_accounts py np) as (s & Hrun & HT & _ & segs & E & Hsegs).
  exists s. split; [exact Hrun|]. split; [exact HT|].
  rewrite E. apply concat_Forall.
  eapply Forall2_right; [intros acc es H; exact H|].
  eapply Forall2_weaken; [|exact Hsegs].
  intros acc es H. eapply Forall_impl; [|exact (account_census_rows _ _ H)].
  intros e (H1 & _ & H3). auto.
Qed.

(** The rows of the data frame are rows of the run. *)
Lemma output_rows `{Pandas} py np :
  exists s,
    run py np = Returns tt s
    /\ Forall (fun r => row_inv (rule_of r) r /\ amount_ok (rule_of r) r)
              (dataframe s).
Proof.
  destruct (run_rows_census py np) as (s & Hrun & HT & Hrows).
  exists s. split; [exact Hrun|].
  eapply Permutation_Forall; [apply sort_values_perm|].
  rewrite HT. apply Forall_map.
  eapply Forall_impl; [|exact Hrows].
  intros [o r] [Hr Ha]. cbn [fst snd] in *.
  now rewrite (rule_of_row o r Hr).
Qed.

(** ** What every row looks like *)

Definition inclb (l1 l2 : list string) : bool :=
  forallb (fun a => existsb (String.eqb a) l2) l1.

Lemma inclb_spec l1 l2 : inclb l1 l2 = true -> incl l1 l2.
Proof.
  unfold inclb. rewrite forallb_forall. intros H x Hx.
  apply In_existsb, H, Hx.
Qed.

Lemma accounts_of_holders o : incl (accounts_of o) ALL_ACCOUNT_IDS.
Proof. apply inclb_spec. destruct o; vm_compute; reflexivity. Qed.

Lemma holders_not_external x : In x ALL_ACCOUNT_IDS -> ~ In x EXTERNAL_IDS.
Proof.
  intros H. apply in_app_or in H. destruct H as [H|H].
  - now apply normal_not_external.
  - now apply mule_not_external.
Qed.

Lemma channels_of_enumerated o : incl (channels_of o) CHANNELS.
Proof. apply inclb_spec. destruct o; vm_compute; reflexivity. Qed.

Lemma counterparties_of_known o acc :
  incl (counterparties_of o acc) (ALL_ACCOUNT_IDS ++ EXTERNAL_IDS).
Proof.
  destruct o; cbn [counterparties_of];
    [ intros x Hx; apply filter_In in Hx; apply in_or_app; left; tauto
    | apply inclb_spec; vm_compute; reflexivity .. ].
Qed.

(** X1.  The script never raises: for every pair of generator streams, that
    is for every seed, the generation returns (no [random.sample] is
    asked for more elements than its population holds, no [random.choice]
    is made from an empty list, no date leaves the range of [datetime])
    and the content of the file is written. *)
Theorem run_never_raises `{Pandas} (py : N -> Z) (np : N -> Q) :
  exists s,
    run py np = Returns tt s
    /\ main py np = inr (to_csv (dataframe s)).
Proof.
  destruct (run_census_spec py np) as (s & Hrun & _).
  exists s. split; [exact Hrun|]. unfold main. now rewrite Hrun.
Qed.

(** X2.  The rule that emitted a row can be read off the row: the pool of
    its account, its flag [is_mule] and its direction determine it. *)
Theorem rule_read_off_fields (py : N -> Z) (np : N -> Q) :
  exists s,
    run py np = Returns tt s
    /\ List.length (origins s) = List.length (transactions s)
    /\ forall o r, In (o, r) (entries s) -> rule_of r = o.
Proof.
  destruct (run_spec py np) as (s & Hrun & HT & HO & _ & _ & Htr).
  exists s. split; [exact Hrun|].
  split; [now rewrite HT, HO, !length_map|].
  intros o r Hin.
  pose proof (trace_rows _ Htr) as Hrows. rewrite Forall_forall in Hrows.
  exact (rule_of_row o r (Hrows _ Hin)).
Qed.

(** X3.  Every row of the data frame is well formed: its account is an
    account holder (normal or mule, never an external entity), its
    direction is credit or debit, its channel is one of the seven
    channels, its counterparty is an account holder or an external
    entity, its flag is 0 or 1 and its subtype is one of the four
    labels. *)
Theorem rows_are_well_formed `{Pandas} (py : N -> Z) (np : N -> Q) :
  exists s,
    run py np = Returns tt s
    /\ Forall
         (fun r =>
            In (account_id r) ALL_ACCOUNT_IDS
            /\ ~ In (account_id r) EXTERNAL_IDS
            /\ In (txn_type r) ["credit"; "debit"]
            /\ In (channel r) CHANNELS
            /\ (In (counterparty r) ALL_ACCOUNT_IDS
                \/ In (counterparty r) EXTERNAL_IDS)
            /\ (is_mule r = 0 \/ is_mule r = 1)
            /\ In (mule_type r) ["none"; "complicit"; "recruited"; "exploited"])
         (dataframe s).
Proof.
  destruct (output_rows py np) as (s & Hrun & Hrows).
  exists s. split; [exact Hrun|].
  eapply Forall_impl; [|exact Hrows].
  intros r [[Hacc Hflag Hsub _ Hdir Hch Hcp _] _].
  set (o := rule_of r) in *. clearbody o.
  pose proof (accounts_of_holders o _ Hacc) as Hh.
  split; [exact Hh|]. split; [now apply holders_not_external|].
  split; [destruct o; cbn [directions_of In] in Hdir; cbn [In]; tauto|].
  split; [exact (channels_of_enumerated o _ Hch)|].
  split; [apply in_app_or; exact (counterparties_of_known o _ _ Hcp)|].
  split; [rewrite Hflag; destruct (mule_rule o); auto|].
  rewrite Hsub. destruct o; cbn [subtype_of In]; tauto.
Qed.

(** X4.  The subtype label of a row is fixed by its account: it is none
    exactly for the normal accounts, and complicit, recruited or exploited
    exactly for the mules of that group, whatever the phase the row
    belongs to. *)
Theorem mule_type_follows_account `{Pandas} (py : N -> Z) (np : N -> Q) :
  exists s,
    run py np = Returns tt s
    /\ Forall
         (fun r =>
            (mule_type r = "none" <-> In (account_id r) NORMAL_IDS)
            /\ (mule_type r = "complicit"
                <-> In (account_id r) COMPLICIT_MULES)
            /\ (mule_type r = "recruited"
                <-> In (account_id r) RECRUITED_MULES)
            /\ (mule_type r = "exploited"
                <-> In (account_id r) EXPLOITED_MULES))
         (dataframe s).
Proof.
  destruct (output_rows py np) as (s & Hrun & Hrows).
  exists s. split; [exact Hrun|].
  eapply Forall_impl; [|exact Hrows].
  intros r [[Hacc _ Hsub _ _ _ _ _] _].
  set (o := rule_of r) in *. clearbody o. rewrite Hsub.
  assert (P : forall o', In (account_id r) (accounts_of o') ->
                         pool_of o = pool_of o')
    by (intros o'; apply same_pool; exact Hacc).
  pose proof (P NormalActivity) as P0. pose proof (P ComplicitCredit) as P1.
  pose proof (P RecruitedPhase1) as P2. pose proof (P ExploitedPhase1) as P3.
  cbn [accounts_of] in P0, P1, P2, P3.
  destruct o; cbn [subtype_of accounts_of pool_of] in *;
    repeat split; intros E;
      first [ assumption | discriminate E
            | discriminate (P0 E) | discriminate (P1 E)
            | discriminate (P2 E) | discriminate (P3 E) | reflexivity ].
Qed.

(** Singles out the rules of the pool the account of the row belongs to. *)
Ltac rules_of_pool Hr o Hin o' :=
  let Hp := fresh "Hp" in
  pose proof (same_pool o o' _ (row_account _ _ Hr) Hin) as Hp;
  destruct o; try discriminate Hp; clear Hp.

Ltac wrong_direction Hr Ht :=
  let Hd := fresh "Hd" in
  pose proof (row_direction _ _ Hr) as Hd; rewrite Ht in Hd;
  cbn [directions_of In] in Hd; destruct Hd as [Hd|[]]; discriminate Hd.

Ltac wrong_flag Hr Hf :=
  let Hg := fresh "Hg" in
  pose proof (row_flag _ _ Hr) as Hg; rewrite Hf in Hg;
  cbn [mule_rule] in Hg; discriminate Hg.

(** X5.  A row of a normal account never names the account itself as
    counterparty: the counterparty is another account holder, normal or
    mule, and never an external entity; the row is not flagged. *)
Theorem normal_counterparty_is_another_account `{Pandas}
    (py : N -> Z) (np : N -> Q) :
  exists s,
    run py np = Returns tt s
    /\ Forall
         (fun r =>
            In (account_id r) NORMAL_IDS ->
            In (counterparty r) ALL_ACCOUNT_IDS
            /\ counterparty r <> account_id r
            /\ ~ In (counterparty r) EXTERNAL_IDS
            /\ is_mule r = 0)
         (dataframe s).
Proof.
  destruct (output_rows py np) as (s & Hrun & Hrows).
  exists s. split; [exact Hrun|].
  eapply Forall_impl; [|exact Hrows].
  intros r [Hr _] Hin. set (o := rule_of r) in *. clearbody o.
  rules_of_pool Hr o Hin NormalActivity.
  pose proof (row_counterparty _ _ Hr) as Hc. cbn [counterparties_of] in Hc.
  apply filter_In in Hc. destruct Hc as [Hc Hne].
  split; [exact Hc|]. split; [|split].
  - apply negb_true_iff in Hne. now apply String.eqb_neq.
  - now apply holders_not_external.
  - exact (row_flag _ _ Hr).
Qed.

(** X6.  A row whose counterparty is its own account can only be a
    Phase-2 debit of a recruited mule: no other rule ever emits a
    self-payment. *)
Theorem self_payment_only_in_recruited_debits `{Pandas}
    (py : N -> Z) (np : N -> Q) :
  exists s,
    run py np = Returns tt s
    /\ Forall
         (fun r =>
            counterparty r = account_id r ->
            In (account_id r) RECRUITED_MULES
            /\ is_mule r = 1 /\ txn_type r = "debit")
         (dataframe s).
Proof.
  destruct (output_rows py np) as (s & Hrun & Hrows).
  exists s. split; [exact Hrun|].
  eapply Forall_impl; [|exact Hrows].
  intros r [Hr _] Eself. set (o := rule_of r) in *. clearbody o.
  pose proof (row_account _ _ Hr) as Hacc.
  pose proof (row_counterparty _ _ Hr) as Hc. rewrite Eself in Hc.
  destruct o; cbn [accounts_of counterparties_of] in *.
  - apply filter_In in Hc. destruct Hc as [_ Hne].
    rewrite String.eqb_refl in Hne. discriminate Hne.
  - exfalso. exact (complicit_not_normal _ Hacc Hc).
  - exfalso. apply slice_incl in Hc.
    exact (mule_not_external _ (COMPLICIT_is_mule _ Hacc) Hc).
  - exfalso. exact (normal_not_mule _ Hc (RECRUITED_is_mule _ Hacc)).
  - exfalso. apply slice_incl in Hc.
    exact (mule_not_external _ (RECRUITED_is_mule _ Hacc) Hc).
  - split; [exact Hacc|]. split; [exact (row_flag _ _ Hr)|].
    pose proof (row_direction _ _ Hr) as Hd. cbn [directions_of In] in Hd.
    destruct Hd as [Hd|[]]. now symmetry.
  - exfalso. exact (normal_not_mule _ Hc (EXPLOITED_is_mule _ Hacc)).
  - exfalso. apply skipn_incl in Hc.
    exact (mule_not_external _ (EXPLOITED_is_mule _ Hacc) Hc).
Qed.

(** X7.  The rows of a complicit mule are all flagged.  Its credits come
    from normal accounts over UPI, NEFT or IMPS, for an amount between
    20000 and 200000; its debits go to external entities of the reserved
    range (the first twenty), never to a normal or mule account, over
    NEFT, RTGS or Net Banking, for an amount between 18000 and 198000. *)
Theorem complicit_profile `{Pandas} (py : N -> Z) (np : N -> Q) :
  exists s,
    run py np = Returns tt s
    /\ Forall
         (fun r =>
            In (account_id r) COMPLICIT_MULES ->
            is_mule r = 1
            /\ (txn_type r = "credit" ->
                In (counterparty r) NORMAL_IDS
                /\ In (channel r) ["UPI"; "NEFT"; "IMPS"]
                /\ (20000 <= amount r)%Q /\ (amount r <= 200000)%Q)
            /\ (txn_type r = "debit" ->
                In (counterparty r) (Py.slice 0 20 EXTERNAL_IDS)
                /\ ~ In (counterparty r) ALL_ACCOUNT_IDS
                /\ In (channel r) ["NEFT"; "RTGS"; "Net Banking"]
                /\ (18000 <= amount r)%Q /\ (amount r <= 198000)%Q))
         (dataframe s).
Proof.
  destruct (output_rows py np) as (s & Hrun & Hrows).
  exists s. split; [exact Hrun|].
  eapply Forall_impl; [|exact Hrows].
  intros r [Hr Ha] Hin. set (o := rule_of r) in *. clearbody o.
  rules_of_pool Hr o Hin ComplicitCredit.
  - split; [exact (row_flag _ _ Hr)|]. split; intros Ht.
    + split; [exact (row_counterparty _ _ Hr)|].
      split; [exact (row_channel _ _ Hr) | exact Ha].
    + wrong_direction Hr Ht.
  - split; [exact (row_flag _ _ Hr)|]. split; intros Ht.
    + wrong_direction Hr Ht.
    + pose proof (row_counterparty _ _ Hr) as Hc.
      cbn [counterparties_of] in Hc.
      split; [exact Hc|].
      split; [|split; [exact (row_channel _ _ Hr) | exact Ha]].
      intros Hh. apply slice_incl in Hc.
      exact (holders_not_external _ Hh Hc).
Qed.

(** X8.  The rows of a recruited mule.  Its unflagged rows (Phase 1) have
    a normal account as counterparty.  Its flagged credits come from
    external entities 21 to 35 over UPI or IMPS, for an amount between
    15000 and 150000; its flagged debits go to a mule account or to one of
    the first fifteen external entities, never to a normal account, over
    NEFT, ATM or Net Banking, for an amount between 13200 and 147000. *)
Theorem recruited_profile `{Pandas} (py : N -> Z) (np : N -> Q) :
  exists s,
    run py np = Returns tt s
    /\ Forall
         (fun r =>
            In (account_id r) RECRUITED_MULES ->
            (is_mule r = 0 -> In (counterparty r) NORMAL_IDS)
            /\ (is_mule r = 1 -> txn_type r = "credit" ->
                In (counterparty r) (Py.slice 20 35 EXTERNAL_IDS)
                /\ In (channel r) ["UPI"; "IMPS"]
                /\ (15000 <= amount r)%Q /\ (amount r <= 150000)%Q)
            /\ (is_mule r = 1 -> txn_type r = "debit" ->
                (In (counterparty r) MULE_IDS
                 \/ In (counterparty r) (Py.slice 0 15 EXTERNAL_IDS))
                /\ ~ In (counterparty r) NORMAL_IDS
                /\ In (channel r) ["NEFT"; "ATM"; "Net Banking"]
                /\ (13200 <= amount r)%Q /\ (amount r <= 147000)%Q))
         (dataframe s).
Proof.
  destruct (output_rows py np) as (s & Hrun & Hrows).
  exists s. split; [exact Hrun|].
  eapply Forall_impl; [|exact Hrows].
  intros r [Hr Ha] Hin. set (o := rule_of r) in *. clearbody o.
  rules_of_pool Hr o Hin RecruitedPhase1.
  - split; [intros _; exact (row_counterparty _ _ Hr)|].
    split; intros Hf; wrong_flag Hr Hf.
  - split; [intros Hf; wrong_flag Hr Hf|]. split; intros _ Ht.
    + split; [exact (row_counterparty _ _ Hr)|].
      split; [exact (row_channel _ _ Hr) | exact Ha].
    + wrong_direction Hr Ht.
  - split; [intros Hf; wrong_flag Hr Hf|]. split; intros _ Ht.
    + wrong_direction Hr Ht.
    + pose proof (row_counterparty _ _ Hr) as Hc.
      cbn [counterparties_of] in Hc. apply in_app_or in Hc.
      split; [exact Hc|].
      split; [|split; [exact (row_channel _ _ Hr) | exact Ha]].
      intros Hn. destruct Hc as [Hc|Hc].
      * exact (normal_not_mule _ Hn Hc).
      * apply slice_incl in Hc. exact (normal_not_external _ Hn Hc).
Qed.

(** X9.  The rows of an exploited mule.  Its unflagged rows (history
    before the takeover) use UPI or Mobile Banking only and have a normal
    account as counterparty.  Its flagged rows are all debits, to external
    entities 36 to 50, over RTGS, Net Banking or NEFT (never a channel of
    its history), for an amount between 50000 and 500000. *)
Theorem exploited_profile `{Pandas} (py : N -> Z) (np : N -> Q) :
  exists s,
    run py np = Returns tt s
    /\ Forall
         (fun r =>
            In (account_id r) EXPLOITED_MULES ->
            (is_mule r = 0 ->
             In (channel r) ["UPI"; "Mobile Banking"]
             /\ In (counterparty r) NORMAL_IDS)
            /\ (is_mule r = 1 ->
                txn_type r = "debit"
                /\ In (channel r) ["RTGS"; "Net Banking"; "NEFT"]
                /\ ~ In (channel r) ["UPI"; "Mobile Banking"]
                /\ In (counterparty r) (skipn 35 EXTERNAL_IDS)
                /\ (50000 <= amount r)%Q /\ (amount r <= 500000)%Q))
         (dataframe s).
Proof.
  destruct (output_rows py np) as (s & Hrun & Hrows).
  exists s. split; [exact Hrun|].
  eapply Forall_impl; [|exact Hrows].
  intros r [Hr Ha] Hin. set (o := rule_of r) in *. clearbody o.
  rules_of_pool Hr o Hin ExploitedPhase1.
  - split; [|intros Hf; wrong_flag Hr Hf]. intros _.
    split; [exact (row_channel _ _ Hr) | exact (row_counterparty _ _ Hr)].
  - split; [intros Hf; wrong_flag Hr Hf|]. intros _.
    pose proof (row_direction _ _ Hr) as Hd. cbn [directions_of In] in Hd.
    pose proof (row_channel _ _ Hr) as Hch. cbn [channels_of] in Hch.
    split; [destruct Hd as [Hd|[]]; now symmetry|].
    split; [exact Hch|].
    split; [|split; [exact (row_counterparty _ _ Hr) | exact Ha]].
    intros Hu. cbn [In] in Hch, Hu.
    destruct Hch as [E|[E|[E|[]]]]; rewrite <- E in Hu;
      destruct Hu as [D|[D|[]]]; discriminate D.
Qed.

(** X10.  Every flagged row carries an amount between 13200 and 500000:
    the amounts of the mule rules are drawn uniformly from ranges that
    start at 15000 or above, and neither the rounding nor the forwarding
    factor takes them below 13200. *)
Theorem mule_amounts_are_large `{Pandas} (py : N -> Z) (np : N -> Q) :
  exists s,
    run py np = Returns tt s
    /\ Forall
         (fun r =>
            is_mule r = 1 ->
            (13200 <= amount r)%Q /\ (amount r <= 500000)%Q)
         (dataframe s).
Proof.
  destruct (output_rows py np) as (s & Hrun & Hrows).
  exists s. split; [exact Hrun|].
  eapply Forall_impl; [|exact Hrows].
  intros r [Hr Ha] Hf. set (o := rule_of r) in *. clearbody o.
  destruct o; try (wrong_flag Hr Hf);
    unfold amount_ok in Ha; cbn [amount_range] in Ha;
    destruct Ha as [A1 A2]; split; lra.
Qed.

(** ** When the rows are dated *)

(** The seconds spanned by the days [lo] to [hi] of the window. *)
Lemma day_bounds night lo hi ts :
  ts_ok night lo hi ts ->
  (toordinal START_DATE + lo) * 86400 <= seconds_of ts
  /\ seconds_of ts < (toordinal START_DATE + hi + 1) * 86400.
Proof.
  intros [Y Mo D V O Hh Mi S]. unfold seconds_of.
  assert (0 <= hour ts <= 23) by lia. lia.
Qed.

Lemma row_time o r :
  row_inv o r ->
  exists ts,
    strptime (timestamp r) = Some ts
    /\ (toordinal START_DATE + fst (day_range o)) * 86400 <= seconds_of ts
    /\ seconds_of ts < (toordinal START_DATE + snd (day_range o) + 1) * 86400
    /\ (mule_rule o = false -> 8 <= hour ts <= 22).
Proof.
  intros Hr. destruct (row_ts _ _ Hr) as (ts & E & Hts).
  exists ts. rewrite E. split; [exact (ts_ok_parses _ _ _ _ Hts)|].
  destruct (day_bounds _ _ _ _ Hts) as [B1 B2].
  split; [exact B1|]. split; [exact B2|].
  intros Hn. destruct (ts_hour _ _ _ _ Hts) as [Hh|[Hh _]]; [exact Hh|].
  unfold night_rule in Hh. congruence.
Qed.

(** The first second of the day [d] days after the start of the window. *)
Definition day_start (d : Z) : Z := (toordinal START_DATE + d) * 86400.

Lemma day_start_of m dd d :
  ymd2ord 2024 m dd = toordinal START_DATE + d ->
  seconds_of (mk_datetime 2024 m dd 0 0 0) = day_start d.
Proof.
  intros E. unfold seconds_of, toordinal, day_start.
  cbn [year month day hour minute second]. rewrite E. lia.
Qed.

(** X11.  The rows of a complicit mule are all dated in the last 60 days
    of the window: not before [START_DATE + timedelta(days=TOTAL_DAYS -
    60)], which is 2024-05-01 00:00:00. *)
Theorem complicit_rows_in_last_60_days `{Pandas} (py : N -> Z) (np : N -> Q) :
  exists s,
    run py np = Returns tt s
    /\ Datetime.add START_DATE (timedelta_of (TOTAL_DAYS - 60) 0 0 0)
       = Some (mk_datetime 2024 5 1 0 0 0)
    /\ Forall
         (fun r =>
            In (account_id r) COMPLICIT_MULES ->
            exists ts, strptime (timestamp r) = Some ts
                       /\ Datetime.le (mk_datetime 2024 5 1 0 0 0) ts)
         (dataframe s).
Proof.
  destruct (output_rows py np) as (s & Hrun & Hrows).
  exists s. split; [exact Hrun|]. split; [reflexivity|].
  eapply Forall_impl; [|exact Hrows].
  intros r [Hr _] Hin. set (o := rule_of r) in *. clearbody o.
  destruct (row_time _ _ Hr) as (ts & E & B1 & _).
  exists ts. split; [exact E|]. unfold Datetime.le.
  rewrite (day_start_of 5 1 121) by reflexivity. unfold day_start.
  rules_of_pool Hr o Hin ComplicitCredit; cbn [day_range fst] in B1; exact B1.
Qed.

(** X12.  The two phases of a recruited mule do not overlap in time: its
    unflagged rows are dated before 2024-03-02 00:00:00 (days 0 to 60 of
    the window) and its flagged rows from that instant on (day 61 and
    after). *)
Theorem recruited_phases_are_separated `{Pandas} (py : N -> Z) (np : N -> Q) :
  exists s,
    run py np = Returns tt s
    /\ Datetime.add START_DATE (timedelta_of 61 0 0 0)
       = Some (mk_datetime 2024 3 2 0 0 0)
    /\ Forall
         (fun r =>
            In (account_id r) RECRUITED_MULES ->
            exists ts,
              strptime (timestamp r) = Some ts
              /\ (is_mule r = 0 ->
                  seconds_of ts < seconds_of (mk_datetime 2024 3 2 0 0 0))
              /\ (is_mule r = 1 ->
                  Datetime.le (mk_datetime 2024 3 2 0 0 0) ts))
         (dataframe s).
Proof.
  destruct (output_rows py np) as (s & Hrun & Hrows).
  exists s. split; [exact Hrun|]. split; [reflexivity|].
  eapply Forall_impl; [|exact Hrows].
  intros r [Hr _] Hin. set (o := rule_of r) in *. clearbody o.
  destruct (row_time _ _ Hr) as (ts & E & B1 & B2 & _).
  exists ts. split; [exact E|]. unfold Datetime.le.
  rewrite (day_start_of 3 2 61) by reflexivity. unfold day_start.
  rules_of_pool Hr o Hin RecruitedPhase1; cbn [day_range fst snd] in B1, B2;
    split; intros Hf; try (wrong_flag Hr Hf); lia.
Qed.

(** X13.  The history of an exploited mule ends before its takeover: its
    unflagged rows are dated before 2024-04-01 00:00:00 (days 0 to 90) and
    its flagged rows from that instant on and before 2024-05-04 00:00:00
    (days 91 to 123). *)
Theorem exploited_phases_are_separated `{Pandas} (py : N -> Z) (np : N -> Q) :
  exists s,
    run py np = Returns tt s
    /\ Datetime.add START_DATE (timedelta_of 91 0 0 0)
       = Some (mk_datetime 2024 4 1 0 0 0)
    /\ Datetime.add START_DATE (timedelta_of (120 + 3 + 1) 0 0 0)
       = Some (mk_datetime 2024 5 4 0 0 0)
    /\ Forall
         (fun r =>
            In (account_id r) EXPLOITED_MULES ->
            exists ts,
              strptime (timestamp r) = Some ts
              /\ (is_mule r = 0 ->
                  seconds_of ts < seconds_of (mk_datetime 2024 4 1 0 0 0))
              /\ (is_mule r = 1 ->
                  Datetime.le (mk_datetime 2024 4 1 0 0 0) ts
                  /\ seconds_of ts
                     < seconds_of (mk_datetime 2024 5 4 0 0 0)))
         (dataframe s).
Proof.
  destruct (output_rows py np) as (s & Hrun & Hrows).
  exists s. split; [exact Hrun|]. split; [reflexivity|].
  split; [reflexivity|].
  eapply Forall_impl; [|exact Hrows].
  intros r [Hr _] Hin. set (o := rule_of r) in *. clearbody o.
  destruct (row_time _ _ Hr) as (ts & E & B1 & B2 & _).
  exists ts. split; [exact E|]. unfold Datetime.le.
  rewrite (day_start_of 4 1 91), (day_start_of 5 4 124) by reflexivity.
  unfold day_start.
  rules_of_pool Hr o Hin ExploitedPhase1; cbn [day_range fst snd] in B1, B2;
    split; intros Hf; try (wrong_flag Hr Hf); lia.
Qed.

(** X14.  The date and the hour give the label away: every flagged row is
    dated 2024-03-02 or later (no mule rule draws a day before day 61),
    and every unflagged row is timed between 8:00 and 22:59, so that a row
    timed in the night band is a flagged row. *)
Theorem flagged_rows_are_late_or_nightly `{Pandas} (py : N -> Z) (np : N -> Q) :
  exists s,
    run py np = Returns tt s
    /\ Forall
         (fun r =>
            exists ts,
              strptime (timestamp r) = Some ts
              /\ (is_mule r = 1 ->
                  Datetime.le (mk_datetime 2024 3 2 0 0 0) ts)
              /\ (is_mule r = 0 -> 8 <= hour ts <= 22)
              /\ (hour ts = 23 \/ 0 <= hour ts <= 4 -> is_mule r = 1))
         (dataframe s).
Proof.
  destruct (output_rows py np) as (s & Hrun & Hrows).
  exists s. split; [exact Hrun|].
  eapply Forall_impl; [|exact Hrows].
  intros r [Hr _]. set (o := rule_of r) in *. clearbody o.
  destruct (row_time _ _ Hr) as (ts & E & B1 & _ & Hh).
  exists ts. split; [exact E|]. unfold Datetime.le.
  rewrite (day_start_of 3 2 61) by reflexivity. unfold day_start.
  pose proof (row_flag _ _ Hr) as Hf.
  destruct o; cbn [day_range fst mule_rule] in B1, Hh, Hf;
    (split; [|split]); intros H'; try lia;
      try (specialize (Hh eq_refl); lia).
Qed.

(** ** The rows of one account *)

Lemma census_rows_account acc es :
  Forall (census_row acc) es ->
  Forall (fun r => account_id r = acc) (map snd es).
Proof.
  intros H. apply Forall_map. eapply Forall_impl; [|exact H].
  intros e (_ & Ha & _). exact Ha.
Qed.

Lemma rows_of_own_segment acc accs segs :
  NoDup accs -> Forall2 account_census accs segs -> In acc accs ->
  exists seg,
    account_census acc seg
    /\ rows_of acc (map snd (List.concat segs)) = map snd seg.
Proof.
  intros Hnd HF. revert Hnd.
  induction HF as [|a seg accs segs Hseg HF IH]; intros Hnd Hin;
    [destruct Hin|].
  inversion Hnd as [|? ? Hnotin Hnd']; subst.
  cbn [List.concat]. rewrite map_app, rows_of_app.
  pose proof (census_rows_account _ _ (account_census_rows _ _ Hseg)) as Hown.
  destruct Hin as [->|Hin].
  - exists seg. split; [exact Hseg|].
    rewrite (rows_of_all acc (map snd seg)) by exact Hown.
    rewrite rows_of_none; [apply app_nil_r|].
    clear -HF Hnotin. induction HF as [|a' seg' accs' segs' Hs _ IH];
      cbn [List.concat]; [constructor|].
    rewrite map_app. apply Forall_app. split.
    + eapply Forall_impl;
        [|exact (census_rows_account _ _ (account_census_rows _ _ Hs))].
      intros r -> ->. apply Hnotin. now left.
    + apply IH. intros H. apply Hnotin. now right.
  - destruct (IH Hnd' Hin) as (seg' & Hs & E).
    exists seg'. split; [exact Hs|]. rewrite E.
    rewrite rows_of_none; [reflexivity|].
    eapply Forall_impl; [|exact Hown].
    intros r -> ->. contradiction.
Qed.

(** The rows of an account in a run are its segment. *)
Lemma account_rows py np :
  exists s,
    run py np = Returns tt s
    /\ forall acc, In acc ALL_ACCOUNT_IDS ->
         exists seg, account_census acc seg
                     /\ rows_of acc (transactions s) = map snd seg.
Proof.
  destruct (run_accounts py np) as (s & Hrun & HT & _ & segs & E & Hsegs).
  exists s. split; [exact Hrun|]. intros acc Hacc.
  rewrite HT, E.
  exact (rows_of_own_segment acc _ _ ALL_ACCOUNT_IDS_NoDup Hsegs Hacc).
Qed.

Lemma complicit_is_holder x : In x COMPLICIT_MULES -> In x ALL_ACCOUNT_IDS.
Proof. apply (accounts_of_holders ComplicitCredit). Qed.

Lemma recruited_is_holder x : In x RECRUITED_MULES -> In x ALL_ACCOUNT_IDS.
Proof. apply (accounts_of_holders RecruitedPhase1). Qed.

Lemma exploited_is_holder x : In x EXPLOITED_MULES -> In x ALL_ACCOUNT_IDS.
Proof. apply (accounts_of_holders ExploitedPhase1). Qed.

Lemma census_of_complicit acc es :
  In acc COMPLICIT_MULES -> account_census acc es -> complicit_census acc es.
Proof.
  intros Hacc [[H _]|[[_ H]|[[H _]|[H _]]]]; [exfalso| exact H |exfalso..].
  - exact (complicit_not_normal _ Hacc H).
  - exact (complicit_not_recruited _ Hacc H).
  - exact (complicit_not_exploited _ Hacc H).
Qed.

Lemma census_of_recruited acc es :
  In acc RECRUITED_MULES -> account_census acc es -> recruited_census acc es.
Proof.
  intros Hacc [[H _]|[[H _]|[[_ H]|[H _]]]]; [exfalso..| exact H |exfalso].
  - exact (normal_not_mule _ H (RECRUITED_is_mule _ Hacc)).
  - exact (complicit_not_recruited _ H Hacc).
  - exact (recruited_not_exploited _ Hacc H).
Qed.

Lemma census_of_exploited acc es :
  In acc EXPLOITED_MULES -> account_census acc es -> exploited_census acc es.
Proof.
  intros Hacc [[H _]|[[H _]|[[H _]|[_ H]]]]; [exfalso..| exact H].
  - exact (normal_not_mule _ H (EXPLOITED_is_mule _ Hacc)).
  - exact (complicit_not_exploited _ H Hacc).
  - exact (recruited_not_exploited _ H Hacc).
Qed.

Lemma flatten_Forall (P : entry -> Prop) bs :
  Forall (fun b => Forall P (fst b) /\ Forall P (snd b)) bs ->
  Forall P (flatten bs).
Proof.
  unfold flatten. induction 1 as [|b bs [H1 H2] _ IH];
    cbn [map List.concat]; [constructor|].
  repeat (apply Forall_app; split); assumption.
Qed.

(** X15.  A complicit mule forwards to one or two fixed criminal
    receivers: the counterparties of all its debits are among one or two
    distinct external entities of the reserved range, chosen once for the
    account. *)
Theorem complicit_receivers_are_fixed (py : N -> Z) (np : N -> Q) :
  exists s,
    run py np = Returns tt s
    /\ forall acc, In acc COMPLICIT_MULES ->
         exists receivers,
           (1 <= List.length receivers <= 2)%nat
           /\ NoDup receivers
           /\ incl receivers (Py.slice 0 20 EXTERNAL_IDS)
           /\ Forall (fun r => txn_type r = "debit" ->
                               In (counterparty r) receivers)
                     (rows_of acc (transactions s)).
Proof.
  destruct (account_rows py np) as (s & Hrun & Hrows).
  exists s. split; [exact Hrun|]. intros acc Hacc.
  destruct (Hrows acc (complicit_is_holder _ Hacc)) as (seg & Hseg & ->).
  destruct (census_of_complicit _ _ Hacc Hseg)
    as (receivers & senders & bs & L1 & N1 & I1 & _ & _ & _ & -> & Hbs).
  exists receivers. split; [exact L1|]. split; [exact N1|].
  split; [exact I1|].
  apply Forall_map. apply flatten_Forall.
  eapply Forall2_right; [|exact Hbs].
  intros sender b (_ & _ & Hc & Hd). split.
  - eapply Forall_impl; [|exact Hc].
    intros e (_ & _ & _ & Ht) Ht'. rewrite Ht in Ht'. discriminate Ht'.
  - eapply Forall_impl; [|exact Hd]. intros e (_ & _ & Hin & _) _. exact Hin.
Qed.

Lemma complicit_batch_emitted acc receivers sender b :
  complicit_batch acc receivers sender b -> emitted_batch (rows_of_batch b).
Proof.
  intros (Hlen & Hlen' & Hc & Hd).
  unfold emitted_batch, rows_of_batch. cbn [fst snd].
  split; [destruct (fst b); [simpl in Hlen; lia | discriminate]|].
  split; [destruct (snd b); [simpl in Hlen'; lia | discriminate]|].
  split; apply Forall_map.
  - eapply Forall_impl; [|exact Hc]. intros e (_ & _ & _ & Ht).
    unfold is_credit. now rewrite Ht.
  - eapply Forall_impl; [|exact Hd]. intros e (_ & _ & _ & Ht).
    unfold is_credit. now rewrite Ht.
Qed.

(** X16.  The rows of a complicit mule are 8 to 20 sender batches, one
    per victim sender: cut into maximal runs of credits followed by
    debits, they give one batch for each of 8 to 20 pairwise distinct
    normal accounts, and the batch of a sender holds 3 to 8 credits, all
    from that sender, and as many debits. *)
Theorem complicit_batches_by_sender (py : N -> Z) (np : N -> Q) :
  exists s,
    run py np = Returns tt s
    /\ forall acc, In acc COMPLICIT_MULES ->
         exists senders,
           (8 <= List.length senders <= 20)%nat
           /\ NoDup senders
           /\ incl senders NORMAL_IDS
           /\ Forall2
                (fun sender b =>
                   (3 <= List.length (fst b) <= 8)%nat
                   /\ List.length (snd b) = List.length (fst b)
                   /\ Forall (fun c => is_credit c = true
                                       /\ counterparty c = sender) (fst b)
                   /\ Forall (fun d => is_debit d = true) (snd b))
                senders (batches (rows_of acc (transactions s))).
Proof.
  destruct (account_rows py np) as (s & Hrun & Hrows).
  exists s. split; [exact Hrun|]. intros acc Hacc.
  destruct (Hrows acc (complicit_is_holder _ Hacc)) as (seg & Hseg & ->).
  destruct (census_of_complicit _ _ Hacc Hseg)
    as (receivers & senders & bs & _ & _ & _ & L2 & N2 & I2 & -> & Hbs).
  exists senders. split; [exact L2|]. split; [exact N2|].
  split; [exact I2|].
  rewrite flatten_rows, batches_flat.
  - apply Forall2_map_r. eapply Forall2_weaken; [|exact Hbs].
    intros sender b (Hlen & Hlen' & Hc & Hd).
    unfold rows_of_batch. cbn [fst snd]. rewrite !length_map.
    split; [exact Hlen|]. split; [exact Hlen'|]. split; apply Forall_map.
    + eapply Forall_impl; [|exact Hc]. intros e (_ & _ & Hcp & Ht).
      unfold is_credit. rewrite Ht. auto.
    + eapply Forall_impl; [|exact Hd]. intros e (_ & _ & _ & Ht).
      unfold is_debit. now rewrite Ht.
  - apply Forall_map. eapply Forall2_right; [|exact Hbs].
    intros sender b Hb. exact (complicit_batch_emitted _ _ _ _ Hb).
Qed.

(** X17.  Within a sender batch of a complicit mule every debit is
    computed from the same credit, the last one of the batch: the script
    reads the variable [amount] in the debit loop, after the credit loop
    has left in it the amount of the last credit.  Each debit is
    [round_amount] of between 92% and 99% of that amount. *)
Theorem debits_skim_the_last_credit (py : N -> Z) (np : N -> Q) :
  exists s,
    run py np = Returns tt s
    /\ forall acc, In acc COMPLICIT_MULES ->
         Forall
           (fun b =>
              fst b <> []
              /\ forall d, In d (snd b) ->
                   exists f,
                     (92 # 100 <= f)%Q /\ (f <= 99 # 100)%Q
                     /\ (amount d = smurf (amount (last (fst b) d) * f)
                         \/ amount d
                            = Py.round2 (amount (last (fst b) d) * f)))
           (batches (rows_of acc (transactions s))).
Proof.
  destruct (complicit_rows py np) as (s & Hrun & Hrows).
  exists s. split; [exact Hrun|]. intros acc Hacc.
  destruct (Hrows acc Hacc) as (bs & Hbs & _ & ->).
  apply Forall_map. eapply Forall_impl; [|exact Hbs].
  intros b (sender & cs & c & _ & Ecs & _ & _ & Hd).
  unfold rows_of_batch. cbn [fst snd]. rewrite Ecs, map_app. cbn [map].
  split; [destruct (map snd cs); discriminate|].
  intros d Hin. rewrite last_last.
  apply in_map_iff in Hin. destruct Hin as (e & <- & Hin).
  rewrite Forall_forall in Hd.
  destruct (Hd e Hin) as (_ & _ & _ & _ & Hk). exact Hk.
Qed.

(** X18.  The rows of a recruited mule are emitted as 50 to 120
    unflagged rows followed by 80 to 200 flagged rows, and the flagged
    credits all come from one to three fixed handlers: distinct external
    entities among the entities 21 to 35, chosen once for the account. *)
Theorem recruited_history_then_handlers (py : N -> Z) (np : N -> Q) :
  exists s,
    run py np = Returns tt s
    /\ forall acc, In acc RECRUITED_MULES ->
         exists handlers history active,
           rows_of acc (transactions s) = history ++ active
           /\ (50 <= List.length history <= 120)%nat
           /\ (80 <= List.length active <= 200)%nat
           /\ Forall (fun r => is_mule r = 0) history
           /\ (1 <= List.length handlers <= 3)%nat
           /\ NoDup handlers
           /\ incl handlers (Py.slice 20 35 EXTERNAL_IDS)
           /\ Forall (fun r => is_mule r = 1
                               /\ (txn_type r = "credit" ->
                                   In (counterparty r) handlers))
                     active.
Proof.
  destruct (account_rows py np) as (s & Hrun & Hrows).
  exists s. split; [exact Hrun|]. intros acc Hacc.
  destruct (Hrows acc (recruited_is_holder _ Hacc)) as (seg & Hseg & ->).
  destruct (census_of_recruited _ _ Hacc Hseg)
    as (handlers & l1 & l2 & L & N & I0 & -> & L1 & L2 & H1 & H2).
  exists handlers, (map snd l1), (map snd l2). rewrite !length_map.
  split; [apply map_app|]. split; [exact L1|]. split; [exact L2|].
  split; [|split; [exact L|split; [exact N|split; [exact I0|]]]];
    apply Forall_map.
  - eapply Forall_impl; [|exact H1]. intros [o r] [Ho (Hr & _)].
    cbn [fst snd] in *. subst o. exact (row_flag _ _ Hr).
  - eapply Forall_impl; [|exact H2].
    intros [o r] [(Hr & _) [[Ho Hin]|Ho]]; cbn [fst snd] in *; subst o.
    + split; [exact (row_flag _ _ Hr) | auto].
    + split; [exact (row_flag _ _ Hr)|]. intros Ht. wrong_direction Hr Ht.
Qed.

(** X19.  The rows of an exploited mule are emitted as 100 to 250
    unflagged rows followed by a burst of 10 to 30 flagged rows.  The
    burst is dated within four consecutive days, starting at one takeover
    day drawn for the account among days 91 to 120 of the window, and goes
    to two to four fixed destinations: distinct external entities among
    the entities 36 to 50, chosen once for the account. *)
Theorem exploited_takeover_burst (py : N -> Z) (np : N -> Q) :
  exists s,
    run py np = Returns tt s
    /\ forall acc, In acc EXPLOITED_MULES ->
         exists dests takeover history burst,
           rows_of acc (transactions s) = history ++ burst
           /\ (100 <= List.length history <= 250)%nat
           /\ (10 <= List.length burst <= 30)%nat
           /\ Forall (fun r => is_mule r = 0) history
           /\ 91 <= takeover <= 120
           /\ (2 <= List.length dests <= 4)%nat
           /\ NoDup dests
           /\ incl dests (skipn 35 EXTERNAL_IDS)
           /\ Forall
                (fun r =>
                   is_mule r = 1
                   /\ In (counterparty r) dests
                   /\ exists ts,
                       strptime (timestamp r) = Some ts
                       /\ day_start takeover <= seconds_of ts
                       /\ seconds_of ts < day_start (takeover + 4))
                burst.
Proof.
  destruct (account_rows py np) as (s & Hrun & Hrows).
  exists s. split; [exact Hrun|]. intros acc Hacc.
  destruct (Hrows acc (exploited_is_holder _ Hacc)) as (seg & Hseg & ->).
  destruct (census_of_exploited _ _ Hacc Hseg)
    as (dests & takeover & l1 & l2 & L & N & I0 & Hto & -> & L1 & L2
        & H1 & H2).
  exists dests, takeover, (map snd l1), (map snd l2). rewrite !length_map.
  split; [apply map_app|]. split; [exact L1|]. split; [exact L2|].
  split; [|split; [exact Hto|split; [exact L|split; [exact N|
           split; [exact I0|]]]]]; apply Forall_map.
  - eapply Forall_impl; [|exact H1]. intros [o r] [Ho (Hr & _)].
    cbn [fst snd] in *. subst o. exact (row_flag _ _ Hr).
  - eapply Forall_impl; [|exact H2].
    intros [o r] (Ho & (Hr & _) & Hin & ts & E & Hts).
    cbn [fst snd] in *. subst o.
    split; [exact (row_flag _ _ Hr)|]. split; [exact Hin|].
    exists ts. rewrite E. split; [exact (ts_ok_parses _ _ _ _ Hts)|].
    destruct (day_bounds _ _ _ _ Hts) as [B1 B2].
    unfold day_start. split; [exact B1|].
    replace (toordinal START_DATE + (takeover + 4))
      with (toordinal START_DATE + (takeover + 3) + 1) by lia.
    exact B2.
Qed.

(** ** Sizes *)

(** The figures of the summary the script prints: [len(df)],
    [df['is_mule'].sum()], [df['is_mule'].mean() * 100] and
    [df['account_id'].nunique()]. *)
Definition total_transactions (df : list txn) : Z :=
  Z.of_nat (List.length df).

Definition mule_transactions (df : list txn) : Z :=
  fold_right Z.add 0 (map is_mule df).

Definition mule_percentage (df : list txn) : Q :=
  (inject_Z (mule_transactions df) / inject_Z (total_transactions df)
   * 100)%Q.

Definition nunique (l : list string) : nat :=
  List.length (nodup string_dec l).

Lemma mule_transactions_app l1 l2 :
  mule_transactions (l1 ++ l2) = mule_transactions l1 + mule_transactions l2.
Proof.
  unfold mule_transactions.
  induction l1 as [|r l1 IH]; cbn [app map fold_right].
  - reflexivity.
  - rewrite IH. lia.
Qed.

Lemma mule_transactions_perm l1 l2 :
  Permutation l1 l2 -> mule_transactions l1 = mule_transactions l2.
Proof.
  unfold mule_transactions.
  induction 1; cbn [map fold_right]; lia.
Qed.

Lemma mule_transactions_all l :
  Forall (fun r => is_mule r = 1) l ->
  mule_transactions l = Z.of_nat (List.length l).
Proof.
  unfold mule_transactions.
  induction 1 as [|r l Hr _ IH]; cbn [map fold_right List.length];
    [reflexivity|]. rewrite IH, Hr. lia.
Qed.

Lemma mule_transactions_none l :
  Forall (fun r => is_mule r = 0) l -> mule_transactions l = 0.
Proof.
  unfold mule_transactions.
  induction 1 as [|r l Hr _ IH]; cbn [map fold_right]; [reflexivity|].
  rewrite IH, Hr. lia.
Qed.

(** The flagged and the unflagged rows of a segment lie between bounds. *)
Definition sized (n1 n2 m1 m2 : Z) (es : list entry) : Prop :=
  let m := mule_transactions (map snd es) in
  let n := Z.of_nat (List.length es) - m in
  n1 <= n <= n2 /\ m1 <= m <= m2.

Lemma sized_concat n1 n2 m1 m2 (ess : list (list entry)) :
  Forall (sized n1 n2 m1 m2) ess ->
  sized (Z.of_nat (List.length ess) * n1) (Z.of_nat (List.length ess) * n2)
        (Z.of_nat (List.length ess) * m1) (Z.of_nat (List.length ess) * m2)
        (List.concat ess).
Proof.
  unfold sized. cbv zeta.
  induction 1 as [|es ess [Hn Hm] _ IH]; cbn [List.concat List.length].
  - cbn. lia.
  - rewrite map_app, mule_transactions_app, length_app. lia.
Qed.

Lemma sized_app n1 n2 m1 m2 n1' n2' m1' m2' es es' :
  sized n1 n2 m1 m2 es -> sized n1' n2' m1' m2' es' ->
  sized (n1 + n1') (n2 + n2') (m1 + m1') (m2 + m2') (es ++ es').
Proof.
  unfold sized. cbv zeta. intros [Hn Hm] [Hn' Hm'].
  rewrite map_app, mule_transactions_app, length_app. lia.
Qed.

Lemma census_flags_none acc (o : rule) es :
  mule_rule o = false ->
  Forall (fun e => fst e = o /\ census_row acc e) es ->
  Forall (fun r => is_mule r = 0) (map snd es).
Proof.
  intros Ho H. apply Forall_map. eapply Forall_impl; [|exact H].
  intros [o' r] [E (Hr & _)]. cbn [fst snd] in *. subst o'.
  pose proof (row_flag _ _ Hr) as Hf. now rewrite Ho in Hf.
Qed.

Lemma normal_census_sized acc es :
  normal_census acc es -> sized 200 600 0 0 es.
Proof.
  intros [Hlen H]. unfold sized. cbv zeta.
  rewrite (mule_transactions_none (map snd es))
    by exact (census_flags_none acc NormalActivity es eq_refl H).
  lia.
Qed.

Lemma complicit_batch_sized acc receivers sender b :
  complicit_batch acc receivers sender b -> sized 0 0 6 16 (fst b ++ snd b).
Proof.
  intros (Hlen & Hlen' & Hc & Hd). unfold sized. cbv zeta.
  rewrite (mule_transactions_all (map snd (fst b ++ snd b))).
  - rewrite length_map, length_app. lia.
  - apply Forall_map. apply Forall_app. split.
    + eapply Forall_impl; [|exact Hc]. intros [o r] (E & (Hr & _) & _).
      cbn [fst snd] in *. subst o. exact (row_flag _ _ Hr).
    + eapply Forall_impl; [|exact Hd]. intros [o r] (E & (Hr & _) & _).
      cbn [fst snd] in *. subst o. exact (row_flag _ _ Hr).
Qed.

Lemma sized_weaken n1 n2 m1 m2 n1' n2' m1' m2' es :
  n1' <= n1 -> n2 <= n2' -> m1' <= m1 -> m2 <= m2' ->
  sized n1 n2 m1 m2 es -> sized n1' n2' m1' m2' es.
Proof. unfold sized. cbv zeta. lia. Qed.

Lemma complicit_census_sized acc es :
  complicit_census acc es -> sized 0 0 48 320 es.
Proof.
  intros (receivers & senders & bs & _ & _ & _ & L & _ & _ & -> & Hbs).
  unfold flatten.
  assert (Hs : Forall (sized 0 0 6 16) (map (fun b => fst b ++ snd b) bs)).
  { apply Forall_map. eapply Forall2_right; [|exact Hbs].
    intros sender b. apply complicit_batch_sized. }
  apply sized_concat in Hs. rewrite length_map in Hs.
  rewrite <- (Forall2_length Hbs) in Hs.
  eapply sized_weaken; [| | | |exact Hs]; nia.
Qed.

Lemma recruited_census_sized acc es :
  recruited_census acc es -> sized 50 120 80 200 es.
Proof.
  intros (handlers & l1 & l2 & _ & _ & _ & -> & L1 & L2 & H1 & H2).
  unfold sized. cbv zeta.
  rewrite map_app, mule_transactions_app, length_app.
  rewrite (mule_transactions_none (map snd l1))
    by exact (census_flags_none acc RecruitedPhase1 l1 eq_refl H1).
  rewrite (mule_transactions_all (map snd l2)).
  - rewrite length_map. lia.
  - apply Forall_map. eapply Forall_impl; [|exact H2].
    intros [o r] [(Hr & _) [[E _]|E]]; cbn [fst snd] in *; subst o;
      exact (row_flag _ _ Hr).
Qed.

Lemma exploited_census_sized acc es :
  exploited_census acc es -> sized 100 250 10 30 es.
Proof.
  intros (dests & takeover & l1 & l2 & _ & _ & _ & _ & -> & L1 & L2 & H1 & H2).
  unfold sized. cbv zeta.
  rewrite map_app, mule_transactions_app, length_app.
  rewrite (mule_transactions_none (map snd l1))
    by exact (census_flags_none acc ExploitedPhase1 l1 eq_refl H1).
  rewrite (mule_transactions_all (map snd l2)).
  - rewrite length_map. lia.
  - apply Forall_map. eapply Forall_impl; [|exact H2].
    intros [o r] (E & (Hr & _) & _). cbn [fst snd] in *. subst o.
    exact (row_flag _ _ Hr).
Qed.

Lemma MULE_groups_length :
  List.length COMPLICIT_MULES = 10%nat
  /\ List.length RECRUITED_MULES = 10%nat
  /\ List.length EXPLOITED_MULES = 10%nat.
Proof. repeat split; reflexivity. Qed.

Lemma run_census_sized l :
  run_census l -> sized 61500 183700 1380 5500 l.
Proof.
  intros (n & c & r & x & -> & Hn & Hc & Hr & Hx).
  destruct MULE_groups_length as (Lc & Lr & Lx).
  assert (Sn : Forall (sized 200 600 0 0) n)
    by (eapply Forall2_right; [|exact Hn];
        intros a es; apply normal_census_sized).
  assert (Sc : Forall (sized 0 0 48 320) c)
    by (eapply Forall2_right; [|exact Hc];
        intros a es; apply complicit_census_sized).
  assert (Sr : Forall (sized 50 120 80 200) r)
    by (eapply Forall2_right; [|exact Hr];
        intros a es; apply recruited_census_sized).
  assert (Sx : Forall (sized 100 250 10 30) x)
    by (eapply Forall2_right; [|exact Hx];
        intros a es; apply exploited_census_sized).
  apply sized_concat in Sn, Sc, Sr, Sx.
  rewrite <- (Forall2_length Hn), NORMAL_IDS_length in Sn.
  rewrite <- (Forall2_length Hc), Lc in Sc.
  rewrite <- (Forall2_length Hr), Lr in Sr.
  rewrite <- (Forall2_length Hx), Lx in Sx.
  pose proof (sized_app _ _ _ _ _ _ _ _ _ _ Sn
                (sized_app _ _ _ _ _ _ _ _ _ _ Sc
                   (sized_app _ _ _ _ _ _ _ _ _ _ Sr Sx))) as S.
  eapply sized_weaken; [| | | |exact S]; vm_compute; discriminate.
Qed.

(** X20.  The size of the data set: whatever the draws, a run emits
    between 62880 and 189200 rows (300 normal accounts with 200 to 600
    rows each and 30 mules), of which between 1380 and 5500 are flagged;
    the data frame holds as many rows, and the counter ends one above the
    number of rows.  The share of flagged rows the summary reports lies
    between 0.74 and 8.21 percent. *)
Theorem row_count_bounds `{Pandas} (py : N -> Z) (np : N -> Q) :
  exists s,
    run py np = Returns tt s
    /\ txn_counter s = total_transactions (transactions s) + 1
    /\ total_transactions (dataframe s) = total_transactions (transactions s)
    /\ 62880 <= total_transactions (dataframe s) <= 189200
    /\ 1380 <= mule_transactions (dataframe s) <= 5500
    /\ (74 # 100 <= mule_percentage (dataframe s))%Q
    /\ (mule_percentage (dataframe s) <= 821 # 100)%Q.
Proof.
  destruct (run_census_spec py np) as (s & Hrun & HT & HC & Hcensus).
  exists s. split; [exact Hrun|].
  assert (HP : Permutation (transactions s) (dataframe s))
    by apply sort_values_perm.
  pose proof (run_census_sized _ Hcensus) as S. unfold sized in S.
  cbv zeta in S. rewrite <- HT in S.
  replace (List.length (entries s)) with (List.length (transactions s)) in S
    by (rewrite HT; apply length_map).
  unfold mule_percentage, total_transactions.
  rewrite <- (mule_transactions_perm _ _ HP), <- (Permutation_length HP).
  set (m := mule_transactions (transactions s)) in *.
  set (t := Z.of_nat (List.length (transactions s))) in *.
  split; [lia|]. split; [reflexivity|]. split; [lia|]. split; [lia|].
  assert (Ht : (0 < inject_Z t)%Q)
    by (unfold Qlt; simpl; lia).
  assert (E : (inject_Z m / inject_Z t * 100
               == (inject_Z m * 100) / inject_Z t)%Q)
    by (field; intros E0; rewrite E0 in Ht; discriminate Ht).
  assert (H1 : (inject_Z 74 * inject_Z t <= inject_Z 10000 * inject_Z m)%Q)
    by (rewrite <- !inject_Z_mult, <- Zle_Qle; lia).
  assert (H2 : (inject_Z 10000 * inject_Z m <= inject_Z 821 * inject_Z t)%Q)
    by (rewrite <- !inject_Z_mult, <- Zle_Qle; lia).
  change (inject_Z 74) with 74%Q in H1.
  change (inject_Z 10000) with 10000%Q in H1, H2.
  change (inject_Z 821) with 821%Q in H2.
  rewrite E. clear E S. clearbody m t.
  generalize dependent (inject_Z m). generalize dependent (inject_Z t).
  intros T HT' M H1 H2. split.
  - apply Qle_shift_div_l; [exact HT'|]. lra.
  - apply Qle_shift_div_r; [exact HT'|]. lra.
Qed.

Lemma sized_length n1 n2 m1 m2 es :
  sized n1 n2 m1 m2 es ->
  n1 + m1 <= Z.of_nat (List.length es) <= n2 + m2.
Proof. unfold sized. cbv zeta. lia. Qed.

Lemma account_census_length acc es :
  account_census acc es -> (48 <= List.length es <= 600)%nat.
Proof.
  intros [[_ H]|[[_ H]|[[_ H]|[_ H]]]].
  - apply normal_census_sized, sized_length in H. lia.
  - apply complicit_census_sized, sized_length in H. lia.
  - apply recruited_census_sized, sized_length in H. lia.
  - apply exploited_census_sized, sized_length in H. lia.
Qed.

Lemma ALL_ACCOUNT_IDS_length : List.length ALL_ACCOUNT_IDS = 330%nat.
Proof. vm_compute. reflexivity. Qed.

(** X21.  Every account holder transacts: each of the 330 normal and mule
    accounts is the account of at least one row of the data frame, and no
    other identifier is, so that the number of distinct accounts the
    summary reports is 330. *)
Theorem every_account_transacts `{Pandas} (py : N -> Z) (np : N -> Q) :
  exists s,
    run py np = Returns tt s
    /\ (forall acc, In acc ALL_ACCOUNT_IDS
                    <-> In acc (map account_id (dataframe s)))
    /\ nunique (map account_id (dataframe s)) = 330%nat.
Proof.
  destruct (account_rows py np) as (s & Hrun & Hrows).
  exists s. split; [exact Hrun|].
  assert (HP : Permutation (transactions s) (dataframe s))
    by apply sort_values_perm.
  assert (Hiff : forall acc, In acc ALL_ACCOUNT_IDS
                             <-> In acc (map account_id (dataframe s))).
  { intros acc. split.
    - intros Hacc. destruct (Hrows acc Hacc) as (seg & Hseg & E).
      pose proof (account_census_length _ _ Hseg) as Hlen.
      destruct seg as [|e seg]; [simpl in Hlen; lia|].
      assert (Hin : In (snd e) (rows_of acc (transactions s)))
        by (rewrite E; now left).
      apply filter_In in Hin. destruct Hin as [Hin Heq].
      apply String.eqb_eq in Heq. rewrite <- Heq.
      apply in_map. exact (Permutation_in _ HP Hin).
    - intros Hin. apply in_map_iff in Hin. destruct Hin as (r & <- & Hr).
      destruct (output_rows py np) as (s' & Hrun' & Hall).
      assert (s' = s) by congruence. subst s'.
      rewrite Forall_forall in Hall. destruct (Hall r Hr) as [Hinv _].
      exact (accounts_of_holders _ _ (row_account _ _ Hinv)). }
  split; [exact Hiff|].
  unfold nunique. rewrite <- ALL_ACCOUNT_IDS_length.
  apply Permutation_length. apply NoDup_Permutation.
  - apply NoDup_nodup.
  - exact ALL_ACCOUNT_IDS_NoDup.
  - intros acc. rewrite nodup_In. symmetry. apply Hiff.
Qed.

Lemma map_account_repeat acc (es : list entry) :
  Forall (census_row acc) es ->
  map account_id (map snd es) = repeat acc (List.length es).
Proof.
  induction 1 as [|e es (_ & Ha & _) _ IH]; [reflexivity|].
  cbn [map List.length repeat]. now rewrite Ha, IH.
Qed.

Lemma grouped_segments accs segs :
  Forall2 account_census accs segs ->
  map account_id (map snd (List.concat segs))
  = List.concat (map (fun p => repeat (fst p) (snd p))
                     (combine accs (map (@List.length entry) segs))).
Proof.
  induction 1 as [|acc seg accs segs Hseg _ IH]; [reflexivity|].
  cbn [List.concat map combine fst snd].
  rewrite !map_app, IH.
  now rewrite (map_account_repeat acc seg (account_census_rows _ _ Hseg)).
Qed.

(** The number of rows an account of each pool contributes. *)
Definition block_size (acc : string) (n : nat) : Prop :=
  (In acc NORMAL_IDS -> (200 <= n <= 600)%nat)
  /\ (In acc COMPLICIT_MULES -> (48 <= n <= 320)%nat)
  /\ (In acc RECRUITED_MULES -> (130 <= n <= 320)%nat)
  /\ (In acc EXPLOITED_MULES -> (110 <= n <= 280)%nat).

Lemma account_census_block acc es :
  In acc ALL_ACCOUNT_IDS -> account_census acc es ->
  block_size acc (List.length es).
Proof.
  intros _ H. unfold block_size.
  split; [|split; [|split]]; intros Hin.
  - destruct H as [[_ H]|[[Hc _]|[[Hr _]|[Hx _]]]].
    + apply normal_census_sized, sized_length in H. lia.
    + exfalso. exact (complicit_not_normal _ Hc Hin).
    + exfalso. exact (normal_not_mule _ Hin (RECRUITED_is_mule _ Hr)).
    + exfalso. exact (normal_not_mule _ Hin (EXPLOITED_is_mule _ Hx)).
  - apply census_of_complicit in H; [|exact Hin].
    apply complicit_census_sized, sized_length in H. lia.
  - apply census_of_recruited in H; [|exact Hin].
    apply recruited_census_sized, sized_length in H. lia.
  - apply census_of_exploited in H; [|exact Hin].
    apply exploited_census_sized, sized_length in H. lia.
Qed.

(** X22.  The rows are emitted account by account, in the order of the
    population: the column of accounts of the emitted rows is the
    identifier of the first normal account repeated, then that of the
    second, and so on through the normal accounts and the mules, each
    account contributing one unbroken block: 200 to 600 rows for a normal
    account, 48 to 320 for a complicit mule, 130 to 320 for a recruited
    one and 110 to 280 for an exploited one. *)
Theorem rows_grouped_by_account (py : N -> Z) (np : N -> Q) :
  exists s,
    run py np = Returns tt s
    /\ exists counts : list nat,
         Forall2 block_size ALL_ACCOUNT_IDS counts
         /\ map account_id (transactions s)
            = List.concat (map (fun p => repeat (fst p) (snd p))
                               (combine ALL_ACCOUNT_IDS counts)).
Proof.
  destruct (run_accounts py np) as (s & Hrun & HT & _ & segs & E & Hsegs).
  exists s. split; [exact Hrun|].
  exists (map (@List.length entry) segs). split.
  - apply Forall2_map_r.
    eapply Forall2_weaken; [|exact (Forall2_In _ _ _ Hsegs)].
    intros acc es [Hin H]. now apply account_census_block.
  - rewrite HT, E. now apply grouped_segments.
Qed.


(** ** Width of the identifiers *)

Lemma of_uint_acc_bounds d acc :
  Z.pos acc * 10 ^ Z.of_nat (Decimal.nb_digits d)
  <= Z.pos (Pos.of_uint_acc d acc)
  < (Z.pos acc + 1) * 10 ^ Z.of_nat (Decimal.nb_digits d).
Proof.
  revert acc.
  induction d as [|d IH|d IH|d IH|d IH|d IH|d IH|d IH|d IH|d IH|d IH];
    intros acc; cbn [Pos.of_uint_acc Decimal.nb_digits];
    [cbn; lia| ..];
    rewrite Nat2Z.inj_succ, Z.pow_succ_r by lia;
    match goal with
    | |- context [Pos.of_uint_acc d ?a] => specialize (IH a)
    end;
    assert (0 < 10 ^ Z.of_nat (Decimal.nb_digits d))
      by (apply Z.pow_pos_nonneg; lia);
    nia.
Qed.

Lemma string_of_uint_length d :
  String.length (NilEmpty.string_of_uint d) = Decimal.nb_digits d.
Proof.
  induction d; cbn [NilEmpty.string_of_uint String.length Decimal.nb_digits];
    congruence.
Qed.

Lemma to_uint_normal p : Decimal.unorm (Pos.to_uint p) = Pos.to_uint p.
Proof.
  rewrite <- DecimalPos.Unsigned.to_of, DecimalPos.Unsigned.of_to.
  reflexivity.
Qed.

Lemma nzhead_D0 d : Decimal.nzhead (Decimal.D0 d) <> Decimal.D0 d.
Proof.
  intros E. pose proof (DecimalFacts.nb_digits_nzhead d) as H.
  cbn [Decimal.nzhead] in E. rewrite E in H. cbn [Decimal.nb_digits] in H.
  lia.
Qed.

(** The number of digits of the decimal rendering of a positive number. *)
Lemma to_uint_magnitude p :
  let n := Z.of_nat (Decimal.nb_digits (Pos.to_uint p)) in
  10 ^ (n - 1) <= Z.pos p < 10 ^ n.
Proof.
  cbv zeta.
  pose proof (to_uint_normal p) as Hn.
  pose proof (DecimalPos.Unsigned.to_uint_nonzero p) as Hz.
  pose proof (DecimalPos.Unsigned.of_to p) as Hv.
  destruct (Pos.to_uint p) as [|d|d|d|d|d|d|d|d|d|d];
    cbn [Pos.of_uint] in Hv; try discriminate Hv;
    [ exfalso; unfold Decimal.unorm in Hn;
      destruct (Decimal.nzhead (Decimal.D0 d)) eqn:E;
      first [congruence | apply (nzhead_D0 d); congruence]
    | .. ];
    injection Hv as <-;
    match goal with
    | |- context [Pos.of_uint_acc d ?a] =>
        pose proof (of_uint_acc_bounds d a) as B
    end;
    cbn [Decimal.nb_digits]; rewrite Nat2Z.inj_succ;
    replace (Z.succ (Z.of_nat (Decimal.nb_digits d)) - 1)
      with (Z.of_nat (Decimal.nb_digits d)) by lia;
    rewrite Z.pow_succ_r by lia; lia.
Qed.

Lemma str_pos p :
  Py.str (Z.pos p) = NilEmpty.string_of_uint (Pos.to_uint p).
Proof.
  unfold Py.str. cbn [Z.to_int NilZero.string_of_int].
  unfold NilZero.string_of_uint.
  pose proof (DecimalPos.Unsigned.to_uint_nonnil p) as H.
  destruct (Pos.to_uint p); [congruence | reflexivity ..].
Qed.

(** [str(c)] has at most [k] characters exactly when [c < 10 ** k]. *)
Lemma str_length (k : nat) (c : Z) :
  0 <= c -> (1 <= k)%nat ->
  ((String.length (Py.str c) <= k)%nat <-> c < 10 ^ Z.of_nat k).
Proof.
  intros Hc Hk. destruct c as [|p|p]; [| |lia].
  - change (String.length (Py.str 0)) with 1%nat.
    assert (0 < 10 ^ Z.of_nat k) by (apply Z.pow_pos_nonneg; lia). lia.
  - rewrite str_pos, string_of_uint_length.
    pose proof (to_uint_magnitude p) as M. cbv zeta in M.
    set (n := Decimal.nb_digits (Pos.to_uint p)) in *. split; intros H.
    + apply Z.lt_le_trans with (10 ^ Z.of_nat n); [lia|].
      apply Z.pow_le_mono_r; lia.
    + destruct (Nat.le_gt_cases n k) as [L|G]; [exact L|].
      exfalso. assert (10 ^ Z.of_nat k <= 10 ^ (Z.of_nat n - 1))
        by (apply Z.pow_le_mono_r; lia). lia.
Qed.

Lemma zeros_length n : String.length (Py.zeros n) = n.
Proof. induction n; simpl; congruence. Qed.

Lemma append_length (a b : string) :
  String.length (a ++ b) = (String.length a + String.length b)%nat.
Proof. induction a; simpl; congruence. Qed.

(** [s.zfill(w)] pads to [w] characters and never shortens. *)
Lemma zfill_length w s :
  String.length (Py.zfill w s) = Nat.max w (String.length s).
Proof. unfold Py.zfill. rewrite append_length, zeros_length. lia. Qed.

Lemma txn_id_of_length c :
  String.length (txn_id_of c)
  = (3 + Nat.max 8 (String.length (Py.str c)))%nat.
Proof.
  unfold txn_id_of. now rewrite append_length, zfill_length.
Qed.

(** X23.  The identifier written for the counter value [c] is the prefix
    TXN and eight digits, eleven characters in all, exactly as long as
    the counter has not reached 100000000; from there on [zfill] no
    longer pads and the identifier is longer. *)
Theorem txn_id_width (c : Z) :
  0 <= c ->
  (String.length (txn_id_of c) = 11%nat <-> c < 10 ^ 8).
Proof.
  intros Hc. rewrite txn_id_of_length.
  pose proof (str_length 8 c Hc) as H. change (Z.of_nat 8) with 8 in H.
  rewrite <- H by lia. lia.
Qed.

Lemma txn_id_width_witness :
  0 <= 42 /\ (String.length (txn_id_of 42) = 11%nat <-> 42 < 10 ^ 8).
Proof. split; [lia | apply (txn_id_width 42); lia]. Defined.

(** X24.  Every identifier of a run has eleven characters: the counter
    stays far below 100000000. *)
Theorem txn_ids_have_fixed_width `{Pandas} (py : N -> Z) (np : N -> Q) :
  exists s,
    run py np = Returns tt s
    /\ Forall (fun r => String.length (txn_id r) = 11%nat) (dataframe s).
Proof.
  destruct (run_census_spec py np) as (s & Hrun & HT & _ & Hcensus).
  exists s. split; [exact Hrun|].
  eapply Permutation_Forall; [apply sort_values_perm|].
  pose proof (sized_length _ _ _ _ _ (run_census_sized _ Hcensus)) as Hlen.
  replace (List.length (entries s)) with (List.length (transactions s))
    in Hlen by (rewrite HT; apply length_map).
  destruct (run_ids py np) as (s' & Hrun' & Hids).
  assert (s' = s) by congruence. subst s'.
  apply Forall_forall. intros r Hr.
  destruct (In_nth_error _ _ Hr) as (i & Hi).
  rewrite (Hids _ _ Hi), txn_id_of_length.
  assert (i < List.length (transactions s))%nat
    by (apply nth_error_Some; congruence).
  assert (L : (String.length (Py.str (Z.of_nat i + 1)) <= 8)%nat).
  { apply str_length; [lia | lia|]. change (Z.of_nat 8) with 8. lia. }
  lia.
Qed.

(** ** Identifiers of the population *)

Lemma append_cancel (p a b : string) : (p ++ a = p ++ b)%string -> a = b.
Proof.
  induction p as [|ch p IH]; cbn [append]; [auto|].
  intros E. injection E as E. auto.
Qed.

Lemma zfill_number w c :
  0 <= c ->
  option_map Z.of_uint (NilEmpty.uint_of_string (Py.zfill w (Py.str c)))
  = Some c.
Proof.
  intros Hc. destruct (str_nonneg c Hc) as (d & Es & Ed).
  unfold Py.zfill. rewrite Es, uint_of_zeros.
  cbn [option_map]. now rewrite of_uint_zeros, Ed.
Qed.

(** Two different non-negative numbers never give the same identifier. *)
Lemma make_id_distinct (prefix : string) (i j : Z) :
  0 <= i -> 0 <= j -> i <> j -> make_id prefix i <> make_id prefix j.
Proof.
  intros Hi Hj Hne E. unfold make_id in E. apply append_cancel in E.
  pose proof (zfill_number 5 i Hi) as Ni.
  pose proof (zfill_number 5 j Hj) as Nj.
  rewrite E in Ni. congruence.
Qed.

(** X25.  An identifier of a pool is its prefix followed by exactly five
    digits as long as the number is below 100000. *)
Theorem make_id_width (prefix : string) (i : Z) :
  0 <= i < 10 ^ 5 ->
  String.length (make_id prefix i) = (String.length prefix + 5)%nat.
Proof.
  intros Hi. unfold make_id. rewrite append_length, zfill_length.
  assert (L : (String.length (Py.str i) <= 5)%nat).
  { apply str_length; [lia | lia|]. change (Z.of_nat 5) with 5. lia. }
  lia.
Qed.

Lemma make_id_width_witness :
  0 <= 300 < 10 ^ 5
  /\ String.length (make_id "ACC" 300) = (String.length "ACC" + 5)%nat.
Proof. split; [lia | apply (make_id_width "ACC" 300); lia]. Defined.

Lemma range_NoDup a b : NoDup (Py.range a b).
Proof.
  unfold Py.range. apply NoDup_map_NoDup_ForallPairs; [|apply seq_NoDup].
  intros x y _ _ E. lia.
Qed.

Lemma append_prefix (p q a b : string) :
  String.length p = String.length q -> (p ++ a = q ++ b)%string -> p = q.
Proof.
  revert q. induction p as [|c p IH]; intros [|d q] L E;
    try discriminate L; [reflexivity|].
  cbn [append] in E. injection E as -> E. f_equal.
  apply IH; [now injection L | exact E].
Qed.

(** X26.  The pools of identifiers.  The identifiers built for the
    numbers 1 to [n] with one prefix are [n] pairwise distinct
    identifiers, and pools built with two different prefixes of the same
    length share no identifier: normal accounts, mules and external
    entities cannot be confused.  The 30 mules split, in order, into ten
    complicit, ten recruited and ten exploited ones. *)
Theorem pools_hold_distinct_ids (p q : string) (n m : Z) :
  NoDup (map (make_id p) (Py.range 1 (n + 1)))
  /\ List.length (map (make_id p) (Py.range 1 (n + 1))) = Z.to_nat n
  /\ (String.length p = String.length q -> p <> q ->
      forall x, In x (map (make_id p) (Py.range 1 (n + 1))) ->
                ~ In x (map (make_id q) (Py.range 1 (m + 1))))
  /\ MULE_IDS = COMPLICIT_MULES ++ RECRUITED_MULES ++ EXPLOITED_MULES
  /\ List.length COMPLICIT_MULES = 10%nat
  /\ List.length RECRUITED_MULES = 10%nat
  /\ List.length EXPLOITED_MULES = 10%nat.
Proof.
  split; [|split; [|split; [|split]]].
  - apply NoDup_map_NoDup_ForallPairs; [|apply range_NoDup].
    intros i j Hi Hj E. apply range_In in Hi, Hj.
    destruct (Z.eq_dec i j) as [|Hne]; [assumption|].
    exfalso. apply (make_id_distinct p i j); [lia | lia | exact Hne | exact E].
  - unfold Py.range. rewrite !length_map, length_seq. f_equal. lia.
  - intros L Hne x Hp Hq.
    apply in_map_iff in Hp, Hq.
    destruct Hp as (i & <- & _). destruct Hq as (j & E & _).
    unfold make_id in E. symmetry in E.
    exact (Hne (append_prefix _ _ _ _ L E)).
  - vm_compute. reflexivity.
  - exact MULE_groups_length.
Qed.

(** ** The two helpers of the script *)

(** X27.  [rand_ts] raises [ValueError] when the range of days is empty,
    that is when [end_day] (the whole window when it is not given) lies
    before [start_day]: the first draw, [random.randint(start_day,
    end_day)], is refused. *)
Theorem rand_ts_empty_range_raises (start_day : Z) (end_day : option Z)
    (night_bias : bool) (s : state) :
  match end_day with None => TOTAL_DAYS | Some e => e end < start_day ->
  rand_ts start_day end_day night_bias s = Raises ValueError.
Proof.
  intros H. unfold rand_ts, bind, Random.randint, Random.randbelow, bind.
  destruct end_day as [e|];
    match goal with
    | |- context [?n <=? 0] => destruct (Z.leb_spec n 0); [reflexivity | lia]
    end.
Qed.

Lemma rand_ts_empty_range_raises_witness :
  3 < 5
  /\ rand_ts 5 (Some 3) true (initial (fun _ => 0) (fun _ => 0%Q))
     = Raises ValueError.
Proof.
  split; [lia|]. apply (rand_ts_empty_range_raises 5 (Some 3)). simpl. lia.
Defined.

(** X28.  Asked for days [lo] to [hi] of the window, [rand_ts] returns a
    timestamp dated from the first second of day [lo] to the last second
    of day [hi], timed between 8:00 and 22:59 or, with night bias only,
    in the band 23:00 to 4:59 of that same calendar day; it only consumes
    draws (no row is emitted, the counter is unchanged), and the string
    [strftime] writes for the timestamp reads back as the timestamp.
    Without [end_day] the range ends with the window. *)
Theorem rand_ts_within_requested_days (lo hi : Z) (night_bias : bool)
    (s : state) :
  0 <= lo <= hi -> hi <= TOTAL_DAYS ->
  exists ts s',
    rand_ts lo (Some hi) night_bias s = Returns ts s'
    /\ transactions s' = transactions s
    /\ txn_counter s' = txn_counter s
    /\ day_start lo <= seconds_of ts < day_start (hi + 1)
    /\ (8 <= hour ts <= 22
        \/ (night_bias = true /\ (hour ts = 23 \/ 0 <= hour ts <= 4)))
    /\ strptime (strftime ts) = Some ts
    /\ rand_ts lo None night_bias = rand_ts lo (Some TOTAL_DAYS) night_bias.
Proof.
  intros Hlo Hhi.
  assert (W : wp (rand_ts lo (Some hi) night_bias)
                 (fun ts s' => ts_ok night_bias lo hi ts /\ silent s s') s).
  { apply wp_rand_ts; cbv zeta; [exact Hlo | exact Hhi | auto]. }
  destruct (wp_returns _ _ _ W) as (ts & s' & E & Hts & [Hs _]).
  exists ts, s'. split; [exact E|].
  split; [rewrite (ext_txns _ _ _ Hs); apply app_nil_r|].
  split; [rewrite (ext_counter _ _ _ Hs); simpl; lia|].
  destruct (day_bounds _ _ _ _ Hts) as [B1 B2].
  split; [unfold day_start; split; [exact B1|]|].
  { replace (toordinal START_DATE + (hi + 1))
      with (toordinal START_DATE + hi + 1) by lia. exact B2. }
  split; [exact (ts_hour _ _ _ _ Hts)|].
  split; [exact (ts_ok_parses _ _ _ _ Hts) | reflexivity].
Qed.

Lemma rand_ts_within_requested_days_witness :
  0 <= 61 <= 181 /\ 181 <= TOTAL_DAYS
  /\ exists ts s',
       rand_ts 61 (Some 181) true (initial (fun _ => 0) (fun _ => 0%Q))
       = Returns ts s'
       /\ transactions s' = transactions (initial (fun _ => 0) (fun _ => 0%Q))
       /\ txn_counter s' = txn_counter (initial (fun _ => 0) (fun _ => 0%Q))
       /\ day_start 61 <= seconds_of ts < day_start (181 + 1)
       /\ (8 <= hour ts <= 22
           \/ (true = true /\ (hour ts = 23 \/ 0 <= hour ts <= 4)))
       /\ strptime (strftime ts) = Some ts
       /\ rand_ts 61 None true = rand_ts 61 (Some TOTAL_DAYS) true.
Proof.
  split; [lia|]. split; [vm_compute; discriminate|].
  apply (rand_ts_within_requested_days 61 181 true); [lia|].
  vm_compute. discriminate.
Defined.

(** X29.  On an amount between 0 and 1000000, which covers every amount
    the script rounds (the largest is drawn below 500000), [round_amount]
    returns, consuming one draw and emitting nothing.  Its result has at
    most two decimal places and is within 500 of the amount given; it is
    either a whole multiple of 1000 (the rounding to the nearest 1000) or
    within half a cent of the amount (the rounding to two places).
    Neither rounding takes the amount across a whole multiple of 1000:
    an amount between two such bounds stays between them, which is why
    the amounts of the mule rules stay in the range they were drawn
    from.  The bound on the amount keeps the statement to magnitudes at
    which a float holds every multiple of 1000 and every cent apart, so
    that the reading of the amounts as rationals is that of the code. *)
Theorem round_amount_stays_close (x : Q) (s : state) :
  (0 <= x)%Q -> (x <= 1000000)%Q ->
  exists a s',
    round_amount x s = Returns a s'
    /\ transactions s' = transactions s
    /\ py_pos s' = N.succ (py_pos s)
    /\ two_places a
    /\ (x - 500 <= a)%Q /\ (a <= x + 500)%Q
    /\ ((exists k : Z, a = inject_Z (k * 1000))
        \/ ((x - (1 # 200) <= a)%Q /\ (a <= x + (1 # 200))%Q))
    /\ (0 <= a)%Q /\ (a <= 1000000)%Q
    /\ forall kl kh : Z,
         (inject_Z (kl * 1000) <= x)%Q -> (x <= inject_Z (kh * 1000))%Q ->
         (inject_Z (kl * 1000) <= a)%Q /\ (a <= inject_Z (kh * 1000))%Q.
Proof.
  intros Hlo Hhi.
  unfold round_amount, bind, Random.random, Random.next_raw, bind, ret.
  cbn [transactions py_pos].
  destruct (Qltb _ _); eexists; eexists; (split; [reflexivity|]);
    cbn [transactions py_pos]; (split; [reflexivity|]);
    (split; [reflexivity|]).
  - split; [apply (two_places_smurf x)|].
    destruct (smurf_near x) as [H1 H2].
    split; [exact H1|]. split; [exact H2|].
    split; [left; eexists; reflexivity|].
    destruct (smurf_between 0 1000 x) as [B1 B2]; [exact Hlo | exact Hhi |].
    split; [exact B1|]. split; [exact B2|].
    intros kl kh. apply smurf_between.
  - split; [apply two_places_round2|].
    destruct (round2_near x) as [H1 H2].
    split; [lra|]. split; [lra|]. split; [right; auto|].
    destruct (round2_between 0 1000000 x) as [B1 B2];
      [exact Hlo | exact Hhi |].
    split; [exact B1|]. split; [exact B2|].
    intros kl kh. apply round2_between.
Qed.

Lemma round_amount_stays_close_witness :
  (0 <= 123456789 # 1000)%Q /\ (123456789 # 1000 <= 1000000)%Q
  /\ exists a s',
       round_amount (123456789 # 1000)
                    (initial (fun _ => 0) (fun _ => 0%Q)) = Returns a s'
       /\ transactions s' = transactions (initial (fun _ => 0) (fun _ => 0%Q))
       /\ py_pos s' = N.succ (py_pos (initial (fun _ => 0) (fun _ => 0%Q)))
       /\ two_places a
       /\ ((123456789 # 1000) - 500 <= a)%Q
       /\ (a <= (123456789 # 1000) + 500)%Q
       /\ ((exists k : Z, a = inject_Z (k * 1000))
           \/ (((123456789 # 1000) - (1 # 200) <= a)%Q
               /\ (a <= (123456789 # 1000) + (1 # 200))%Q))
       /\ (0 <= a)%Q /\ (a <= 1000000)%Q
       /\ forall kl kh : Z,
            (inject_Z (kl * 1000) <= 123456789 # 1000)%Q ->
            (123456789 # 1000 <= inject_Z (kh * 1000))%Q ->
            (inject_Z (kl * 1000) <= a)%Q /\ (a <= inject_Z (kh * 1000))%Q.
Proof.
  split; [vm_compute; discriminate|]. split; [vm_compute; discriminate|].
  apply (round_amount_stays_close (123456789 # 1000));
    vm_compute; discriminate.
Defined.
